(** * A Rocq model of the inventory console (main.go)

    The program is an interactive console over four fixed tables.  The
    model keeps the program's own shape: Go strings are byte strings
    ([string] of Stdlib), Go [int] values are [Z] with the 64-bit range
    made explicit where it matters ([Atoi]), the console, the standard
    input and the database handle are an explicit environment threaded
    by a small monad, and the two endless [for] loops ([mainMenu] and
    [viewTable]) are a step function on control states. *)

From Stdlib Require Import String Ascii List ZArith Lia Bool Arith.
From Stdlib Require Import Decimal DecimalString DecimalNat.
Import ListNotations.
Open Scope string_scope.
Open Scope nat_scope.

(* ================================================================= *)
(** ** Strings: the pieces of [strings], [strconv], [fmt] and [regexp]
       that main.go calls *)

Module GoStr.

(** [strings.Join]. *)
Definition Join (elems : list string) (sep : string) : string :=
  String.concat sep elems.

(** [strings.Repeat]. *)
Fixpoint Repeat (s : string) (count : nat) : string :=
  match count with
  | O => ""
  | S n => s ++ Repeat s n
  end.

(** [strings.Contains]. *)
Definition Contains (s substr : string) : bool :=
  match String.index 0 substr s with
  | Some _ => true
  | None => false
  end.

(** [strings.Split] for a non-empty separator: the text is cut at every
    occurrence of [sep], leftmost first.  The fuel is the length of the
    text, which bounds the number of cuts. *)
Fixpoint splitFuel (fuel : nat) (s sep : string) : list string :=
  match fuel with
  | O => [s]
  | S f =>
      match String.index 0 sep s with
      | None => [s]
      | Some i =>
          let skip := i + String.length sep in
          String.substring 0 i s
            :: splitFuel f (String.substring skip (String.length s - skip) s) sep
      end
  end.

Definition Split (s sep : string) : list string :=
  splitFuel (String.length s) s sep.

(** [fmt.Sprintf("%d", n)] for a non-negative [n]. *)
Definition itoa (n : nat) : string :=
  NilZero.string_of_uint (Nat.to_uint n).

Definition isDigit (c : ascii) : bool :=
  (48 <=? nat_of_ascii c) && (nat_of_ascii c <=? 57).

Definition digitVal (c : ascii) : nat := nat_of_ascii c - 48.

(** [strconv.Atoi] on a 64-bit platform: an optional sign, then one or
    more decimal digits and nothing else; the value must fit an [int]. *)
Definition minInt : Z := - 2 ^ 63.
Definition maxInt : Z := 2 ^ 63 - 1.

Fixpoint parseDigits (s : string) (acc : Z) : option Z :=
  match s with
  | "" => Some acc
  | String c r =>
      if isDigit c
      then parseDigits r (acc * 10 + Z.of_nat (digitVal c))
      else None
  end.

Definition Atoi (s : string) : option Z :=
  match s with
  | "" => None
  | String c r =>
      let neg := Ascii.eqb c "-" in
      let body := if neg || Ascii.eqb c "+" then r else s in
      match body with
      | "" => None
      | _ =>
          match parseDigits body 0 with
          | None => None
          | Some n =>
              let v := if neg then (- n)%Z else n in
              if (minInt <=? v)%Z && (v <=? maxInt)%Z then Some v else None
          end
      end
  end.

(** The character class of [whiteListRegex],
    [[a-zA-Zа-яА-ЯёЁ0-9\s\-\.]], read on the bytes of the UTF-8 text.
    The one-byte members: *)
Definition asciiAllowed (n : nat) : bool :=
  ((97 <=? n) && (n <=? 122))          (* a-z *)
  || ((65 <=? n) && (n <=? 90))        (* A-Z *)
  || ((48 <=? n) && (n <=? 57))        (* 0-9 *)
  || (n =? 9) || (n =? 10) || (n =? 12) || (n =? 13) || (n =? 32) (* \s *)
  || (n =? 45) || (n =? 46).           (* - and . *)

(** The two-byte members: U+0410..U+044F (А-Я, а-я) are D0 90..BF and
    D1 80..8F; Ё (U+0401) is D0 81 and ё (U+0451) is D1 91. *)
Definition cyrillicAllowed (b1 b2 : nat) : bool :=
  ((b1 =? 208) && (((144 <=? b2) && (b2 <=? 191)) || (b2 =? 129)))
  || ((b1 =? 209) && (((128 <=? b2) && (b2 <=? 143)) || (b2 =? 145))).

Fixpoint allInClass (s : string) : bool :=
  match s with
  | "" => true
  | String c r =>
      if asciiAllowed (nat_of_ascii c) then allInClass r
      else
        match r with
        | String c2 r2 =>
            if cyrillicAllowed (nat_of_ascii c) (nat_of_ascii c2)
            then allInClass r2
            else false
        | "" => false
        end
  end.

(** [whiteListRegex.MatchString]: the pattern is anchored at both ends
    and asks for at least one character of the class. *)
Definition whiteListRegex_MatchString (s : string) : bool :=
  match s with
  | "" => false
  | _ => allInClass s
  end.

End GoStr.

(* ================================================================= *)
(** ** The static catalog *)

Record TableInfo := mkTable { Name : string; Columns : list string }.

(** [loadTableInfo]. *)
Definition tables : list TableInfo :=
  [ mkTable "categories" ["id"; "name"; "description"];
    mkTable "manufacturers" ["id"; "name"; "country"; "founded_year"];
    mkTable "components"
      ["id"; "name"; "category_id"; "manufacturer_id"; "model"; "price"];
    mkTable "stock" ["id"; "component_id"; "quantity"; "warehouse_location"] ].

(** [relatedTables], set in [main]; the two names are separated by the
    Cyrillic conjunction (bytes D0 B8) between two spaces. *)
Definition relationSep : string := " и ".

Definition relatedTables : list string :=
  [ "components" ++ relationSep ++ "stock";
    "categories" ++ relationSep ++ "components";
    "manufacturers" ++ relationSep ++ "components" ].

(** The zero value of [TableInfo] ([var table1, table2 TableInfo]). *)
Definition zeroTable : TableInfo := mkTable "" [].

(* ================================================================= *)
(** ** The environment: standard input, database, console *)

(** A bound query parameter ([interface{}]): main.go binds the text the
    operator typed, and once the [int] read back by [RETURNING id]. *)
Inductive Arg :=
| AStr (s : string)
| AInt (n : Z).

(** One answer of the database.  A result set lists its column names
    and its rows; a cell is [None] for NULL and otherwise its text as
    [fmt.Sprintf("%v", val)] prints it. *)
Inductive DBResult :=
| DBError
| DBRows (columns : list string) (rows : list (list (option string)))
| DBAffected (n : Z)
| DBId (id : Z).

(** The headings shown by [selectTable] and the count prompts. *)
Inductive Operation := OpView | OpFilter | OpUpdate | OpInsert | OpInsertRelated.

(** What the program writes on the console, one constructor per
    message of main.go (the wording is Russian there).  Log lines go
    to the log file through [logToFileAndScreen] and are not part of
    the model. *)
Inductive Msg :=
| MsgMenu                                   (* the six menu lines and the prompt *)
| MsgMenuNotNumber                          (* menu input is not a number *)
| MsgMenuRange                              (* menu number outside 0..5 *)
| MsgExit
| MsgTableMenu (op : Operation)             (* table list and prompt *)
| MsgChoiceRange (upper : nat)              (* choose a digit from 0 to upper *)
| MsgQueryFailed
| MsgFound (n : nat)
| MsgAskCount (op : Operation)
| MsgCountInvalid                           (* enter a number greater than 0 *)
| MsgFilterHeader (i : nat) (total : Z)
| MsgColumnMenu (table : string) (columns : list string)
| MsgAskFilterValue (column : string)
| MsgInvalidChars                           (* characters outside the white list *)
| MsgFilterFailed
| MsgNoRecords
| MsgNoUpdatableColumns
| MsgAskId (i : nat)
| MsgIdNotNumber                            (* the ID must be a number *)
| MsgAskNewValue (column table : string)
| MsgNotANumber (column : string)           (* the field must be a number *)
| MsgUpdateFailed
| MsgUpdated (n : Z)
| MsgRecordHeader (i : nat) (total : Z)
| MsgAskValue (column : string)
| MsgInsertFailed
| MsgInserted (i : nat)
| MsgTotalInserted (total : Z)
| MsgRelationMenu
| MsgBadRelationFormat
| MsgTableHeader (table : string)
| MsgFirstInsertFailed
| MsgFirstInserted (table : string) (id : Z)
| MsgForeignKey (table column : string) (id : Z)
| MsgAutoSet (column : string) (id : Z)
| MsgSecondInsertFailed
| MsgSecondInserted (table : string)
| MsgTotalRelated (total : Z).

Inductive Event :=
| Say (m : Msg)
| Line (text : string)                       (* a line of the rendered grid *)
| Query (sql : string) (args : list Arg)     (* db.Query *)
| Exec (sql : string) (args : list Arg)      (* db.Exec *)
| QueryRow (sql : string) (args : list Arg). (* db.QueryRow(...).Scan *)

(** [stdin] holds the lines still to be read, each one already passed
    through [strings.TrimSpace]; [db] holds the answers the database
    will give to the calls still to come. *)
Record Env := mkEnv { stdin : list string; db : list DBResult }.

(** How a piece of a Go function body ends: it falls through with a
    value, the function executes [return], or the runtime panics (an
    index or a slice bound out of range, a nil dereference). *)
Inductive Outcome (A : Type) :=
| Ret (a : A)
| Return
| Panic.
Arguments Ret {A} a.
Arguments Return {A}.
Arguments Panic {A}.

Definition M (A : Type) : Type := Env -> Outcome A * Env * list Event.

Definition ret {A} (a : A) : M A := fun e => (Ret a, e, []).

Definition bind {A B} (m : M A) (f : A -> M B) : M B :=
  fun e =>
    match m e with
    | (Ret a, e1, t1) =>
        match f a e1 with
        | (o, e2, t2) => (o, e2, (t1 ++ t2)%list)
        end
    | (Return, e1, t1) => (Return, e1, t1)
    | (Panic, e1, t1) => (Panic, e1, t1)
    end.

Notation "x <- m ;; k" := (bind m (fun x => k))
  (at level 61, m at next level, right associativity).
Notation "m ;;; k" := (bind m (fun _ => k))
  (at level 61, right associativity).

Definition goReturn {A} : M A := fun e => (Return, e, []).
Definition panic {A} : M A := fun e => (Panic, e, []).
Definition emit (ev : Event) : M unit := fun e => (Ret tt, e, [ev]).
Definition say (m : Msg) : M unit := emit (Say m).

(** A call of a function without results: its [return] ends the call,
    not the caller. *)
Definition call (m : M unit) : M unit :=
  fun e =>
    match m e with
    | (Return, e1, t1) => (Ret tt, e1, t1)
    | r => r
    end.

(** [reader.ReadString] followed by [strings.TrimSpace]; at end of
    input the read fails, the error is dropped and the text is empty. *)
Definition readLine : M string :=
  fun e =>
    match stdin e with
    | [] => (Ret "", e, [])
    | l :: rest => (Ret l, mkEnv rest (db e), [])
    end.

Definition nextAnswer (e : Env) : DBResult * Env :=
  match db e with
  | [] => (DBError, e)
  | r :: rest => (r, mkEnv (stdin e) rest)
  end.

(** [db.Query]: [None] is a non-nil error. *)
Definition dbQuery (sql : string) (args : list Arg)
  : M (option (list string * list (list (option string)))) :=
  fun e =>
    match nextAnswer e with
    | (DBRows c r, e1) => (Ret (Some (c, r)), e1, [Query sql args])
    | (_, e1) => (Ret None, e1, [Query sql args])
    end.

(** [db.Exec] and [result.RowsAffected]. *)
Definition dbExec (sql : string) (args : list Arg) : M (option Z) :=
  fun e =>
    match nextAnswer e with
    | (DBAffected n, e1) => (Ret (Some n), e1, [Exec sql args])
    | (_, e1) => (Ret None, e1, [Exec sql args])
    end.

(** [db.QueryRow(...).Scan(&insertedID)]. *)
Definition dbQueryRow (sql : string) (args : list Arg) : M (option Z) :=
  fun e =>
    match nextAnswer e with
    | (DBId id, e1) => (Ret (Some id), e1, [QueryRow sql args])
    | (_, e1) => (Ret None, e1, [QueryRow sql args])
    end.

(** [l[i]]: out of range is a run-time panic. *)
Definition index {A} (l : list A) (i : Z) : M A :=
  if (i <? 0)%Z then panic
  else match nth_error l (Z.to_nat i) with
       | Some x => ret x
       | None => panic
       end.

(** [l[1:]]: panics on an empty slice. *)
Definition sliceFrom1 {A} (l : list A) : M (list A) :=
  match l with
  | [] => panic
  | _ :: rest => ret rest
  end.

Definition len {A} (l : list A) : Z := Z.of_nat (List.length l).

(* ================================================================= *)
(** ** Rendering a result set (the same code in [viewTable] and
       [filterData]) *)

(** [padRight]: cut to [length] bytes when the text is at least that
    long, otherwise fill with spaces on the right. *)
Definition padRight (str : string) (length : nat) : string :=
  if length <=? String.length str
  then String.substring 0 length str
  else str ++ GoStr.Repeat " " (length - String.length str).

(** [if len(x) > columnWidths[i] { columnWidths[i] = len(x) }]. *)
Definition bump (width n : nat) : nat := if width <? n then n else width.

Fixpoint zipWith {A B C} (f : A -> B -> C) (l1 : list A) (l2 : list B) : list C :=
  match l1, l2 with
  | a :: r1, b :: r2 => f a b :: zipWith f r1 r2
  | _, _ => []
  end.

(** [columnWidths] after the loop over the column names; it starts as
    [make([]int, len(columns))], all zero. *)
Definition headerWidths (columns : list string) : list nat :=
  map (fun col => bump 0 (String.length col)) columns.

(** The text of a scanned value: empty for nil. *)
Definition cellText (val : option string) : string :=
  match val with
  | None => ""
  | Some s => s
  end.

(** The inner loop over the scanned values of one row. *)
Definition widen (columnWidths : list nat) (rowData : list string) : list nat :=
  zipWith bump columnWidths (map String.length rowData).

(** The loop [for rows.Next()]: [rows.Scan] receives [len(columns)]
    destinations and fails, skipping the row, when the row has another
    number of values. *)
Fixpoint scanRows (ncols : nat) (rows : list (list (option string)))
    (columnWidths : list nat) (allRows : list (list string))
  : list nat * list (list string) :=
  match rows with
  | [] => (columnWidths, allRows)
  | r :: rest =>
      if List.length r =? ncols
      then
        let rowData := map cellText r in
        scanRows ncols rest (widen columnWidths rowData) (allRows ++ [rowData])
      else scanRows ncols rest columnWidths allRows
  end.

Definition headerLine (columns : list string) (columnWidths : list nat) : string :=
  GoStr.Join (zipWith padRight columns columnWidths) " | ".

Definition dividerLine (columnWidths : list nat) : string :=
  GoStr.Join (map (GoStr.Repeat "-") columnWidths) "-+-".

Definition rowLine (rowData : list string) (columnWidths : list nat) : string :=
  GoStr.Join (zipWith padRight rowData columnWidths) " | ".

Definition newline : string := String (ascii_of_nat 10) "".

(** Header (after an empty line), divider, one line per row. *)
Definition printGrid (columns : list string) (columnWidths : list nat)
    (allRows : list (list string)) : list Event :=
  Line (newline ++ headerLine columns columnWidths)
    :: Line (dividerLine columnWidths)
    :: map (fun rowData => Line (rowLine rowData columnWidths)) allRows.

Definition emitAll (evs : list Event) : M unit := fun e => (Ret tt, e, evs).

(* ================================================================= *)
(** ** The five operations *)

Definition selectByNumber (input : string) (count : nat) : option Z :=
  match GoStr.Atoi input with
  | None => None
  | Some choice =>
      if (choice <? 0)%Z || (choice >? Z.of_nat count)%Z then None else Some choice
  end.

(** [selectTable]: the index of the chosen table, or -1. *)
Definition selectTable (op : Operation) : M Z :=
  say (MsgTableMenu op) ;;;
  input <- readLine ;;
  match selectByNumber input (List.length tables) with
  | None => say (MsgChoiceRange (List.length tables)) ;;; ret (-1)%Z
  | Some choice => if (choice =? 0)%Z then ret (-1)%Z else ret (choice - 1)%Z
  end.

(** [selectColumn]: the index of the chosen column, or -1. *)
Definition selectColumn (table : TableInfo) : M Z :=
  say (MsgColumnMenu (Name table) (Columns table)) ;;;
  input <- readLine ;;
  match selectByNumber input (List.length (Columns table)) with
  | None => say (MsgChoiceRange (List.length (Columns table))) ;;; ret (-1)%Z
  | Some choice => if (choice =? 0)%Z then ret (-1)%Z else ret (choice - 1)%Z
  end.

(** The count prompt that opens operations 2 to 5:
    [if err != nil || count < 1 { ...; return }]. *)
Definition readCount (op : Operation) : M Z :=
  say (MsgAskCount op) ;;;
  input <- readLine ;;
  match GoStr.Atoi input with
  | None => say MsgCountInvalid ;;; goReturn
  | Some count =>
      if (count <? 1)%Z then say MsgCountInvalid ;;; goReturn else ret count
  end.

(** *** 1. [viewTable]: one turn of its [for] loop.  Falling through is
    [continue]; [Return] leaves the function.  [rows.Columns()] is
    taken to succeed on the open result set.  The second [db.Query]
    ignores its error and defers [rows.Close()] on the result, a nil
    pointer when the query failed: the deferred call then panics when
    the function returns. *)
Definition viewTableBody : M unit :=
  say (MsgTableMenu OpView) ;;;
  input <- readLine ;;
  match selectByNumber input (List.length tables) with
  | None => say (MsgChoiceRange (List.length tables)) ;;; ret tt
  | Some choice =>
      if (choice =? 0)%Z then goReturn
      else
        table <- index tables (choice - 1)%Z ;;
        let query := "SELECT * FROM " ++ Name table ++ " ORDER BY id" in
        res <- dbQuery query [] ;;
        match res with
        | None => say MsgQueryFailed ;;; ret tt
        | Some (columns, rows) =>
            let '(columnWidths, allRows) :=
              scanRows (List.length columns) rows (headerWidths columns) [] in
            again <- dbQuery query [] ;;
            emitAll (printGrid columns columnWidths allRows) ;;;
            say (MsgFound (List.length allRows)) ;;;
            match again with
            | None => panic
            | Some _ => goReturn
            end
        end
  end.

(** *** 2. [filterData] *)

Definition filterQuery (table : string) (conditions : list string) : string :=
  "SELECT * FROM " ++ table ++ " WHERE " ++ GoStr.Join conditions " AND "
    ++ " ORDER BY id".

(** The loop [for i := 0; i < filterCount; i++], [n] turns left. *)
Fixpoint filterLoop (table : TableInfo) (filterCount : Z) (n i : nat)
    (conditions : list string) (values : list Arg)
  : M (list string * list Arg) :=
  match n with
  | O => ret (conditions, values)
  | S n' =>
      say (MsgFilterHeader (i + 1) filterCount) ;;;
      columnIndex <- selectColumn table ;;
      if (columnIndex =? -1)%Z then goReturn
      else
        columnName <- index (Columns table) columnIndex ;;
        say (MsgAskFilterValue columnName) ;;;
        value <- readLine ;;
        if negb (GoStr.whiteListRegex_MatchString value)
        then say MsgInvalidChars ;;; goReturn
        else
          filterLoop table filterCount n' (S i)
            (conditions ++ [columnName ++ " = $" ++ GoStr.itoa (i + 1)])
            (values ++ [AStr value])
  end.

Definition filterData : M unit :=
  filterCount <- readCount OpFilter ;;
  tableIndex <- selectTable OpFilter ;;
  if (tableIndex =? -1)%Z then goReturn
  else
    table <- index tables tableIndex ;;
    cv <- filterLoop table filterCount (Z.to_nat filterCount) 0 [] [] ;;
    let '(conditions, values) := cv in
    res <- dbQuery (filterQuery (Name table) conditions) values ;;
    match res with
    | None => say MsgFilterFailed ;;; goReturn
    | Some (columns, rows) =>
        let '(columnWidths, allRows) :=
          scanRows (List.length columns) rows (headerWidths columns) [] in
        match allRows with
        | [] => say MsgNoRecords ;;; goReturn
        | _ =>
            emitAll (printGrid columns columnWidths allRows) ;;;
            say (MsgFound (List.length allRows))
        end
    end.

(** The two tests applied to a value typed for [column]: the white
    list, then, for the columns the calling code names as numeric,
    [strconv.Atoi].  Each failure prints its message and [return]s. *)
Definition checkValue (isNumeric : string -> bool) (column value : string)
  : M unit :=
  if negb (GoStr.whiteListRegex_MatchString value)
  then say MsgInvalidChars ;;; goReturn
  else if isNumeric column
  then
    match GoStr.Atoi value with
    | None => say (MsgNotANumber column) ;;; goReturn
    | Some _ => ret tt
    end
  else ret tt.

(** *** 3. [updateData] *)

(** The columns offered for update: every column but [id]. *)
Definition updatableColumns (table : TableInfo) : list string :=
  filter (fun column => negb (column =? "id")%string) (Columns table).

(** The loop that reads the row identifiers, [n] turns left. *)
Fixpoint readIds (n i : nat) (ids : list string) : M (list string) :=
  match n with
  | O => ret ids
  | S n' =>
      say (MsgAskId (i + 1)) ;;;
      idInput <- readLine ;;
      match GoStr.Atoi idInput with
      | None => say MsgIdNotNumber ;;; goReturn
      | Some _ => readIds n' (S i) (ids ++ [idInput])
      end
  end.

(** The numeric-field test of [updateData] and [insertData]. *)
Definition numericColumn (column : string) : bool :=
  ((column =? "price") || (column =? "quantity") || (column =? "founded_year")
   || (column =? "category_id") || (column =? "manufacturer_id")
   || (column =? "component_id"))%string.

(** [placeholders[i] = fmt.Sprintf("$%d", i+first)] for [i] from 0. *)
Definition placeholdersFrom (first count : nat) : list string :=
  map (fun i => "$" ++ GoStr.itoa (i + first)) (seq 0 count).

Definition updateQuery (updateCount : Z) (table column : string) (ids : list string)
  : string :=
  if (updateCount =? 1)%Z
  then "UPDATE " ++ table ++ " SET " ++ column ++ " = $1 WHERE id = $2"
  else "UPDATE " ++ table ++ " SET " ++ column ++ " = $1 WHERE id IN ("
         ++ GoStr.Join (placeholdersFrom 2 (List.length ids)) ", " ++ ")".

Definition updateArgs (updateCount : Z) (newValue : string) (ids : list string)
  : M (list Arg) :=
  if (updateCount =? 1)%Z
  then id0 <- index ids 0 ;; ret [AStr newValue; AStr id0]
  else ret (AStr newValue :: map AStr ids).

Definition updateData : M unit :=
  updateCount <- readCount OpUpdate ;;
  tableIndex <- selectTable OpUpdate ;;
  if (tableIndex =? -1)%Z then goReturn
  else
    table <- index tables tableIndex ;;
    let updatable := updatableColumns table in
    match updatable with
    | [] => say MsgNoUpdatableColumns ;;; goReturn
    | _ =>
        ids <- readIds (Z.to_nat updateCount) 0 [] ;;
        say (MsgColumnMenu (Name table) updatable) ;;;
        columnInput <- readLine ;;
        match selectByNumber columnInput (List.length updatable) with
        | None => say (MsgChoiceRange (List.length updatable)) ;;; goReturn
        | Some columnChoice =>
            if (columnChoice =? 0)%Z then goReturn
            else
              columnName <- index updatable (columnChoice - 1)%Z ;;
              say (MsgAskNewValue columnName (Name table)) ;;;
              newValue <- readLine ;;
              checkValue numericColumn columnName newValue ;;;
              args <- updateArgs updateCount newValue ids ;;
              result <- dbExec
                (updateQuery updateCount (Name table) columnName ids) args ;;
              match result with
              | None => say MsgUpdateFailed ;;; goReturn
              | Some rowsAffected => say (MsgUpdated rowsAffected)
              end
        end
    end.

(** *** 4. [insertData] *)

(** The loop over the columns to fill; [isNumeric] is the numeric-field
    test of the calling operation. *)
Fixpoint readValues (isNumeric : string -> bool) (columns : list string)
    (values : list Arg) : M (list Arg) :=
  match columns with
  | [] => ret values
  | column :: rest =>
      say (MsgAskValue column) ;;;
      value <- readLine ;;
      checkValue isNumeric column value ;;;
      readValues isNumeric rest (values ++ [AStr value])
  end.

Definition insertQuery (table : string) (insertColumns : list string) : string :=
  "INSERT INTO " ++ table ++ " (" ++ GoStr.Join insertColumns ", "
    ++ ") VALUES ("
    ++ GoStr.Join (placeholdersFrom 1 (List.length insertColumns)) ", " ++ ")".

(** The body of the loop over the records, for record [i] (from 0). *)
Definition insertRecord (table : TableInfo) (insertColumns : list string)
    (recordCount : Z) (i : nat) : M unit :=
  say (MsgRecordHeader (i + 1) recordCount) ;;;
  values <- readValues numericColumn insertColumns [] ;;
  result <- dbExec (insertQuery (Name table) insertColumns) values ;;
  match result with
  | None => say MsgInsertFailed ;;; goReturn
  | Some _ => say (MsgInserted (i + 1))
  end.

(** The loop [for i := 0; i < recordCount; i++], [n] turns left. *)
Fixpoint insertLoop (table : TableInfo) (insertColumns : list string)
    (recordCount : Z) (n i : nat) : M unit :=
  match n with
  | O => ret tt
  | S n' =>
      insertRecord table insertColumns recordCount i ;;;
      insertLoop table insertColumns recordCount n' (S i)
  end.

Definition insertData : M unit :=
  recordCount <- readCount OpInsert ;;
  tableIndex <- selectTable OpInsert ;;
  if (tableIndex =? -1)%Z then goReturn
  else
    table <- index tables tableIndex ;;
    insertColumns <- sliceFrom1 (Columns table) ;;
    insertLoop table insertColumns recordCount (Z.to_nat recordCount) 0 ;;;
    say (MsgTotalInserted recordCount).

(** *** 5. [insertRelatedData] *)

(** The loop that looks the two names up in [tables]. *)
Definition findTable (name : string) : TableInfo :=
  fold_left (fun found t => if (Name t =? name)%string then t else found)
    tables zeroTable.

(** The numeric-field tests of the first and of the second insert. *)
Definition numericColumnFirst (column : string) : bool :=
  ((column =? "price") || (column =? "founded_year") || (column =? "category_id")
   || (column =? "manufacturer_id"))%string.

Definition numericColumnSecond (column : string) : bool :=
  ((column =? "quantity") || (column =? "price"))%string.

(** The first loop over [table2.Columns]: the explicit relations.  The
    result is empty when the loop ends without [break]. *)
Fixpoint explicitForeignKey (table1 table2 : TableInfo) (columns : list string)
  : string :=
  match columns with
  | [] => ""
  | column :: rest =>
      if ((column =? "component_id") || (column =? "category_id")
          || (column =? "manufacturer_id"))%string
      then
        if GoStr.Contains (Name table2) "stock"
           && (Name table1 =? "components")%string
           && (column =? "component_id")%string
        then column
        else if GoStr.Contains (Name table2) "components"
        then
          if (Name table1 =? "categories")%string && (column =? "category_id")%string
          then column
          else if (Name table1 =? "manufacturers")%string
                  && (column =? "manufacturer_id")%string
          then column
          else explicitForeignKey table1 table2 rest
        else explicitForeignKey table1 table2 rest
      else explicitForeignKey table1 table2 rest
  end.

(** The second loop: the first column that is not [id]. *)
Fixpoint fallbackForeignKey (columns : list string) : string :=
  match columns with
  | [] => ""
  | column :: rest =>
      if negb (column =? "id")%string then column else fallbackForeignKey rest
  end.

Definition foreignKeyColumn (table1 table2 : TableInfo) : string :=
  let found := explicitForeignKey table1 table2 (Columns table2) in
  if (found =? "")%string then fallbackForeignKey (Columns table2) else found.

(** The loop over the columns of the second table. *)
Fixpoint readValuesSecond (foreignKey : string) (insertedID : Z)
    (columns : list string) (values : list Arg) : M (list Arg) :=
  match columns with
  | [] => ret values
  | column :: rest =>
      if (column =? foreignKey)%string
      then
        say (MsgAutoSet column insertedID) ;;;
        readValuesSecond foreignKey insertedID rest (values ++ [AInt insertedID])
      else
        say (MsgAskValue column) ;;;
        value <- readLine ;;
        checkValue numericColumnSecond column value ;;;
        readValuesSecond foreignKey insertedID rest (values ++ [AStr value])
  end.

(** The body of the loop over the records, for record [i] (from 0):
    the insert into the first table, the search of the foreign key, the
    insert into the second table. *)
Definition relatedRecord (table1 table2 : TableInfo) (recordCount : Z) (i : nat)
  : M unit :=
  say (MsgRecordHeader (i + 1) recordCount) ;;;
  say (MsgTableHeader (Name table1)) ;;;
  insertColumns1 <- sliceFrom1 (Columns table1) ;;
  values1 <- readValues numericColumnFirst insertColumns1 [] ;;
  first <- dbQueryRow
    (insertQuery (Name table1) insertColumns1 ++ " RETURNING id") values1 ;;
  match first with
  | None => say MsgFirstInsertFailed ;;; goReturn
  | Some insertedID =>
      say (MsgFirstInserted (Name table1) insertedID) ;;;
      say (MsgTableHeader (Name table2)) ;;;
      let foreignKey := foreignKeyColumn table1 table2 in
      say (MsgForeignKey (Name table2) foreignKey insertedID) ;;;
      insertColumns2 <- sliceFrom1 (Columns table2) ;;
      values2 <- readValuesSecond foreignKey insertedID insertColumns2 [] ;;
      second <- dbExec (insertQuery (Name table2) insertColumns2) values2 ;;
      match second with
      | None => say MsgSecondInsertFailed ;;; goReturn
      | Some _ => say (MsgSecondInserted (Name table2))
      end
  end.

(** The loop [for i := 0; i < recordCount; i++], [n] turns left. *)
Fixpoint relatedLoop (table1 table2 : TableInfo) (recordCount : Z) (n i : nat)
  : M unit :=
  match n with
  | O => ret tt
  | S n' =>
      relatedRecord table1 table2 recordCount i ;;;
      relatedLoop table1 table2 recordCount n' (S i)
  end.

Definition insertRelatedData : M unit :=
  recordCount <- readCount OpInsertRelated ;;
  say MsgRelationMenu ;;;
  choiceInput <- readLine ;;
  match selectByNumber choiceInput (List.length relatedTables) with
  | None => say (MsgChoiceRange (List.length relatedTables)) ;;; goReturn
  | Some choice =>
      if (choice =? 0)%Z then goReturn
      else
        relation <- index relatedTables (choice - 1)%Z ;;
        match GoStr.Split relation relationSep with
        | [name1; name2] =>
            relatedLoop (findTable name1) (findTable name2) recordCount
              (Z.to_nat recordCount) 0 ;;;
            say (MsgTotalRelated recordCount)
        | _ => say MsgBadRelationFormat ;;; goReturn
        end
  end.

(* ================================================================= *)
(** ** The menu loop as a machine *)

(** Where the program stands between two reads of the menu or of the
    table list of [viewTable]. *)
Inductive Control :=
| AtMenu                 (* at the top of the loop of mainMenu *)
| InViewTable            (* at the top of the loop of viewTable *)
| Exited (status : Z)    (* os.Exit *)
| Panicked.

(** One turn of the loop of [mainMenu], up to the next loop head. *)
Definition mainMenuBody : M Control :=
  say MsgMenu ;;;
  input <- readLine ;;
  match GoStr.Atoi input with
  | None => say MsgMenuNotNumber ;;; ret AtMenu
  | Some choice =>
      if (choice =? 0)%Z then say MsgExit ;;; ret (Exited 0)
      else if (choice =? 1)%Z then ret InViewTable
      else if (choice =? 2)%Z then call filterData ;;; ret AtMenu
      else if (choice =? 3)%Z then call updateData ;;; ret AtMenu
      else if (choice =? 4)%Z then call insertData ;;; ret AtMenu
      else if (choice =? 5)%Z then call insertRelatedData ;;; ret AtMenu
      else say MsgMenuRange ;;; ret AtMenu
  end.

Definition step (c : Control) (e : Env) : Control * Env * list Event :=
  match c with
  | AtMenu =>
      match mainMenuBody e with
      | (Ret c', e', t) => (c', e', t)
      | (Return, e', t) => (Exited 0, e', t)   (* main would return *)
      | (Panic, e', t) => (Panicked, e', t)
      end
  | InViewTable =>
      match viewTableBody e with
      | (Ret _, e', t) => (InViewTable, e', t)  (* continue *)
      | (Return, e', t) => (AtMenu, e', t)      (* back in mainMenu *)
      | (Panic, e', t) => (Panicked, e', t)
      end
  | Exited _ | Panicked => (c, e, [])
  end.

(** [n] steps from a control state, with the events in order. *)
Fixpoint run (n : nat) (c : Control) (e : Env) : Control * Env * list Event :=
  match n with
  | O => (c, e, [])
  | S n' =>
      match step c e with
      | (c1, e1, t1) =>
          match run n' c1 e1 with
          | (c2, e2, t2) => (c2, e2, (t1 ++ t2)%list)
          end
      end
  end.

(** *** [main] before the menu *)

(** What the start of [main] meets: whether the log file opens,
    whether [sql.Open] succeeds, and the answers of the successive
    [db.Ping] calls ([true] for a nil error; no answer left counts as
    an error). *)
Record Boot := mkBoot { logOpens : bool; sqlOpens : bool; pings : list bool }.

(** The loop [for i := 0; i < maxRetries; i++] around [db.Ping], with
    [left] turns left: a success breaks out, a failure on the last
    turn exits with status 1, another failure goes to the next turn. *)
Fixpoint pingLoop (left : nat) (answers : list bool) : Control :=
  match left with
  | O => AtMenu
  | S left' =>
      if hd false answers then AtMenu
      else if left' =? 0 then Exited 1
      else pingLoop left' (tl answers)
  end.

(** [main] up to the call of [mainMenu]. *)
Definition main (b : Boot) : Control :=
  if negb (logOpens b) then Exited 1
  else if negb (sqlOpens b) then Exited 1
  else pingLoop 3 (pings b).

(* ================================================================= *)
(** ** Vocabulary of the statements *)

(** The three parts of the result of a run. *)
Definition outcome {A} (r : Outcome A * Env * list Event) : Outcome A := fst (fst r).
Definition after {A} (r : Outcome A * Env * list Event) : Env := snd (fst r).
Definition trace {A} (r : A * Env * list Event) : list Event := snd r.

(** The statements sent to the database, in order. *)
Definition dbCall (ev : Event) : list (string * list Arg) :=
  match ev with
  | Query sql args | Exec sql args | QueryRow sql args => [(sql, args)]
  | _ => []
  end.

Definition dbCalls (t : list Event) : list (string * list Arg) :=
  flat_map dbCall t.

(** The columns the operator was asked a value for, in order. *)
Definition asked (ev : Event) : list string :=
  match ev with
  | Say (MsgAskValue column) => [column]
  | _ => []
  end.

Definition askedColumns (t : list Event) : list string := flat_map asked t.

(** The number written by the decimal digits at the head of a text. *)
Fixpoint leadingNat (s : string) (acc : nat) : nat :=
  match s with
  | String c r =>
      if GoStr.isDigit c then leadingNat r (10 * acc + GoStr.digitVal c) else acc
  | "" => acc
  end.

Definition startsWithDigit (s : string) : bool :=
  match s with
  | String c _ => GoStr.isDigit c
  | "" => false
  end.

(** The positional placeholders of a statement, left to right: every
    dollar sign followed by a digit, with the number it carries. *)
Fixpoint placeholders (sql : string) : list nat :=
  match sql with
  | "" => []
  | String c r =>
      if Ascii.eqb c "$" && startsWithDigit r
      then leadingNat r 0 :: placeholders r
      else placeholders r
  end.

(** *** Runs and choices *)

(** The control state a machine step ends in. *)
Definition control (r : Control * Env * list Event) : Control := fst (fst r).

(** The environment after one read. *)
Definition advance (e : Env) : Env := mkEnv (tl (stdin e)) (db e).

(** Where one turn of the menu loop leads, by the number typed. *)
Definition menuTarget (choice : option Z) : Control :=
  match choice with
  | Some 0%Z => Exited 0
  | Some 1%Z => InViewTable
  | _ => AtMenu
  end.

(** The result [r] with the events [t] in front of its own. *)
Definition prepend {A} (t : list Event) (r : Outcome A * Env * list Event)
  : Outcome A * Env * list Event :=
  (outcome r, after r, (t ++ trace r)%list).

(** The choice typed at a numbered list of [items]. *)
Definition chosen {A} (items : list A) (input : string) : option A :=
  match selectByNumber input (List.length items) with
  | Some choice =>
      if (choice =? 0)%Z then None else nth_error items (Z.to_nat (choice - 1))
  | None => None
  end.

(** [strconv.Atoi] returns no error. *)
Definition parses (s : string) : Prop := GoStr.Atoi s <> None.

(** A value that passes the two tests of [checkValue]. *)
Definition validValue (isNumeric : string -> bool) (column value : string) : Prop :=
  GoStr.whiteListRegex_MatchString value = true
  /\ (isNumeric column = true -> parses value).

(** A valid filter pair: the column choice and the value typed for it. *)
Definition validFilter (table : TableInfo) (p : string * string) (column : string) : Prop :=
  chosen (Columns table) (fst p) = Some column
  /\ GoStr.whiteListRegex_MatchString (snd p) = true.

(** The lines typed for a list of filter pairs. *)
Definition typedPairs (pairs : list (string * string)) : list string :=
  flat_map (fun p => [fst p; snd p]) pairs.

(** *** Statements *)

(** A text without dollar sign. *)
Fixpoint noDollar (s : string) : bool :=
  match s with
  | "" => true
  | String c r => negb (Ascii.eqb c "$") && noDollar r
  end.

(** A separator that neither holds nor completes a placeholder. *)
Definition plainSep (sep : string) : bool :=
  noDollar sep && negb (startsWithDigit sep) && negb (sep =? "")%string.

(** A table whose names have no dollar sign and that has columns. *)
Definition plainTable (t : TableInfo) : bool :=
  noDollar (Name t) && forallb noDollar (Columns t)
  && match Columns t with [] => false | _ => true end.

(** The conditions of a filter over the columns [cols], numbered from
    [first]. *)
Fixpoint conditionsOf (cols : list string) (first : nat) : list string :=
  match cols with
  | [] => []
  | col :: rest => (col ++ " = $" ++ GoStr.itoa first) :: conditionsOf rest (S first)
  end.

(** [$first], [$first+1], ... : [count] markers. *)
Definition markers (first count : nat) : list string :=
  map (fun n => "$" ++ GoStr.itoa n) (seq first count).

(** The text of an update of [k] rows. *)
Definition updateText (table column : string) (k : nat) : string :=
  match k with
  | 1 => "UPDATE " ++ table ++ " SET " ++ column ++ " = $1 WHERE id = $2"
  | _ => "UPDATE " ++ table ++ " SET " ++ column ++ " = $1 WHERE id IN ("
           ++ String.concat ", " (markers 2 k) ++ ")"
  end.

(** The statements that can be written with the names of the catalog
    alone, each with the number of parameters it takes. *)
Inductive CatalogStmt : string -> nat -> Prop :=
| StmtFilter table cols :
    In table tables -> Forall (fun c => In c (Columns table)) cols ->
    CatalogStmt
      ("SELECT * FROM " ++ Name table ++ " WHERE "
         ++ String.concat " AND " (conditionsOf cols 1) ++ " ORDER BY id")
      (List.length cols)
| StmtUpdateOne table col :
    In table tables -> In col (Columns table) ->
    CatalogStmt
      ("UPDATE " ++ Name table ++ " SET " ++ col ++ " = $1 WHERE id = $2") 2
| StmtUpdateMany table col k :
    In table tables -> In col (Columns table) ->
    CatalogStmt
      ("UPDATE " ++ Name table ++ " SET " ++ col ++ " = $1 WHERE id IN ("
         ++ String.concat ", " (markers 2 k) ++ ")")
      (S k)
| StmtInsert table (returning : bool) :
    In table tables ->
    CatalogStmt
      ("INSERT INTO " ++ Name table ++ " ("
         ++ String.concat ", " (tl (Columns table)) ++ ") VALUES ("
         ++ String.concat ", " (markers 1 (List.length (tl (Columns table))))
         ++ ")" ++ (if returning then " RETURNING id" else ""))
      (List.length (tl (Columns table))).

(** A bound value is a line typed by the operator or an identifier
    returned by the database. *)
Definition FromOperator (e0 : Env) (a : Arg) : Prop :=
  match a with
  | AStr s => In s (stdin e0)
  | AInt id => In (DBId id) (db e0)
  end.

(** A database call sends a catalog statement with as many values as
    it has parameters, all of them from the operator or the database. *)
Definition Parameterized (e0 : Env) (ev : Event) : Prop :=
  match ev with
  | Query sql args | Exec sql args | QueryRow sql args =>
      CatalogStmt sql (List.length args) /\ Forall (FromOperator e0) args
  | _ => True
  end.

(** *** A logic of runs *)

(** The part of the starting environment [e0] still to be consumed. *)
Definition within (e0 e : Env) : Prop :=
  incl (stdin e) (stdin e0) /\ incl (db e) (db e0).

(** From any point of a run that started in [e0], [m] does not panic,
    emits only events that satisfy [P], and falls through only with a
    value that satisfies [Q]. *)
Definition safe (e0 : Env) (P : Event -> Prop) {A} (m : M A) (Q : A -> Prop)
  : Prop :=
  forall e, within e0 e ->
    match m e with
    | (Ret a, e', t) => within e0 e' /\ Q a /\ Forall P t
    | (Return, e', t) => within e0 e' /\ Forall P t
    | (Panic, _, _) => False
    end.

(** *** The related insert, the grid, the numeric rule *)

(** The prompt for the value of a column. *)
Definition askValue (column : string) : Event := Say (MsgAskValue column).

(** The columns of the second table the operator has to type. *)
Definition typedColumns (foreignKey : string) (columns : list string) : list string :=
  filter (fun column => negb (column =? foreignKey)%string) columns.

(** The parameters of the second insert: the identifier at the
    foreign-key column, the typed values, in order, elsewhere. *)
Fixpoint secondArgs (foreignKey : string) (id : Z) (columns values : list string)
  : list Arg :=
  match columns with
  | [] => []
  | column :: rest =>
      if (column =? foreignKey)%string
      then AInt id :: secondArgs foreignKey id rest values
      else
        match values with
        | value :: more => AStr value :: secondArgs foreignKey id rest more
        | [] => []
        end
  end.

(** What the loop over the second table prints for a column. *)
Definition secondEvent (foreignKey : string) (id : Z) (column : string) : Event :=
  if (column =? foreignKey)%string then Say (MsgAutoSet column id) else askValue column.

(** [n] copies of a character. *)
Definition chars (c : ascii) (n : nat) : string := string_of_list_ascii (repeat c n).

(** A text followed by the spaces that bring it to [width] bytes. *)
Definition padTo (text : string) (width : nat) : string :=
  text ++ chars " " (width - String.length text).

(** The rows that [rows.Scan] accepts, as texts. *)
Definition scanned (ncols : nat) (rows : list (list (option string)))
  : list (list string) :=
  map (map cellText) (filter (fun r => List.length r =? ncols) rows).

(** The column names of the numeric rule. *)
Definition numericNames : list string :=
  ["price"; "quantity"; "founded_year"; "category_id"; "manufacturer_id";
   "component_id"].

(** The run stops on the message that [column] must be a number, and
    nothing was sent to the database. *)
Definition rejectedAsNotANumber {A} (r : Outcome A * Env * list Event)
    (column : string) : Prop :=
  outcome r = Return
  /\ dbCalls (trace r) = []
  /\ last (trace r) (Say MsgMenu) = Say (MsgNotANumber column).

(** The first table of one of the configured relations. *)
Definition firstTable (table : TableInfo) : Prop :=
  exists relation name1 name2,
    In relation relatedTables
    /\ GoStr.Split relation relationSep = [name1; name2]
    /\ table = findTable name1.


(** *** Requests that stop, batches, tested texts *)

(** The length of every line of a grid whose columns have the widths
    [columnWidths]: the widths and three bytes between two columns. *)
Definition lineLength (columnWidths : list nat) : nat :=
  list_sum columnWidths + 3 * (List.length columnWidths - 1).

(** The text is written with a plus sign in front. *)
Definition startsWithPlus (s : string) : bool :=
  match s with
  | String c _ => Ascii.eqb c "+"
  | "" => false
  end.

(** The bytes of a text. *)
Definition bytes (s : string) : list nat := map nat_of_ascii (list_ascii_of_string s).

(** Whatever the environment, [m] sends at most [n] statements. *)
Definition sendsAtMost {A} (n : nat) (m : M A) : Prop :=
  forall e, List.length (dbCalls (trace (m e))) <= n.

(** The number of records asked for by the count line an operation
    starts with. *)
Definition requested (e : Env) : nat :=
  match GoStr.Atoi (hd "" (stdin e)) with
  | Some count => Z.to_nat count
  | None => 0
  end.

(** The count line is missing, is not a number, or is below 1. *)
Definition badCount (e : Env) : Prop :=
  forall count, GoStr.Atoi (hd "" (stdin e)) = Some count -> (count < 1)%Z.

(** A result that left the operation without a statement, at the
    environment [e]. *)
Definition stoppedAt {A} (r : Outcome A * Env * list Event) (e : Env) : Prop :=
  outcome r = Return /\ after r = e /\ dbCalls (trace r) = [].

(** The answer is not a count of affected rows: [db.Exec] fails. *)
Definition execFails (answer : DBResult) : Prop :=
  forall n, answer <> DBAffected n.

(** The statement that inserts one record into [table]. *)
Definition insertCall (table : TableInfo) (record : list string) : string * list Arg :=
  (insertQuery (Name table) (tl (Columns table)), map AStr record).

(** The answer carries no identifier: [QueryRow(...).Scan] fails. *)
Definition scanFails (answer : DBResult) : Prop :=
  forall id, answer <> DBId id.

(** The outcome of [filterData] and what it prints once the database
    has answered. *)
Definition filterReport (answer : DBResult) : Outcome unit * list Event :=
  match answer with
  | DBRows columns rows =>
      match scanned (List.length columns) rows with
      | [] => (Return, [Say MsgNoRecords])
      | found =>
          (Ret tt,
           (printGrid columns
              (fst (scanRows (List.length columns) rows (headerWidths columns) []))
              found
            ++ [Say (MsgFound (List.length found))])%list)
      end
  | _ => (Return, [Say MsgFilterFailed])
  end.

(** The statement of [viewTable] for [table]. *)
Definition viewQuery (table : TableInfo) : string :=
  "SELECT * FROM " ++ Name table ++ " ORDER BY id".

(** The answer is a result set: [db.Query] returns no error. *)
Definition isRows (answer : DBResult) : bool :=
  match answer with
  | DBRows _ _ => true
  | _ => false
  end.

(** The column names that the explicit relations look for. *)
Definition keyNames : list string := ["component_id"; "category_id"; "manufacturer_id"].

(** A text that passed the white list or that [strconv.Atoi] reads. *)
Definition checkedText (s : string) : Prop :=
  GoStr.whiteListRegex_MatchString s = true \/ GoStr.Atoi s <> None.

(** A bound value is a tested text or an identifier of the database. *)
Definition checkedArg (a : Arg) : Prop :=
  match a with
  | AStr s => checkedText s
  | AInt _ => True
  end.

(** A database call binds tested texts only. *)
Definition CheckedCall (ev : Event) : Prop :=
  match ev with
  | Query _ args | Exec _ args | QueryRow _ args => Forall checkedArg args
  | _ => True
  end.

(** In every run, [m] emits only events that satisfy [P] and falls
    through only with a value that satisfies [Q]. *)
Definition emitsOnly (P : Event -> Prop) {A} (m : M A) (Q : A -> Prop) : Prop :=
  forall e,
    Forall P (trace (m e))
    /\ forall a, outcome (m e) = Ret a -> Q a.

(** The bytes that no tested text holds: the double quote, the dollar
    and percent signs, the single quote, the parentheses, the asterisk,
    the slash, the semicolon, the equals sign, the backslash and the
    underscore. *)
Definition excludedBytes : list nat := [34; 36; 37; 39; 40; 41; 42; 47; 59; 61; 92; 95].

(** *** Batches of records *)

(** The run stops on the message that [column] must be a number, the
    statements sent before being [calls]. *)
Definition rejectedAfter {A} (r : Outcome A * Env * list Event)
    (column : string) (calls : list (string * list Arg)) : Prop :=
  outcome r = Return
  /\ dbCalls (trace r) = calls
  /\ last (trace r) (Say MsgMenu) = Say (MsgNotANumber column).

(** One record of a related insert as the operator and the database
    see it: the values typed for the two tables, the identifier the
    first insert returns, the rows the second insert reports. *)
Record Related := mkRelated {
  firstValues : list string;
  secondValues : list string;
  insertedId : Z;
  affectedRows : Z
}.

(** The lines typed for a record and the answers of the database. *)
Definition typedRelated (record : Related) : list string :=
  (firstValues record ++ secondValues record)%list.

Definition answersRelated (record : Related) : list DBResult :=
  [DBId (insertedId record); DBAffected (affectedRows record)].

(** The first insert of a record, with RETURNING id. *)
Definition firstCall (table1 : TableInfo) (values1 : list string) : string * list Arg :=
  (insertQuery (Name table1) (tl (Columns table1)) ++ " RETURNING id", map AStr values1).

(** The second insert: the identifier at the foreign-key column. *)
Definition secondCall (table1 table2 : TableInfo) (id : Z) (values2 : list string)
  : string * list Arg :=
  (insertQuery (Name table2) (tl (Columns table2)),
   secondArgs (foreignKeyColumn table1 table2) id (tl (Columns table2)) values2).

(** The two statements of a record. *)
Definition relatedCalls (table1 table2 : TableInfo) (record : Related)
  : list (string * list Arg) :=
  [ firstCall table1 (firstValues record);
    secondCall table1 table2 (insertedId record) (secondValues record) ].

(** The columns the operator is asked for in one record. *)
Definition relatedAsked (table1 table2 : TableInfo) : list string :=
  (tl (Columns table1)
   ++ typedColumns (foreignKeyColumn table1 table2) (tl (Columns table2)))%list.

(** The values of a record pass the tests of the two inserts. *)
Definition validRelated (table1 table2 : TableInfo) (record : Related) : Prop :=
  Forall2 (validValue numericColumnFirst) (tl (Columns table1)) (firstValues record)
  /\ Forall2 (validValue numericColumnSecond)
       (typedColumns (foreignKeyColumn table1 table2) (tl (Columns table2)))
       (secondValues record).

(* ================================================================= *)
(** ** Lemmas on strings and placeholders *)

Lemma append_assoc (a b c : string) : (a ++ b) ++ c = a ++ (b ++ c).
Proof. induction a as [|x a IH]; simpl; [reflexivity | now rewrite IH]. Qed.

Lemma append_nil_r (a : string) : a ++ "" = a.
Proof. induction a as [|x a IH]; simpl; [reflexivity | now rewrite IH]. Qed.

Lemma length_append (a b : string) :
  String.length (a ++ b) = String.length a + String.length b.
Proof. induction a as [|x a IH]; simpl; [reflexivity | now rewrite IH]. Qed.

Lemma substring_all (s : string) : String.substring 0 (String.length s) s = s.
Proof. induction s as [|x s IH]; simpl; [reflexivity | now rewrite IH]. Qed.

Lemma length_Repeat_char (c : ascii) (n : nat) :
  String.length (GoStr.Repeat (String c "") n) = n.
Proof. induction n as [|n IH]; simpl; [reflexivity | now rewrite IH]. Qed.

(** ** Placeholders *)

Lemma noDollar_append (a b : string) :
  noDollar (a ++ b) = noDollar a && noDollar b.
Proof.
  induction a as [|x a IH]; simpl; [reflexivity|].
  now rewrite IH, andb_assoc.
Qed.

Lemma placeholders_skip (a b : string) :
  noDollar a = true -> placeholders (a ++ b) = placeholders b.
Proof.
  induction a as [|x a IH]; simpl; intros H; [reflexivity|].
  apply andb_true_iff in H as [Hx Ha].
  apply negb_true_iff in Hx. rewrite Hx. simpl. auto.
Qed.

Lemma placeholders_plain (a : string) : noDollar a = true -> placeholders a = [].
Proof.
  intros H. rewrite <- (append_nil_r a). now rewrite placeholders_skip.
Qed.

Lemma leadingNat_append (a b : string) (acc : nat) :
  startsWithDigit b = false -> leadingNat (a ++ b) acc = leadingNat a acc.
Proof.
  intros Hb. revert acc.
  induction a as [|x a IH]; simpl; intros acc.
  - destruct b as [|y b]; simpl in *; [reflexivity | now rewrite Hb].
  - destruct (GoStr.isDigit x); auto.
Qed.

Lemma startsWithDigit_append (a b : string) :
  startsWithDigit b = false -> startsWithDigit (a ++ b) = startsWithDigit a.
Proof. destruct a; simpl; auto. Qed.

Lemma placeholders_append (a b : string) :
  startsWithDigit b = false ->
  placeholders (a ++ b) = (placeholders a ++ placeholders b)%list.
Proof.
  intros Hb. induction a as [|x a IH]; simpl; [reflexivity|].
  rewrite startsWithDigit_append, leadingNat_append by assumption.
  destruct (Ascii.eqb x "$" && startsWithDigit a); simpl; now rewrite IH.
Qed.

(** Decimal numerals. *)

Lemma noDollar_uint (d : uint) : noDollar (NilEmpty.string_of_uint d) = true.
Proof. induction d; simpl; auto. Qed.

Lemma leadingNat_uint (d : uint) (acc : nat) :
  leadingNat (NilEmpty.string_of_uint d) acc = Nat.of_uint_acc d acc.
Proof.
  revert acc. induction d; intros acc; simpl; try reflexivity;
    rewrite IHd, Nat.tail_mul_spec; f_equal; unfold GoStr.digitVal; simpl; lia.
Qed.

Lemma to_uint_nonnil (n : nat) : Nat.to_uint n <> Nil.
Proof.
  intros E. pose proof (Unsigned.of_to n) as H. rewrite E in H.
  simpl in H. subst n. discriminate E.
Qed.

Lemma itoa_unfold (n : nat) :
  exists d, d <> Nil /\ Nat.to_uint n = d /\ GoStr.itoa n = NilEmpty.string_of_uint d.
Proof.
  unfold GoStr.itoa. exists (Nat.to_uint n).
  pose proof (to_uint_nonnil n) as H.
  destruct (Nat.to_uint n); simpl; repeat split; auto; congruence.
Qed.

Lemma noDollar_itoa (n : nat) : noDollar (GoStr.itoa n) = true.
Proof. destruct (itoa_unfold n) as (d & _ & _ & ->). apply noDollar_uint. Qed.

Lemma startsWithDigit_itoa (n : nat) : startsWithDigit (GoStr.itoa n) = true.
Proof.
  destruct (itoa_unfold n) as (d & Hd & _ & ->).
  destruct d; simpl; auto; congruence.
Qed.

Lemma leadingNat_itoa (n : nat) : leadingNat (GoStr.itoa n) 0 = n.
Proof.
  destruct (itoa_unfold n) as (d & _ & E & ->).
  rewrite leadingNat_uint. rewrite <- E. apply Unsigned.of_to.
Qed.

Lemma placeholders_marker (n : nat) : placeholders ("$" ++ GoStr.itoa n) = [n].
Proof.
  simpl. rewrite startsWithDigit_itoa, leadingNat_itoa. simpl.
  now rewrite placeholders_plain by apply noDollar_itoa.
Qed.

Lemma Join_cons2 (x y : string) (l : list string) (sep : string) :
  GoStr.Join (x :: y :: l) sep = x ++ sep ++ GoStr.Join (y :: l) sep.
Proof. reflexivity. Qed.

Lemma plainSep_head (sep b : string) :
  plainSep sep = true -> startsWithDigit (sep ++ b) = false.
Proof.
  unfold plainSep. intros H.
  apply andb_true_iff in H as [H H3]. apply andb_true_iff in H as [H1 H2].
  destruct sep; simpl in *; [discriminate|].
  now apply negb_true_iff in H2.
Qed.

Lemma placeholders_Join (l : list string) (sep : string) :
  plainSep sep = true ->
  placeholders (GoStr.Join l sep) = flat_map placeholders l.
Proof.
  intros Hsep. induction l as [|x [|y l] IH].
  - reflexivity.
  - simpl. now rewrite app_nil_r.
  - rewrite Join_cons2.
    rewrite placeholders_append by now apply plainSep_head.
    rewrite placeholders_skip.
    + rewrite IH. reflexivity.
    + unfold plainSep in Hsep. now destruct (noDollar sep).
Qed.

Lemma noDollar_Join (l : list string) (sep : string) :
  noDollar sep = true -> forallb noDollar l = true ->
  noDollar (GoStr.Join l sep) = true.
Proof.
  intros Hsep. induction l as [|x [|y l] IH]; intros H.
  - reflexivity.
  - simpl in *. now rewrite andb_true_r in H.
  - rewrite Join_cons2. rewrite !noDollar_append.
    simpl forallb in H. apply andb_true_iff in H as [Hx H].
    rewrite Hx, Hsep. simpl. apply IH. exact H.
Qed.

Lemma placeholders_From (first count : nat) :
  flat_map placeholders (placeholdersFrom first count) = seq first count.
Proof.
  unfold placeholdersFrom. induction count as [|n IH].
  - reflexivity.
  - rewrite !seq_S, map_app, flat_map_app, IH. simpl.
    rewrite startsWithDigit_itoa, leadingNat_itoa. simpl.
    rewrite placeholders_plain by apply noDollar_itoa.
    now rewrite Nat.add_comm.
Qed.

Lemma head_Join_From (first count : nat) (sep b : string) :
  startsWithDigit b = false ->
  startsWithDigit (GoStr.Join (placeholdersFrom first count) sep ++ b) = false.
Proof.
  intros Hb. destruct count as [|n]; [exact Hb|].
  unfold placeholdersFrom. rewrite <- cons_seq. simpl map.
  destruct (map _ (seq 1 n)); reflexivity.
Qed.

Lemma placeholders_condition (col : string) (n : nat) :
  noDollar col = true -> placeholders (col ++ " = $" ++ GoStr.itoa n) = [n].
Proof.
  intros H. rewrite placeholders_skip by exact H.
  change (" = $" ++ GoStr.itoa n) with (" = " ++ ("$" ++ GoStr.itoa n)).
  rewrite placeholders_skip by reflexivity. apply placeholders_marker.
Qed.

Lemma placeholders_conditions (cols : list string) (first : nat) :
  forallb noDollar cols = true ->
  flat_map placeholders (conditionsOf cols first) = seq first (List.length cols).
Proof.
  revert first. induction cols as [|c cols IH]; intros first H; simpl in *.
  - reflexivity.
  - apply andb_true_iff in H as [Hc H].
    pose proof (placeholders_condition c first Hc) as E. simpl in E.
    rewrite E. simpl. now rewrite IH.
Qed.

Lemma placeholders_filterQuery (table : string) (cols : list string) :
  noDollar table = true -> forallb noDollar cols = true ->
  placeholders (filterQuery table (conditionsOf cols 1)) = seq 1 (List.length cols).
Proof.
  intros Ht Hc. unfold filterQuery.
  rewrite placeholders_skip by reflexivity.
  rewrite placeholders_skip by exact Ht.
  rewrite placeholders_skip by reflexivity.
  rewrite placeholders_append by reflexivity.
  rewrite placeholders_Join by reflexivity.
  rewrite placeholders_conditions by exact Hc.
  simpl. now rewrite app_nil_r.
Qed.

Lemma placeholders_insertQuery (table : string) (cols : list string) :
  noDollar table = true -> forallb noDollar cols = true ->
  placeholders (insertQuery table cols) = seq 1 (List.length cols).
Proof.
  intros Ht Hc. unfold insertQuery.
  rewrite placeholders_skip by reflexivity.
  rewrite placeholders_skip by exact Ht.
  rewrite placeholders_skip by reflexivity.
  rewrite placeholders_skip by (apply noDollar_Join; auto).
  rewrite placeholders_skip by reflexivity.
  rewrite placeholders_append by reflexivity.
  rewrite placeholders_Join by reflexivity.
  rewrite placeholders_From. simpl. now rewrite app_nil_r.
Qed.

Lemma placeholders_insertQuery_returning (table : string) (cols : list string) :
  noDollar table = true -> forallb noDollar cols = true ->
  placeholders (insertQuery table cols ++ " RETURNING id") = seq 1 (List.length cols).
Proof.
  intros Ht Hc. rewrite placeholders_append by reflexivity.
  rewrite placeholders_insertQuery by assumption. simpl. now rewrite app_nil_r.
Qed.

Lemma placeholders_updateQuery (k : Z) (table column : string) (ids : list string) :
  noDollar table = true -> noDollar column = true ->
  (k = 1%Z -> List.length ids = 1) ->
  placeholders (updateQuery k table column ids) = seq 1 (S (List.length ids)).
Proof.
  intros Ht Hc Hk. unfold updateQuery.
  destruct (Z.eqb_spec k 1) as [E|E].
  - rewrite (Hk E).
    rewrite placeholders_skip by reflexivity.
    rewrite placeholders_skip by exact Ht.
    rewrite placeholders_skip by reflexivity.
    rewrite placeholders_skip by exact Hc.
    reflexivity.
  - rewrite placeholders_skip by reflexivity.
    rewrite placeholders_skip by exact Ht.
    rewrite placeholders_skip by reflexivity.
    rewrite placeholders_skip by exact Hc.
    rewrite placeholders_append by (apply head_Join_From; reflexivity).
    rewrite placeholders_append by reflexivity.
    rewrite placeholders_Join by reflexivity.
    rewrite placeholders_From. simpl. now rewrite app_nil_r.
Qed.

(* ================================================================= *)
(** ** Running the operations on given input *)

Lemma bind_Ret {A B} (m : M A) (f : A -> M B) e a e1 t1 o e2 t2 :
  m e = (Ret a, e1, t1) -> f a e1 = (o, e2, t2) ->
  bind m f e = (o, e2, (t1 ++ t2)%list).
Proof. intros H1 H2. unfold bind. now rewrite H1, H2. Qed.

Lemma bind_Return {A B} (m : M A) (f : A -> M B) e e1 t1 :
  m e = (Return, e1, t1) -> bind m f e = (Return, e1, t1).
Proof. intros H1. unfold bind. now rewrite H1. Qed.

Lemma bind_say {B} (msg : Msg) (k : M B) e :
  bind (say msg) (fun _ => k) e =
  (outcome (k e), after (k e), Say msg :: trace (k e)).
Proof.
  unfold bind, say, emit, outcome, after, trace. simpl.
  now destruct (k e) as [[o e2] t2].
Qed.

Lemma dbCalls_app (t1 t2 : list Event) :
  dbCalls (t1 ++ t2) = (dbCalls t1 ++ dbCalls t2)%list.
Proof. apply flat_map_app. Qed.

Lemma askedColumns_app (t1 t2 : list Event) :
  askedColumns (t1 ++ t2) = (askedColumns t1 ++ askedColumns t2)%list.
Proof. apply flat_map_app. Qed.

Lemma dbCalls_printGrid columns widths rows :
  dbCalls (printGrid columns widths rows) = [].
Proof.
  unfold printGrid. simpl. induction rows; simpl; auto.
Qed.

Lemma chosen_inv {A} (items : list A) input x :
  chosen items input = Some x ->
  exists c, selectByNumber input (List.length items) = Some c /\ (1 <= c)%Z
            /\ nth_error items (Z.to_nat (c - 1)) = Some x.
Proof.
  unfold chosen. destruct (selectByNumber input (List.length items)) as [c|] eqn:E;
    [|discriminate].
  destruct (Z.eqb_spec c 0); [discriminate|]. intros H.
  exists c. repeat split; auto.
  unfold selectByNumber in E. destruct (GoStr.Atoi input); [|discriminate].
  destruct ((z <? 0)%Z || (z >? Z.of_nat (List.length items))%Z) eqn:E2; [discriminate|].
  injection E as <-. apply orb_false_iff in E2 as [E2 _]. lia.
Qed.

Lemma index_ok {A} (l : list A) (i : Z) x e :
  (0 <= i)%Z -> nth_error l (Z.to_nat i) = Some x -> index l i e = (Ret x, e, []).
Proof.
  intros Hi H. unfold index. destruct (Z.ltb_spec i 0); [lia|]. now rewrite H.
Qed.

Lemma readCount_ok op input k rest dbs :
  GoStr.Atoi input = Some k -> (1 <= k)%Z ->
  readCount op (mkEnv (input :: rest) dbs) = (Ret k, mkEnv rest dbs, [Say (MsgAskCount op)]).
Proof.
  intros H Hk. unfold readCount. rewrite bind_say. unfold bind. simpl.
  rewrite H. destruct (Z.ltb_spec k 1); [lia|]. reflexivity.
Qed.

Lemma selectTable_ok op input table rest dbs :
  chosen tables input = Some table ->
  exists i, selectTable op (mkEnv (input :: rest) dbs)
            = (Ret i, mkEnv rest dbs, [Say (MsgTableMenu op)])
            /\ (i =? -1)%Z = false /\ index tables i = ret table.
Proof.
  intros H. apply chosen_inv in H as (c & Hc & Hpos & Hn).
  exists (c - 1)%Z. split; [|split].
  - unfold selectTable. rewrite bind_say. unfold bind, readLine. cbn [stdin db].
    rewrite Hc. destruct (Z.eqb_spec c 0); [lia|]. reflexivity.
  - apply Z.eqb_neq. lia.
  - unfold index. destruct (Z.ltb_spec (c - 1) 0); [lia|]. now rewrite Hn.
Qed.

Lemma selectColumn_ok table input column rest dbs :
  chosen (Columns table) input = Some column ->
  exists i, selectColumn table (mkEnv (input :: rest) dbs)
            = (Ret i, mkEnv rest dbs, [Say (MsgColumnMenu (Name table) (Columns table))])
            /\ (i =? -1)%Z = false /\ index (Columns table) i = ret column.
Proof.
  intros H. apply chosen_inv in H as (c & Hc & Hpos & Hn).
  exists (c - 1)%Z. split; [|split].
  - unfold selectColumn. rewrite bind_say. unfold bind, readLine. cbn [stdin db].
    rewrite Hc. destruct (Z.eqb_spec c 0); [lia|]. reflexivity.
  - apply Z.eqb_neq. lia.
  - unfold index. destruct (Z.ltb_spec (c - 1) 0); [lia|]. now rewrite Hn.
Qed.

Lemma conditionsOf_snoc cols c first :
  conditionsOf (cols ++ [c]) first
  = (conditionsOf cols first
     ++ [(c ++ " = $" ++ GoStr.itoa (first + List.length cols))%string])%list.
Proof.
  revert first. induction cols as [|x cols IH]; intros first; simpl.
  - now rewrite Nat.add_0_r.
  - rewrite IH. now rewrite Nat.add_succ_r.
Qed.

Lemma filterLoop_ok table filterCount pairs cols :
  Forall2 (validFilter table) pairs cols ->
  forall i conditions values rest dbs,
  exists t,
    filterLoop table filterCount (List.length pairs) i conditions values
      (mkEnv (typedPairs pairs ++ rest) dbs)
    = (Ret ((conditions ++ conditionsOf cols (i + 1))%list,
            (values ++ map (fun p => AStr (snd p)) pairs)%list),
       mkEnv rest dbs, t)
    /\ dbCalls t = [].
Proof.
  induction 1 as [|p col pairs cols [Hc Hw] HF IH]; intros i conditions values rest dbs.
  - exists []. simpl. now rewrite !app_nil_r.
  - destruct p as [cin v]. simpl in Hc, Hw.
    destruct (selectColumn_ok table cin col (v :: typedPairs pairs ++ rest) dbs Hc)
      as (ci & Hsel & Hne & Hidx).
    destruct (IH (S i) (conditions ++ [(col ++ " = $" ++ GoStr.itoa (i + 1))%string])%list
                (values ++ [AStr v])%list rest dbs) as (t & Ht & Hdb).
    eexists. split.
    + simpl filterLoop. rewrite bind_say. simpl typedPairs.
      simpl app.
      erewrite bind_Ret; [| exact Hsel |].
      2:{ rewrite Hne. rewrite Hidx. unfold ret at 1.
          erewrite bind_Ret; [| reflexivity |].
          2:{ rewrite bind_say. erewrite bind_Ret; [| reflexivity |].
              2:{ rewrite Hw. simpl negb. cbv iota. exact Ht. }
              reflexivity. }
          reflexivity. }
      unfold outcome, after, trace. simpl.
      rewrite <- !app_assoc. simpl.
      replace (S i + 1) with (S (i + 1)) by lia. reflexivity.
    + simpl. exact Hdb.
Qed.

(* ================================================================= *)
(** ** A program logic for properties of every run *)

Section Safety.

Variable e0 : Env.
Variable P : Event -> Prop.

Lemma safe_ret {A} (a : A) (Q : A -> Prop) : Q a -> safe e0 P (ret a) Q.
Proof. intros H e He. simpl. auto. Qed.

Lemma safe_goReturn {A} (Q : A -> Prop) : safe e0 P goReturn Q.
Proof. intros e He. simpl. auto. Qed.

Lemma safe_bind {A B} (m : M A) (f : A -> M B) (Q1 : A -> Prop) (Q2 : B -> Prop) :
  safe e0 P m Q1 -> (forall a, Q1 a -> safe e0 P (f a) Q2) -> safe e0 P (bind m f) Q2.
Proof.
  intros Hm Hf e He. unfold bind. specialize (Hm e He).
  destruct (m e) as [[[a| |] e1] t1]; auto.
  destruct Hm as (He1 & Ha & Ht1).
  specialize (Hf a Ha e1 He1).
  destruct (f a e1) as [[[b| |] e2] t2]; auto.
  - destruct Hf as (He2 & Hb & Ht2).
    split; [|split]; auto. apply Forall_app; auto.
  - destruct Hf as (He2 & Ht2). split; auto. apply Forall_app; auto.
Qed.

Lemma safe_weaken {A} (m : M A) (Q1 Q2 : A -> Prop) :
  safe e0 P m Q1 -> (forall a, Q1 a -> Q2 a) -> safe e0 P m Q2.
Proof.
  intros Hm HQ e He. specialize (Hm e He).
  destruct (m e) as [[[a| |] e1] t1]; auto.
  destruct Hm as (? & ? & ?); auto.
Qed.

Lemma safe_emit (ev : Event) (Q : unit -> Prop) : P ev -> Q tt -> safe e0 P (emit ev) Q.
Proof. intros H HQ e He. simpl. auto. Qed.

Lemma safe_emitAll (evs : list Event) (Q : unit -> Prop) :
  Forall P evs -> Q tt -> safe e0 P (emitAll evs) Q.
Proof. intros H HQ e He. simpl. auto. Qed.

Lemma safe_call (m : M unit) (Q : unit -> Prop) :
  safe e0 P m (fun _ => True) -> Q tt -> safe e0 P (call m) Q.
Proof.
  intros Hm HQ e He. unfold call. specialize (Hm e He).
  destruct (m e) as [[[[]| |] e1] t1]; auto.
  - destruct Hm as (? & ? & ?); auto.
  - destruct Hm as (? & ?); auto.
Qed.

(** A line read from the input is empty (end of input) or one of the
    lines of [e0]. *)
Lemma safe_readLine (Q : string -> Prop) :
  (forall s, s = "" \/ In s (stdin e0) -> Q s) -> safe e0 P readLine Q.
Proof.
  intros HQ e [Hin Hdb]. unfold readLine.
  destruct (stdin e) as [|l rest] eqn:E.
  - split; [split; auto; now rewrite E|]. auto.
  - split; [split; simpl; auto|].
    + intros x Hx. apply Hin. now right.
    + split; auto. apply HQ. right. apply Hin. now left.
Qed.

Lemma within_next (e : Env) :
  within e0 e ->
  within e0 (snd (nextAnswer e))
  /\ (fst (nextAnswer e) = DBError \/ In (fst (nextAnswer e)) (db e0)).
Proof.
  intros [Hin Hdb]. unfold nextAnswer. destruct (db e) as [|r rest] eqn:E; simpl.
  - split; [split; auto; now rewrite E | now left].
  - split; [split; simpl; auto|].
    + intros x Hx. apply Hdb. now right.
    + right. apply Hdb. now left.
Qed.

Lemma safe_dbQuery sql args
    (Q : option (list string * list (list (option string))) -> Prop) :
  P (Query sql args) -> (forall r, Q r) -> safe e0 P (dbQuery sql args) Q.
Proof.
  intros HP HQ e He. unfold dbQuery.
  destruct (within_next e He) as [Hw _].
  destruct (nextAnswer e) as [[] e1]; simpl in *; auto.
Qed.

Lemma safe_dbExec sql args (Q : option Z -> Prop) :
  P (Exec sql args) -> (forall r, Q r) -> safe e0 P (dbExec sql args) Q.
Proof.
  intros HP HQ e He. unfold dbExec.
  destruct (within_next e He) as [Hw _].
  destruct (nextAnswer e) as [[] e1]; simpl in *; auto.
Qed.

(** The identifier read back is one the database of [e0] returns. *)
Lemma safe_dbQueryRow sql args (Q : option Z -> Prop) :
  P (QueryRow sql args) ->
  Q None -> (forall id, In (DBId id) (db e0) -> Q (Some id)) ->
  safe e0 P (dbQueryRow sql args) Q.
Proof.
  intros HP HN HQ e He. unfold dbQueryRow.
  destruct (within_next e He) as [Hw Hr].
  destruct (nextAnswer e) as [[] e1]; simpl in *; auto.
  split; [|split]; auto. apply HQ. destruct Hr as [Hr|Hr]; [discriminate|exact Hr].
Qed.

Lemma safe_index {A} (l : list A) (i : Z) (Q : A -> Prop) :
  (0 <= i < len l)%Z -> (forall x, In x l -> Q x) -> safe e0 P (index l i) Q.
Proof.
  intros Hi HQ e He. unfold index, len in *.
  destruct (Z.ltb_spec i 0); [lia|].
  destruct (nth_error l (Z.to_nat i)) as [x|] eqn:E.
  - simpl. split; [|split]; auto. apply HQ. eapply nth_error_In; eauto.
  - apply nth_error_None in E. lia.
Qed.

Lemma safe_sliceFrom1 {A} (l : list A) (Q : list A -> Prop) :
  l <> [] -> Q (tl l) -> safe e0 P (sliceFrom1 l) Q.
Proof.
  intros Hl HQ e He. destruct l; [congruence|]. simpl. auto.
Qed.

End Safety.

(* ================================================================= *)
(** ** Catalog statements *)

Lemma placeholdersFrom_markers (first count : nat) :
  placeholdersFrom first count = markers first count.
Proof.
  unfold placeholdersFrom, markers. induction count as [|n IH]; [reflexivity|].
  rewrite !seq_S, !map_app, IH. simpl. now rewrite Nat.add_comm.
Qed.

Lemma catalog_plain : forallb plainTable tables = true.
Proof. reflexivity. Qed.

Lemma table_plain (t : TableInfo) :
  In t tables ->
  noDollar (Name t) = true /\ forallb noDollar (Columns t) = true /\ Columns t <> [].
Proof.
  intros H. pose proof catalog_plain as C.
  rewrite forallb_forall in C. specialize (C t H). unfold plainTable in C.
  apply andb_true_iff in C as [C C3]. apply andb_true_iff in C as [C1 C2].
  repeat split; auto. destruct (Columns t); [discriminate|congruence].
Qed.

Lemma column_plain (t : TableInfo) (c : string) :
  In t tables -> In c (Columns t) -> noDollar c = true.
Proof.
  intros Ht Hc. destruct (table_plain t Ht) as (_ & H & _).
  rewrite forallb_forall in H. auto.
Qed.

Lemma columns_plain (t : TableInfo) (cols : list string) :
  In t tables -> Forall (fun c => In c (Columns t)) cols -> forallb noDollar cols = true.
Proof.
  intros Ht H. apply forallb_forall. intros c Hc.
  rewrite Forall_forall in H. eapply column_plain; eauto.
Qed.

Lemma forallb_tl {A} (f : A -> bool) (l : list A) :
  forallb f l = true -> forallb f (tl l) = true.
Proof. destruct l; simpl; auto. intros H. now apply andb_true_iff in H. Qed.

(** A catalog statement has exactly the placeholders [$1] to [$n], in
    this order, for its [n] parameters. *)
Lemma CatalogStmt_placeholders sql n :
  CatalogStmt sql n -> placeholders sql = seq 1 n.
Proof.
  intros [table cols Ht Hc | table col Ht Hc | table col k Ht Hc | table r Ht].
  - apply (placeholders_filterQuery (Name table) cols).
    + now apply table_plain.
    + eapply columns_plain; eauto.
  - apply (placeholders_updateQuery 1 (Name table) col [""]); auto.
    + now apply table_plain.
    + eapply column_plain; eauto.
  - pose proof (placeholders_updateQuery 2 (Name table) col (repeat "" k)) as H.
    unfold updateQuery in H. simpl Z.eqb in H. cbv iota in H.
    rewrite repeat_length, placeholdersFrom_markers in H.
    apply H; [now apply table_plain | eapply column_plain; eauto | discriminate].
  - destruct (table_plain table Ht) as (H1 & H2 & _). apply forallb_tl in H2.
    pose proof (placeholders_insertQuery (Name table) (tl (Columns table)) H1 H2) as HI.
    pose proof (placeholders_insertQuery_returning (Name table) (tl (Columns table))
                  H1 H2) as HR.
    unfold insertQuery in HI, HR. rewrite placeholdersFrom_markers in HI, HR.
    unfold GoStr.Join in HI, HR.
    destruct r.
    + rewrite <- HR. f_equal. now rewrite !append_assoc.
    + rewrite append_nil_r. exact HI.
Qed.

(* ================================================================= *)
(** ** Every run of the four operations is safe *)

Section Operations.

Variable e0 : Env.

Lemma safe_say (msg : Msg) (Q : unit -> Prop) :
  Q tt -> safe e0 (Parameterized e0) (say msg) Q.
Proof. intros H. apply safe_emit; [exact I | exact H]. Qed.

Lemma safe_say_then {A} (msg : Msg) (k : M A) (Q : A -> Prop) :
  safe e0 (Parameterized e0) k Q -> safe e0 (Parameterized e0) (say msg ;;; k) Q.
Proof.
  intros H. eapply safe_bind; [apply safe_say with (Q := fun _ => True); exact I|].
  intros _ _. exact H.
Qed.

Lemma safe_say_return {A} (msg : Msg) (Q : A -> Prop) :
  safe e0 (Parameterized e0) (say msg ;;; goReturn) Q.
Proof. apply safe_say_then, safe_goReturn. Qed.

Lemma safe_readCount (op : Operation) :
  safe e0 (Parameterized e0) (readCount op) (fun k => (1 <= k)%Z).
Proof.
  unfold readCount. apply safe_say_then.
  eapply safe_bind; [apply safe_readLine with (Q := fun _ => True); auto|].
  intros input _. destruct (GoStr.Atoi input) as [k|]; [|apply safe_say_return].
  destruct (Z.ltb_spec k 1); [apply safe_say_return|]. now apply safe_ret.
Qed.

Lemma selectByNumber_range input n c :
  selectByNumber input n = Some c -> (0 <= c <= Z.of_nat n)%Z.
Proof.
  unfold selectByNumber. destruct (GoStr.Atoi input) as [z|]; [|discriminate].
  destruct ((z <? 0)%Z || (z >? Z.of_nat n)%Z) eqn:E; [discriminate|].
  intros [= <-]. apply orb_false_iff in E as [E1 E2]. lia.
Qed.

Lemma safe_selectTable (op : Operation) :
  safe e0 (Parameterized e0) (selectTable op)
    (fun i => i = (-1)%Z \/ (0 <= i < len tables)%Z).
Proof.
  unfold selectTable. apply safe_say_then.
  eapply safe_bind; [apply safe_readLine with (Q := fun _ => True); auto|].
  intros input _.
  destruct (selectByNumber input (List.length tables)) as [c|] eqn:E.
  - apply selectByNumber_range in E.
    destruct (Z.eqb_spec c 0); apply safe_ret; [now left|]. right. unfold len. lia.
  - apply safe_say_then, safe_ret. now left.
Qed.

Lemma safe_selectColumn (table : TableInfo) :
  safe e0 (Parameterized e0) (selectColumn table)
    (fun i => i = (-1)%Z \/ (0 <= i < len (Columns table))%Z).
Proof.
  unfold selectColumn. apply safe_say_then.
  eapply safe_bind; [apply safe_readLine with (Q := fun _ => True); auto|].
  intros input _.
  destruct (selectByNumber input (List.length (Columns table))) as [c|] eqn:E.
  - apply selectByNumber_range in E.
    destruct (Z.eqb_spec c 0); apply safe_ret; [now left|]. right. unfold len. lia.
  - apply safe_say_then, safe_ret. now left.
Qed.

Lemma safe_grid columns widths rows (Q : unit -> Prop) :
  Q tt -> safe e0 (Parameterized e0) (emitAll (printGrid columns widths rows)) Q.
Proof.
  intros H. apply safe_emitAll; [|exact H].
  unfold printGrid. repeat constructor.
  apply Forall_forall. intros ev Hev. apply in_map_iff in Hev as (r & <- & _). exact I.
Qed.

(** *** filterData *)

Lemma conditionsOf_snoc1 cols c :
  (conditionsOf cols 1 ++ [(c ++ " = $" ++ GoStr.itoa (List.length cols + 1))%string])%list
  = conditionsOf (cols ++ [c]) 1.
Proof.
  rewrite conditionsOf_snoc.
  now replace (1 + List.length cols) with (List.length cols + 1) by lia.
Qed.

Lemma safe_filterLoop (table : TableInfo) (filterCount : Z) :
  In table tables ->
  forall n cols values,
    Forall (fun c => In c (Columns table)) cols ->
    List.length values = List.length cols ->
    Forall (FromOperator e0) values ->
    safe e0 (Parameterized e0)
      (filterLoop table filterCount n (List.length cols) (conditionsOf cols 1) values)
      (fun cv => exists cols',
         fst cv = conditionsOf cols' 1
         /\ Forall (fun c => In c (Columns table)) cols'
         /\ List.length (snd cv) = List.length cols'
         /\ Forall (FromOperator e0) (snd cv)).
Proof.
  intros Ht. induction n as [|n IH]; intros cols values Hc Hl Hv; simpl.
  - apply safe_ret. exists cols. auto.
  - apply safe_say_then.
    eapply safe_bind; [apply safe_selectColumn|].
    intros ci Hci. destruct (Z.eqb_spec ci (-1)); [apply safe_goReturn|].
    destruct Hci as [Hci|Hci]; [contradiction|].
    eapply safe_bind; [apply safe_index with (Q := fun c => In c (Columns table)); auto|].
    intros column Hcol. apply safe_say_then.
    eapply safe_bind;
      [apply safe_readLine with (Q := fun s => s = "" \/ In s (stdin e0)); auto|].
    intros value Hval.
    destruct (GoStr.whiteListRegex_MatchString value) eqn:Hw; simpl;
      [|apply safe_say_return].
    destruct Hval as [-> | Hval]; [discriminate|].
    rewrite conditionsOf_snoc1.
    replace (S (List.length cols)) with (List.length (cols ++ [column]))
      by (rewrite length_app; simpl; lia).
    apply IH.
    + apply Forall_app; split; [exact Hc | now repeat constructor].
    + rewrite !length_app. simpl. lia.
    + apply Forall_app; split; [exact Hv | now repeat constructor].
Qed.

Lemma safe_filterData : safe e0 (Parameterized e0) filterData (fun _ => True).
Proof.
  unfold filterData.
  eapply safe_bind; [apply safe_readCount|]. intros filterCount Hk.
  eapply safe_bind; [apply safe_selectTable|]. intros ti Hti.
  destruct (Z.eqb_spec ti (-1)); [apply safe_goReturn|].
  destruct Hti as [Hti|Hti]; [contradiction|].
  eapply safe_bind; [apply safe_index with (Q := fun t => In t tables); auto|].
  intros table Ht.
  eapply safe_bind; [apply (safe_filterLoop table filterCount Ht _ [] []); auto|].
  intros [conditions values] (cols & Hc & Hcols & Hlen & Hvals). simpl in *. subst conditions.
  eapply safe_bind.
  - apply safe_dbQuery with (Q := fun _ => True); auto.
    split; [|exact Hvals]. rewrite Hlen. now apply StmtFilter.
  - intros [[columns rows]|] _; [|apply safe_say_return].
    destruct (scanRows _ _ _ _) as [widths allRows].
    destruct allRows; [apply safe_say_return|].
    eapply safe_bind; [apply safe_grid with (Q := fun _ => True); auto|].
    intros _ _. now apply safe_say.
Qed.


(** *** updateData *)

Lemma Atoi_nonempty s k : GoStr.Atoi s = Some k -> s <> "".
Proof. intros H ->. discriminate H. Qed.

Lemma safe_readIds :
  forall n i ids,
    Forall (fun s => In s (stdin e0)) ids ->
    safe e0 (Parameterized e0) (readIds n i ids)
      (fun r => List.length r = List.length ids + n
                /\ Forall (fun s => In s (stdin e0)) r).
Proof.
  induction n as [|n IH]; intros i ids Hids; simpl.
  - apply safe_ret. split; [lia | exact Hids].
  - apply safe_say_then.
    eapply safe_bind;
      [apply safe_readLine with (Q := fun s => s = "" \/ In s (stdin e0)); auto|].
    intros idInput Hin.
    destruct (GoStr.Atoi idInput) as [k|] eqn:E; [|apply safe_say_return].
    destruct Hin as [-> | Hin]; [discriminate|].
    eapply safe_weaken; [apply (IH (S i) (ids ++ [idInput])%list)|].
    + apply Forall_app; split; [exact Hids | now repeat constructor].
    + intros r [Hl Hr]. split; [|exact Hr]. rewrite length_app in Hl. simpl in Hl. lia.
Qed.

Lemma safe_checkValue isNumeric column value :
  safe e0 (Parameterized e0) (checkValue isNumeric column value)
    (fun _ => GoStr.whiteListRegex_MatchString value = true).
Proof.
  unfold checkValue.
  destruct (GoStr.whiteListRegex_MatchString value); simpl; [|apply safe_say_return].
  destruct (isNumeric column); [|now apply safe_ret].
  destruct (GoStr.Atoi value); [now apply safe_ret | apply safe_say_return].
Qed.

Lemma whiteList_nonempty s : GoStr.whiteListRegex_MatchString s = true -> s <> "".
Proof. intros H ->. discriminate H. Qed.

Lemma safe_updateArgs updateCount newValue ids :
  (1 <= updateCount)%Z -> List.length ids = Z.to_nat updateCount ->
  In newValue (stdin e0) -> Forall (fun s => In s (stdin e0)) ids ->
  safe e0 (Parameterized e0) (updateArgs updateCount newValue ids)
    (fun args => List.length args = S (List.length ids)
                 /\ Forall (FromOperator e0) args).
Proof.
  intros Hk Hl Hv Hids. unfold updateArgs.
  destruct (Z.eqb_spec updateCount 1) as [->|Hne].
  - eapply safe_bind.
    + apply safe_index with (Q := fun s => In s (stdin e0)).
      * unfold len. rewrite Hl. simpl. lia.
      * rewrite Forall_forall in Hids. exact Hids.
    + intros id0 Hid. apply safe_ret. rewrite Hl. split; [reflexivity|].
      repeat constructor; assumption.
  - apply safe_ret. simpl. rewrite length_map. split; [reflexivity|].
    constructor; [exact Hv|]. apply Forall_map. exact Hids.
Qed.

Lemma updateQuery_catalog updateCount table column ids :
  In table tables -> In column (Columns table) ->
  (updateCount = 1%Z -> List.length ids = 1) ->
  CatalogStmt (updateQuery updateCount (Name table) column ids) (S (List.length ids)).
Proof.
  intros Ht Hc Hk. unfold updateQuery.
  destruct (Z.eqb_spec updateCount 1) as [E|E].
  - rewrite (Hk E). now apply StmtUpdateOne.
  - rewrite placeholdersFrom_markers. now apply StmtUpdateMany.
Qed.

Lemma safe_updateData : safe e0 (Parameterized e0) updateData (fun _ => True).
Proof.
  unfold updateData.
  eapply safe_bind; [apply safe_readCount|]. intros updateCount Hk.
  eapply safe_bind; [apply safe_selectTable|]. intros ti Hti.
  destruct (Z.eqb_spec ti (-1)); [apply safe_goReturn|].
  destruct Hti as [Hti|Hti]; [contradiction|].
  eapply safe_bind; [apply safe_index with (Q := fun t => In t tables); auto|].
  intros table Ht. cbv zeta.
  destruct (updatableColumns table) as [|u0 us] eqn:Eu; [apply safe_say_return|].
  rewrite <- Eu.
  eapply safe_bind; [apply (safe_readIds (Z.to_nat updateCount) 0 []); constructor|].
  intros ids [Hlen Hids]. simpl in Hlen.
  apply safe_say_then.
  eapply safe_bind; [apply safe_readLine with (Q := fun _ => True); auto|].
  intros columnInput _.
  destruct (selectByNumber columnInput _) as [c|] eqn:Ec; [|apply safe_say_return].
  apply selectByNumber_range in Ec.
  destruct (Z.eqb_spec c 0); [apply safe_goReturn|].
  eapply safe_bind.
  { apply safe_index with (Q := fun col => In col (Columns table)).
    - unfold len. lia.
    - intros col Hcol. unfold updatableColumns in Hcol.
      apply filter_In in Hcol. tauto. }
  intros columnName Hcol. apply safe_say_then.
  eapply safe_bind;
    [apply safe_readLine with (Q := fun s => s = "" \/ In s (stdin e0)); auto|].
  intros newValue Hnew.
  eapply safe_bind; [apply safe_checkValue|]. intros ? Hw; simpl in Hw.
  destruct Hnew as [E | Hnew]; [rewrite E in Hw; discriminate|].
  eapply safe_bind; [apply safe_updateArgs; eauto|].
  intros args [Hargs Hfrom].
  eapply safe_bind.
  - apply safe_dbExec with (Q := fun _ => True); auto.
    split; [|exact Hfrom]. rewrite Hargs.
    apply updateQuery_catalog; auto. intros ->. rewrite Hlen. reflexivity.
  - intros [rowsAffected|] _; [now apply safe_say | apply safe_say_return].
Qed.

(** *** insertData *)

Lemma safe_readValues isNumeric :
  forall columns values,
    Forall (FromOperator e0) values ->
    safe e0 (Parameterized e0) (readValues isNumeric columns values)
      (fun r => List.length r = List.length values + List.length columns
                /\ Forall (FromOperator e0) r).
Proof.
  induction columns as [|column rest IH]; intros values Hv; simpl.
  - apply safe_ret. split; [lia | exact Hv].
  - apply safe_say_then.
    eapply safe_bind;
      [apply safe_readLine with (Q := fun s => s = "" \/ In s (stdin e0)); auto|].
    intros value Hval.
    eapply safe_bind; [apply safe_checkValue|]. intros ? Hw; simpl in Hw.
    destruct Hval as [E | Hval]; [rewrite E in Hw; discriminate|].
    eapply safe_weaken; [apply (IH (values ++ [AStr value])%list)|].
    + apply Forall_app; split; [exact Hv | now repeat constructor].
    + intros r [Hl Hr]. split; [|exact Hr]. rewrite length_app in Hl. simpl in Hl. lia.
Qed.

Lemma insertQuery_catalog table (returning : bool) :
  In table tables ->
  CatalogStmt
    (insertQuery (Name table) (tl (Columns table))
       ++ (if returning then " RETURNING id" else ""))
    (List.length (tl (Columns table))).
Proof.
  intros Ht. pose proof (StmtInsert table returning Ht) as H.
  unfold insertQuery, GoStr.Join. rewrite placeholdersFrom_markers.
  rewrite !append_assoc. exact H.
Qed.

Lemma safe_insertRecord table recordCount i :
  In table tables ->
  safe e0 (Parameterized e0)
    (insertRecord table (tl (Columns table)) recordCount i) (fun _ => True).
Proof.
  intros Ht. unfold insertRecord. apply safe_say_then.
  eapply safe_bind; [apply safe_readValues; constructor|].
  intros values [Hl Hv]. simpl in Hl.
  eapply safe_bind.
  - apply safe_dbExec with (Q := fun _ => True); auto.
    split; [|exact Hv]. rewrite Hl.
    rewrite <- (append_nil_r (insertQuery _ _)).
    now apply (insertQuery_catalog table false).
  - intros [n|] _; [now apply safe_say | apply safe_say_return].
Qed.

Lemma safe_insertLoop table recordCount :
  In table tables ->
  forall n i,
    safe e0 (Parameterized e0)
      (insertLoop table (tl (Columns table)) recordCount n i) (fun _ => True).
Proof.
  intros Ht. induction n as [|n IH]; intros i; simpl.
  - now apply safe_ret.
  - eapply safe_bind; [now apply safe_insertRecord|]. intros _ _. apply IH.
Qed.

Lemma safe_insertData : safe e0 (Parameterized e0) insertData (fun _ => True).
Proof.
  unfold insertData.
  eapply safe_bind; [apply safe_readCount|]. intros recordCount Hk.
  eapply safe_bind; [apply safe_selectTable|]. intros ti Hti.
  destruct (Z.eqb_spec ti (-1)); [apply safe_goReturn|].
  destruct Hti as [Hti|Hti]; [contradiction|].
  eapply safe_bind; [apply safe_index with (Q := fun t => In t tables); auto|].
  intros table Ht.
  eapply safe_bind.
  - apply safe_sliceFrom1 with (Q := fun l => l = tl (Columns table)); auto.
    now apply table_plain.
  - intros insertColumns ->.
    eapply safe_bind; [now apply safe_insertLoop|].
    intros _ _. now apply safe_say.
Qed.

(** *** insertRelatedData *)

Lemma safe_readValuesSecond foreignKey insertedID :
  In (DBId insertedID) (db e0) ->
  forall columns values,
    Forall (FromOperator e0) values ->
    safe e0 (Parameterized e0) (readValuesSecond foreignKey insertedID columns values)
      (fun r => List.length r = List.length values + List.length columns
                /\ Forall (FromOperator e0) r).
Proof.
  intros Hid. induction columns as [|column rest IH]; intros values Hv; simpl.
  - apply safe_ret. split; [lia | exact Hv].
  - destruct (column =? foreignKey)%string.
    + apply safe_say_then.
      eapply safe_weaken; [apply (IH (values ++ [AInt insertedID])%list)|].
      * apply Forall_app; split; [exact Hv | now repeat constructor].
      * intros r [Hl Hr]. split; [|exact Hr]. rewrite length_app in Hl. simpl in Hl. lia.
    + apply safe_say_then.
      eapply safe_bind;
        [apply safe_readLine with (Q := fun s => s = "" \/ In s (stdin e0)); auto|].
      intros value Hval.
      eapply safe_bind; [apply safe_checkValue|]. intros ? Hw; simpl in Hw.
      destruct Hval as [E | Hval]; [rewrite E in Hw; discriminate|].
      eapply safe_weaken; [apply (IH (values ++ [AStr value])%list)|].
      * apply Forall_app; split; [exact Hv | now repeat constructor].
      * intros r [Hl Hr]. split; [|exact Hr]. rewrite length_app in Hl. simpl in Hl. lia.
Qed.

Lemma safe_relatedRecord table1 table2 recordCount i :
  In table1 tables -> In table2 tables ->
  safe e0 (Parameterized e0) (relatedRecord table1 table2 recordCount i) (fun _ => True).
Proof.
  intros H1 H2. unfold relatedRecord. do 2 apply safe_say_then.
  eapply safe_bind.
  { apply safe_sliceFrom1 with (Q := fun l => l = tl (Columns table1)); auto.
    now apply table_plain. }
  intros insertColumns1 ->.
  eapply safe_bind; [apply safe_readValues; constructor|].
  intros values1 [Hl1 Hv1]. simpl in Hl1.
  eapply safe_bind.
  { apply safe_dbQueryRow with (Q := fun r => forall id, r = Some id -> In (DBId id) (db e0)).
    - split; [|exact Hv1]. rewrite Hl1. now apply (insertQuery_catalog table1 true).
    - discriminate.
    - now intros id Hid ? [= <-]. }
  intros [insertedID|] Hid; [|apply safe_say_return].
  specialize (Hid insertedID eq_refl).
  do 2 apply safe_say_then. cbv zeta. apply safe_say_then.
  eapply safe_bind.
  { apply safe_sliceFrom1 with (Q := fun l => l = tl (Columns table2)); auto.
    now apply table_plain. }
  intros insertColumns2 ->.
  eapply safe_bind; [apply safe_readValuesSecond; [exact Hid | constructor]|].
  intros values2 [Hl2 Hv2]. simpl in Hl2.
  eapply safe_bind.
  - apply safe_dbExec with (Q := fun _ => True); auto.
    split; [|exact Hv2]. rewrite Hl2.
    rewrite <- (append_nil_r (insertQuery _ _)).
    now apply (insertQuery_catalog table2 false).
  - intros [n|] _; [now apply safe_say | apply safe_say_return].
Qed.

Lemma safe_relatedLoop table1 table2 recordCount :
  In table1 tables -> In table2 tables ->
  forall n i,
    safe e0 (Parameterized e0)
      (relatedLoop table1 table2 recordCount n i) (fun _ => True).
Proof.
  intros H1 H2. induction n as [|n IH]; intros i; simpl.
  - now apply safe_ret.
  - eapply safe_bind; [now apply safe_relatedRecord|]. intros _ _. apply IH.
Qed.

Lemma safe_insertRelatedData :
  safe e0 (Parameterized e0) insertRelatedData (fun _ => True).
Proof.
  unfold insertRelatedData.
  eapply safe_bind; [apply safe_readCount|]. intros recordCount Hk.
  apply safe_say_then.
  eapply safe_bind; [apply safe_readLine with (Q := fun _ => True); auto|].
  intros choiceInput _.
  destruct (selectByNumber choiceInput _) as [c|] eqn:Ec; [|apply safe_say_return].
  apply selectByNumber_range in Ec.
  destruct (Z.eqb_spec c 0); [apply safe_goReturn|].
  eapply safe_bind.
  { apply safe_index with (Q := fun r => In r relatedTables); auto. unfold len. lia. }
  intros relation Hr.
  assert (Hsplit : exists n1 n2,
             GoStr.Split relation relationSep = [n1; n2]
             /\ In (findTable n1) tables /\ In (findTable n2) tables).
  { simpl in Hr. destruct Hr as [<-|[<-|[<-|[]]]].
    - exists "components", "stock". vm_compute. tauto.
    - exists "categories", "components". vm_compute. tauto.
    - exists "manufacturers", "components". vm_compute. tauto. }
  destruct Hsplit as (n1 & n2 & -> & H1 & H2).
  eapply safe_bind; [now apply safe_relatedLoop|].
  intros _ _. now apply safe_say.
Qed.

End Operations.

(* ================================================================= *)
(** ** Parameterized statements; the menu step *)

Lemma within_refl (e : Env) : within e e.
Proof. split; apply incl_refl. Qed.

Lemma safe_trace {A} e P (m : M A) Q :
  safe e P m Q -> Forall P (trace (m e)) /\ outcome (m e) <> Panic.
Proof.
  intros H. specialize (H e (within_refl e)). unfold trace, outcome.
  destruct (m e) as [[[a| |] e1] t]; simpl; [| |contradiction].
  - split; [tauto | discriminate].
  - split; [tauto | discriminate].
Qed.

Lemma in_dbCalls sql args t :
  In (sql, args) (dbCalls t) ->
  In (Query sql args) t \/ In (Exec sql args) t \/ In (QueryRow sql args) t.
Proof.
  unfold dbCalls. rewrite in_flat_map. intros (ev & Hev & Hin).
  destruct ev; simpl in Hin; try contradiction;
    destruct Hin as [[= <- <-]|[]]; auto.
Qed.

(** C1.  In every run of filterData, updateData, insertData and
    insertRelatedData, whatever the operator types and whatever the
    database answers, each statement sent to the database is a catalog
    statement (its text is written with table and column names of the
    static catalog and placeholders only), its placeholders are exactly
    $1 .. $n in this order for its n parameters, and every parameter
    is a line typed by the operator or an identifier the database
    returned. *)
Theorem statements_are_parameterized :
  forall (m : M unit) (e : Env) (sql : string) (args : list Arg),
    In m [filterData; updateData; insertData; insertRelatedData] ->
    In (sql, args) (dbCalls (trace (m e))) ->
    CatalogStmt sql (List.length args)
    /\ placeholders sql = seq 1 (List.length args)
    /\ Forall (FromOperator e) args.
Proof.
  intros m e sql args Hm Hin.
  assert (Hsafe : safe e (Parameterized e) m (fun _ => True)).
  { simpl in Hm. destruct Hm as [<-|[<-|[<-|[<-|[]]]]].
    - apply safe_filterData.
    - apply safe_updateData.
    - apply safe_insertData.
    - apply safe_insertRelatedData. }
  apply safe_trace in Hsafe as [Hall _].
  rewrite Forall_forall in Hall.
  assert (Hgood : CatalogStmt sql (List.length args) /\ Forall (FromOperator e) args).
  { apply in_dbCalls in Hin. destruct Hin as [H|[H|H]]; exact (Hall _ H). }
  destruct Hgood as [Hc Hf]. split; [exact Hc|]. split; [|exact Hf].
  now apply CatalogStmt_placeholders.
Qed.

(** A filter over price and name: the statement sent, and its placeholders. *)
Lemma statements_are_parameterized_witness :
  let e := mkEnv ["2"; "3"; "6"; "15"; "2"; "x y"] [] in
  let sql := "SELECT * FROM components WHERE price = $1 AND name = $2 ORDER BY id" in
  let args := [AStr "15"; AStr "x y"] in
  In (sql, args) (dbCalls (trace (filterData e)))
  /\ placeholders sql = [1; 2].
Proof.
  intros e sql args.
  assert (Hin : In (sql, args) (dbCalls (trace (filterData e)))) by (vm_compute; auto).
  split; [exact Hin|].
  exact (proj1 (proj2 (statements_are_parameterized filterData e sql args
                         (or_introl eq_refl) Hin))).
Defined.

(** ** The menu loop *)

Lemma call_safe e P (m : M unit) :
  safe e P m (fun _ => True) -> outcome (call m e) = Ret tt.
Proof.
  intros H. specialize (H e (within_refl e)). unfold call, outcome.
  destruct (m e) as [[[[]| |] e1] t]; simpl; auto. contradiction.
Qed.

Lemma bind_control (m : M unit) (c : Control) (e : Env) :
  outcome (m e) = Ret tt -> outcome ((m ;;; ret c) e) = Ret c.
Proof.
  unfold bind, outcome. destruct (m e) as [[[[]| |] e1] t]; simpl; congruence.
Qed.

Lemma outcome_say_then {A} (msg : Msg) (k : M A) (e : Env) :
  outcome ((say msg ;;; k) e) = outcome (k e).
Proof. rewrite bind_say. reflexivity. Qed.

Lemma outcome_readLine_then {A} (k : string -> M A) (e : Env) :
  outcome ((input <- readLine ;; k input) e) = outcome (k (hd "" (stdin e)) (advance e)).
Proof.
  destruct e as [[|l rest] d]; unfold bind, readLine, advance, outcome; simpl.
  - now destruct (k "" _) as [[o e2] t2].
  - now destruct (k l _) as [[o e2] t2].
Qed.

Lemma operation_returns (m : M unit) (e : Env) :
  In m [filterData; updateData; insertData; insertRelatedData] ->
  outcome ((call m ;;; ret AtMenu) e) = Ret AtMenu.
Proof.
  intros Hm. apply bind_control. apply call_safe with (P := Parameterized e).
  simpl in Hm. destruct Hm as [<-|[<-|[<-|[<-|[]]]]].
  - apply safe_filterData.
  - apply safe_updateData.
  - apply safe_insertData.
  - apply safe_insertRelatedData.
Qed.

Lemma mainMenuBody_outcome (e : Env) :
  outcome (mainMenuBody e) = Ret (menuTarget (GoStr.Atoi (hd "" (stdin e)))).
Proof.
  unfold mainMenuBody. rewrite outcome_say_then, outcome_readLine_then.
  destruct (GoStr.Atoi (hd "" (stdin e))) as [choice|]; [|reflexivity].
  destruct (Z.eqb_spec choice 0) as [->|H0]; [reflexivity|].
  destruct (Z.eqb_spec choice 1) as [->|H1]; [reflexivity|].
  assert (Hc : menuTarget (Some choice) = AtMenu).
  { destruct choice as [|[p|p|]|p]; try reflexivity; congruence. }
  rewrite Hc.
  destruct (choice =? 2)%Z; [apply operation_returns; simpl; auto|].
  destruct (choice =? 3)%Z; [apply operation_returns; simpl; auto|].
  destruct (choice =? 4)%Z; [apply operation_returns; simpl; auto|].
  destruct (choice =? 5)%Z; [apply operation_returns; simpl; auto 6|].
  reflexivity.
Qed.

Lemma step_menu (e : Env) :
  control (step AtMenu e) = menuTarget (GoStr.Atoi (hd "" (stdin e))).
Proof.
  pose proof (mainMenuBody_outcome e) as H. unfold step, control, outcome in *.
  destruct (mainMenuBody e) as [[o e1] t]. simpl in H. now subst o.
Qed.

Lemma step_view_invalid (e : Env) :
  selectByNumber (hd "" (stdin e)) (List.length tables) = None ->
  step InViewTable e
  = (InViewTable, advance e, [Say (MsgTableMenu OpView); Say (MsgChoiceRange 4)]).
Proof.
  intros H. unfold step, viewTableBody. rewrite bind_say.
  destruct e as [[|l rest] d]; unfold bind, readLine, advance;
    cbn [stdin db hd tl] in *; rewrite H; reflexivity.
Qed.

Lemma step_view_no_exit (e : Env) (status : Z) :
  control (step InViewTable e) <> Exited status.
Proof.
  unfold step, control. destruct (viewTableBody e) as [[[[]| |] e1] t]; discriminate.
Qed.

(* ================================================================= *)
(** ** The filter operation *)

Lemma bind_run {A B} (m : M A) (f : A -> M B) e a e1 t1 :
  m e = (Ret a, e1, t1) -> bind m f e = prepend t1 (f a e1).
Proof.
  intros H. unfold bind, prepend, outcome, after, trace. rewrite H.
  now destruct (f a e1) as [[o e2] t2].
Qed.

Lemma bind_stop {A B} (m : M A) (f : A -> M B) e e1 t1 :
  m e = (Return, e1, t1) -> bind m f e = (Return, e1, t1).
Proof. apply bind_Return. Qed.

Lemma prepend_nil {A} (r : Outcome A * Env * list Event) : prepend [] r = r.
Proof. now destruct r as [[o e] t]. Qed.

Lemma bind_ret {A B} (a : A) (f : A -> M B) e : bind (ret a) f e = f a e.
Proof. rewrite (bind_run _ _ e a e []) by reflexivity. apply prepend_nil. Qed.

Lemma bind_say_prepend {B} (msg : Msg) (k : M B) e :
  bind (say msg) (fun _ => k) e = prepend [Say msg] (k e).
Proof. apply bind_say. Qed.

Lemma bind_readLine {B} (k : string -> M B) l rest d :
  bind readLine k (mkEnv (l :: rest) d) = k l (mkEnv rest d).
Proof.
  rewrite (bind_run _ _ _ l (mkEnv rest d) []) by reflexivity. apply prepend_nil.
Qed.

Lemma bind_emitAll {B} (evs : list Event) (k : M B) e :
  bind (emitAll evs) (fun _ => k) e = prepend evs (k e).
Proof. now rewrite (bind_run _ _ e tt e evs). Qed.

Lemma bind_dbQuery {A} sql args
    (k : option (list string * list (list (option string))) -> M A) e :
  exists res e1, bind (dbQuery sql args) k e = prepend [Query sql args] (k res e1).
Proof.
  unfold dbQuery. destruct (nextAnswer e) as [ans e1] eqn:E.
  destruct ans; eexists _, e1; apply bind_run; rewrite E; reflexivity.
Qed.

Lemma trace_prepend {A} t (r : Outcome A * Env * list Event) :
  trace (prepend t r) = (t ++ trace r)%list.
Proof. reflexivity. Qed.

Lemma outcome_prepend {A} t (r : Outcome A * Env * list Event) :
  outcome (prepend t r) = outcome r.
Proof. reflexivity. Qed.

Lemma after_prepend {A} t (r : Outcome A * Env * list Event) :
  after (prepend t r) = after r.
Proof. reflexivity. Qed.

(** What follows the query of [filterData] sends nothing more. *)
Lemma dbCalls_query_then {A} sql args
    (k : option (list string * list (list (option string))) -> M A) e :
  (forall res e1, dbCalls (trace (k res e1)) = []) ->
  dbCalls (trace (bind (dbQuery sql args) k e)) = [(sql, args)].
Proof.
  intros Hk. unfold bind, dbQuery.
  destruct (nextAnswer e) as [[] e1]; simpl;
    match goal with
    | |- context [k ?r ?e] => specialize (Hk r e); destruct (k r e) as [[o e2] t2]
    end; simpl in *; now rewrite Hk.
Qed.

Lemma chosen_In {A} (items : list A) input x : chosen items input = Some x -> In x items.
Proof.
  intros H. apply chosen_inv in H as (c & _ & _ & H). eapply nth_error_In; eauto.
Qed.

Lemma validFilter_columns table pairs cols :
  Forall2 (validFilter table) pairs cols ->
  Forall (fun c => In c (Columns table)) cols /\ List.length cols = List.length pairs.
Proof.
  induction 1 as [|p c pairs cols [Hc _] _ [IH1 IH2]]; simpl; split; auto.
  constructor; auto. eapply chosen_In; eauto.
Qed.

(** C6.  A filter request with N >= 1 valid (column, value) pairs
    sends exactly one statement,
    SELECT * FROM t WHERE c1 = $1 AND ... AND cN = $N ORDER BY id,
    with the values as parameters in the order typed and the
    placeholders $1 .. $N. *)
Theorem filter_builds_conjunction :
  forall (countInput tableInput : string) (table : TableInfo)
         (pairs : list (string * string)) (cols : list string)
         (rest : list string) (dbs : list DBResult),
    GoStr.Atoi countInput = Some (len pairs) ->
    pairs <> [] ->
    chosen tables tableInput = Some table ->
    Forall2 (validFilter table) pairs cols ->
    let e := mkEnv (countInput :: tableInput :: typedPairs pairs ++ rest) dbs in
    let sql := "SELECT * FROM " ++ Name table ++ " WHERE "
                 ++ String.concat " AND " (conditionsOf cols 1) ++ " ORDER BY id" in
    dbCalls (trace (filterData e)) = [(sql, map (fun p => AStr (snd p)) pairs)]
    /\ placeholders sql = seq 1 (List.length pairs).
Proof.
  intros countInput tableInput table pairs cols rest dbs Hcount Hne Htable Hpairs e sql.
  destruct (validFilter_columns _ _ _ Hpairs) as [Hcols Hlen].
  split.
  - unfold filterData, e.
    rewrite (bind_run _ _ _ _ _ _ (readCount_ok OpFilter countInput (len pairs) _ dbs Hcount
               ltac:(unfold len; destruct pairs; [congruence | simpl; lia]))).
    destruct (selectTable_ok OpFilter tableInput table (typedPairs pairs ++ rest) dbs Htable)
      as (ti & Hsel & Hti & Hidx).
    rewrite (bind_run _ _ _ _ _ _ Hsel), Hti, Hidx, bind_ret.
    destruct (filterLoop_ok table (len pairs) pairs cols Hpairs 0 [] [] rest dbs)
      as (t & Hloop & Hdb).
    unfold len at 2. rewrite Nat2Z.id.
    rewrite (bind_run _ _ _ _ _ _ Hloop).
    rewrite !trace_prepend, !dbCalls_app, Hdb. simpl.
    apply dbCalls_query_then.
    intros [[columns rows]|] e1.
    + destruct (scanRows _ _ _ _) as [widths allRows].
      destruct allRows; [reflexivity|].
      rewrite bind_emitAll, trace_prepend, dbCalls_app, dbCalls_printGrid.
      reflexivity.
    + reflexivity.
  - rewrite <- Hlen. apply (placeholders_filterQuery (Name table) cols).
    + apply table_plain. eapply chosen_In; eauto.
    + eapply columns_plain; eauto. eapply chosen_In; eauto.
Qed.

(** Two filters on components: price, then name. *)
Lemma filter_builds_conjunction_witness :
  dbCalls (trace (filterData
     (mkEnv ["2"; "3"; "6"; "15"; "2"; "resistor"] [DBError])))
  = [("SELECT * FROM components WHERE price = $1 AND name = $2 ORDER BY id",
      [AStr "15"; AStr "resistor"])].
Proof.
  refine (proj1 (filter_builds_conjunction "2" "3"
            (mkTable "components"
               ["id"; "name"; "category_id"; "manufacturer_id"; "model"; "price"])
            [("6", "15"); ("2", "resistor")] ["price"; "name"] [] [DBError]
            eq_refl _ eq_refl _)).
  - discriminate.
  - repeat constructor.
Defined.

(* ================================================================= *)
(** ** The update operation *)

Lemma checkValue_ok isNumeric column value e :
  validValue isNumeric column value ->
  checkValue isNumeric column value e = (Ret tt, e, []).
Proof.
  intros [Hw Hn]. unfold checkValue. rewrite Hw. simpl.
  destruct (isNumeric column); [|reflexivity].
  specialize (Hn eq_refl). unfold parses in Hn.
  destruct (GoStr.Atoi value); [reflexivity | congruence].
Qed.

Lemma checkValue_not_a_number isNumeric column value e :
  GoStr.whiteListRegex_MatchString value = true ->
  isNumeric column = true -> GoStr.Atoi value = None ->
  checkValue isNumeric column value e = (Return, e, [Say (MsgNotANumber column)]).
Proof.
  intros Hw Hn Ha. unfold checkValue. rewrite Hw, Hn, Ha. reflexivity.
Qed.

Lemma readIds_ok ids :
  Forall parses ids ->
  forall i acc rest dbs,
  exists t,
    readIds (List.length ids) i acc (mkEnv (ids ++ rest) dbs)
    = (Ret (acc ++ ids)%list, mkEnv rest dbs, t)
    /\ dbCalls t = [].
Proof.
  induction 1 as [|id ids Hid _ IH]; intros i acc rest dbs.
  - exists []. simpl. now rewrite app_nil_r.
  - destruct (IH (S i) (acc ++ [id])%list rest dbs) as (t & Ht & Hdb).
    exists (Say (MsgAskId (i + 1)) :: t). split; [|exact Hdb].
    simpl readIds. rewrite bind_say_prepend. simpl app. rewrite bind_readLine.
    unfold parses in Hid. destruct (GoStr.Atoi id); [|congruence].
    rewrite Ht. rewrite <- app_assoc. reflexivity.
Qed.

Lemma readIds_bad good :
  Forall parses good ->
  forall n i acc bad rest dbs,
    List.length good < n -> GoStr.Atoi bad = None ->
    exists t,
      readIds n i acc (mkEnv (good ++ bad :: rest) dbs)
      = (Return, mkEnv rest dbs, (t ++ [Say MsgIdNotNumber])%list)
      /\ dbCalls t = [].
Proof.
  induction 1 as [|id ids Hid _ IH]; intros n i acc bad rest dbs Hn Hbad.
  - destruct n as [|n]; [simpl in Hn; lia|].
    exists [Say (MsgAskId (i + 1))]. split; [|reflexivity].
    simpl readIds. rewrite bind_say_prepend. simpl app. rewrite bind_readLine.
    rewrite Hbad. reflexivity.
  - destruct n as [|n]; [simpl in Hn; lia|].
    destruct (IH n (S i) (acc ++ [id])%list bad rest dbs) as (t & Ht & Hdb);
      [simpl in Hn; lia | exact Hbad |].
    exists (Say (MsgAskId (i + 1)) :: t). split; [|exact Hdb].
    simpl readIds. rewrite bind_say_prepend. simpl app. rewrite bind_readLine.
    unfold parses in Hid. destruct (GoStr.Atoi id); [|congruence].
    rewrite Ht. reflexivity.
Qed.

Lemma updateArgs_ok ids newValue e :
  ids <> [] ->
  updateArgs (len ids) newValue ids e = (Ret (AStr newValue :: map AStr ids), e, []).
Proof.
  intros Hne. unfold updateArgs, len.
  destruct ids as [|id0 [|id1 ids]]; [congruence| |].
  - reflexivity.
  - destruct (Z.eqb_spec (Z.of_nat (List.length (id0 :: id1 :: ids))) 1) as [E|E];
      [simpl in E; lia | reflexivity].
Qed.

Lemma updateQuery_text table column ids :
  updateQuery (len ids) table column ids = updateText table column (List.length ids).
Proof.
  unfold updateQuery, updateText, len. rewrite placeholdersFrom_markers.
  destruct ids as [|id0 [|id1 ids]]; try reflexivity.
  destruct (Z.eqb_spec (Z.of_nat (List.length (id0 :: id1 :: ids))) 1) as [E|E];
    [simpl in E; lia | reflexivity].
Qed.

Lemma dbCalls_exec_then {A} sql args (k : option Z -> M A) e :
  (forall res e1, dbCalls (trace (k res e1)) = []) ->
  dbCalls (trace (bind (dbExec sql args) k e)) = [(sql, args)].
Proof.
  intros Hk. unfold bind, dbExec.
  destruct (nextAnswer e) as [[] e1]; simpl;
    match goal with
    | |- context [k ?r ?e] => specialize (Hk r e); destruct (k r e) as [[o e2] t2]
    end; simpl in *; now rewrite Hk.
Qed.

Lemma updatable_nonempty table : In table tables -> updatableColumns table <> [].
Proof.
  simpl. intros [<-|[<-|[<-|[<-|[]]]]]; discriminate.
Qed.

Lemma prepend_prepend {A} t1 t2 (r : Outcome A * Env * list Event) :
  prepend t1 (prepend t2 r) = prepend (t1 ++ t2) r.
Proof. unfold prepend, outcome, after, trace. simpl. now rewrite app_assoc. Qed.

(** The run of [updateData] up to the value typed for the column. *)
Lemma updateData_to_value countInput tableInput table ids columnInput column
      newValue rest dbs :
  GoStr.Atoi countInput = Some (len ids) -> ids <> [] ->
  chosen tables tableInput = Some table ->
  Forall parses ids ->
  chosen (updatableColumns table) columnInput = Some column ->
  exists t,
    dbCalls t = []
    /\ updateData
         (mkEnv (countInput :: tableInput :: ids ++ columnInput :: newValue :: rest) dbs)
       = prepend t
           ((checkValue numericColumn column newValue ;;;
             args <- updateArgs (len ids) newValue ids ;;
             result <- dbExec (updateQuery (len ids) (Name table) column ids) args ;;
             match result with
             | None => say MsgUpdateFailed ;;; goReturn
             | Some rowsAffected => say (MsgUpdated rowsAffected)
             end) (mkEnv rest dbs)).
Proof.
  intros Hcount Hne Htable Hids Hcol.
  destruct (selectTable_ok OpUpdate tableInput table
              (ids ++ columnInput :: newValue :: rest) dbs Htable)
    as (ti & Hsel & Hti & Hidx).
  destruct (readIds_ok ids Hids 0 [] (columnInput :: newValue :: rest) dbs)
    as (t & Ht & Hdb).
  pose proof (chosen_inv _ _ _ Hcol) as (c & Hc & Hpos & Hnth).
  simpl in Ht.
  eexists. split; cycle 1.
  - unfold updateData.
    rewrite (bind_run _ _ _ _ _ _ (readCount_ok OpUpdate countInput (len ids) _ dbs Hcount
               ltac:(unfold len; destruct ids; [congruence | simpl; lia]))).
    rewrite (bind_run _ _ _ _ _ _ Hsel), Hti, Hidx, bind_ret. cbv zeta.
    destruct (updatableColumns table) as [|u0 us] eqn:Eu.
    { destruct (Z.to_nat (c - 1)); discriminate. }
    rewrite <- Eu in Hc, Hnth |- *. unfold len at 1. rewrite Nat2Z.id.
    rewrite (bind_run _ _ _ _ _ _ Ht).
    rewrite bind_say_prepend, bind_readLine, Hc.
    destruct (Z.eqb_spec c 0); [lia|].
    rewrite (bind_run _ _ _ _ _ _ (index_ok _ (c - 1)%Z column _ ltac:(lia) Hnth)).
    rewrite bind_say_prepend, bind_readLine.
    rewrite !prepend_prepend. reflexivity.
  - rewrite !dbCalls_app. simpl. rewrite Hdb. reflexivity.
Qed.

Lemma updateData_accepted countInput tableInput table ids columnInput column
      newValue rest dbs :
  GoStr.Atoi countInput = Some (len ids) -> ids <> [] ->
  chosen tables tableInput = Some table ->
  Forall parses ids ->
  chosen (updatableColumns table) columnInput = Some column ->
  validValue numericColumn column newValue ->
  dbCalls (trace (updateData
     (mkEnv (countInput :: tableInput :: ids ++ columnInput :: newValue :: rest) dbs)))
  = [(updateText (Name table) column (List.length ids), AStr newValue :: map AStr ids)].
Proof.
  intros Hcount Hne Htable Hids Hcol Hval.
  destruct (updateData_to_value countInput tableInput table ids columnInput column
              newValue rest dbs Hcount Hne Htable Hids Hcol) as (t & Hdb & Hrun).
  rewrite Hrun, trace_prepend, dbCalls_app, Hdb. simpl app.
  rewrite (bind_run _ _ _ _ _ _ (checkValue_ok _ _ _ _ Hval)).
  rewrite (bind_run _ _ _ _ _ _ (updateArgs_ok ids newValue _ Hne)).
  rewrite !prepend_nil, updateQuery_text.
  apply dbCalls_exec_then. intros [n|] e1; reflexivity.
Qed.

Lemma updateData_rejected countInput tableInput table ids columnInput column
      newValue rest dbs :
  GoStr.Atoi countInput = Some (len ids) -> ids <> [] ->
  chosen tables tableInput = Some table ->
  Forall parses ids ->
  chosen (updatableColumns table) columnInput = Some column ->
  GoStr.whiteListRegex_MatchString newValue = true ->
  numericColumn column = true -> GoStr.Atoi newValue = None ->
  rejectedAsNotANumber
    (updateData
       (mkEnv (countInput :: tableInput :: ids ++ columnInput :: newValue :: rest) dbs))
    column.
Proof.
  intros Hcount Hne Htable Hids Hcol Hw Hn Ha.
  destruct (updateData_to_value countInput tableInput table ids columnInput column
              newValue rest dbs Hcount Hne Htable Hids Hcol) as (t & Hdb & Hrun).
  rewrite Hrun.
  rewrite (bind_stop _ _ _ _ _ (checkValue_not_a_number _ _ _ _ Hw Hn Ha)).
  unfold rejectedAsNotANumber, prepend, outcome, after, trace. simpl.
  split; [reflexivity|]. split.
  - rewrite dbCalls_app, Hdb. reflexivity.
  - apply last_last.
Qed.

Lemma updatable_not_id table column :
  In column (updatableColumns table) -> column <> "id".
Proof.
  unfold updatableColumns. intros H. apply filter_In in H as [_ H].
  apply negb_true_iff in H. now apply String.eqb_neq.
Qed.

Lemma updatable_column table column :
  In column (updatableColumns table) -> In column (Columns table).
Proof. unfold updatableColumns. intros H. now apply filter_In in H. Qed.

(** C5.  An update request with valid input, k >= 1 row identifiers
    and a valid value sends exactly one statement: for k = 1 the text
    UPDATE t SET c = $1 WHERE id = $2, for k > 1 the text
    UPDATE t SET c = $1 WHERE id IN ($2, ..., $(k+1)); the parameters
    are the value followed by the identifiers in the order typed, the
    placeholders are $1 .. $(k+1), and the column is never id. *)
Theorem update_statement_shape :
  forall (countInput tableInput : string) (table : TableInfo) (ids : list string)
         (columnInput column newValue : string) (rest : list string)
         (dbs : list DBResult),
    GoStr.Atoi countInput = Some (len ids) ->
    ids <> [] ->
    chosen tables tableInput = Some table ->
    Forall parses ids ->
    chosen (updatableColumns table) columnInput = Some column ->
    validValue numericColumn column newValue ->
    let e := mkEnv (countInput :: tableInput :: ids ++ columnInput :: newValue :: rest)
               dbs in
    let sql := updateText (Name table) column (List.length ids) in
    dbCalls (trace (updateData e)) = [(sql, AStr newValue :: map AStr ids)]
    /\ placeholders sql = seq 1 (1 + List.length ids)
    /\ column <> "id".
Proof.
  intros countInput tableInput table ids columnInput column newValue rest dbs
         Hcount Hne Htable Hids Hcol Hval e sql.
  pose proof (chosen_In _ _ _ Htable) as Ht.
  pose proof (chosen_In _ _ _ Hcol) as Hc.
  split; [|split].
  - now apply updateData_accepted.
  - unfold sql. rewrite <- updateQuery_text.
    apply placeholders_updateQuery.
    + now apply table_plain.
    + eapply column_plain; eauto. now apply updatable_column.
    + unfold len. intros H. lia.
  - now apply updatable_not_id with (table := table).
Qed.

(** The price of the components 7 and 8 set to 12. *)
Lemma update_statement_shape_witness :
  dbCalls (trace (updateData (mkEnv ["2"; "3"; "7"; "8"; "5"; "12"] [DBAffected 2])))
  = [("UPDATE components SET price = $1 WHERE id IN ($2, $3)",
      [AStr "12"; AStr "7"; AStr "8"])]
  /\ placeholders "UPDATE components SET price = $1 WHERE id IN ($2, $3)" = [1; 2; 3]
  /\ "price" <> "id".
Proof.
  refine (update_statement_shape "2" "3"
            (mkTable "components"
               ["id"; "name"; "category_id"; "manufacturer_id"; "model"; "price"])
            ["7"; "8"] "5" "price" "12" [] [DBAffected 2]
            eq_refl _ eq_refl _ eq_refl _).
  - discriminate.
  - repeat constructor; discriminate.
  - split; [reflexivity | discriminate].
Defined.

(** C10.  In updateData, when one of the row identifiers typed does
    not parse as an integer (the ones before it do), the operation
    prints that the ID must be a number and returns: no statement is
    sent and no answer of the database is consumed. *)
Theorem update_rejects_bad_identifier :
  forall (countInput tableInput : string) (updateCount : Z) (table : TableInfo)
         (good : list string) (bad : string) (rest : list string)
         (dbs : list DBResult),
    GoStr.Atoi countInput = Some updateCount ->
    (len good < updateCount)%Z ->
    chosen tables tableInput = Some table ->
    Forall parses good ->
    GoStr.Atoi bad = None ->
    let r := updateData (mkEnv (countInput :: tableInput :: good ++ bad :: rest) dbs) in
    outcome r = Return
    /\ dbCalls (trace r) = []
    /\ In (Say MsgIdNotNumber) (trace r)
    /\ db (after r) = dbs.
Proof.
  intros countInput tableInput updateCount table good bad rest dbs
         Hcount Hlt Htable Hgood Hbad r.
  pose proof (chosen_In _ _ _ Htable) as Ht.
  destruct (selectTable_ok OpUpdate tableInput table (good ++ bad :: rest) dbs Htable)
    as (ti & Hsel & Hti & Hidx).
  destruct (readIds_bad good Hgood (Z.to_nat updateCount) 0 [] bad rest dbs
              ltac:(unfold len in Hlt; lia) Hbad) as (t & Ht' & Hdb).
  assert (Hr : r = prepend [Say (MsgAskCount OpUpdate); Say (MsgTableMenu OpUpdate)]
                 (Return, mkEnv rest dbs, (t ++ [Say MsgIdNotNumber])%list)).
  { unfold r, updateData.
    rewrite (bind_run _ _ _ _ _ _ (readCount_ok OpUpdate countInput updateCount _ dbs Hcount
               ltac:(unfold len in Hlt; lia))).
    rewrite (bind_run _ _ _ _ _ _ Hsel), Hti, Hidx, bind_ret. cbv zeta.
    pose proof (updatable_nonempty table Ht) as Hne.
    destruct (updatableColumns table) as [|u0 us]; [congruence|].
    rewrite (bind_stop _ _ _ _ _ Ht'). rewrite prepend_prepend. reflexivity. }
  rewrite Hr. unfold prepend, outcome, after, trace. simpl.
  repeat split.
  - rewrite dbCalls_app, Hdb. reflexivity.
  - right. right. apply in_or_app. right. now left.
Qed.

(** The second of two identifiers is x1. *)
Lemma update_rejects_bad_identifier_witness :
  let r := updateData (mkEnv ["2"; "3"; "7"; "x1"; "5"; "12"] [DBAffected 2]) in
  outcome r = Return /\ dbCalls (trace r) = []
  /\ In (Say MsgIdNotNumber) (trace r) /\ db (after r) = [DBAffected 2].
Proof.
  refine (update_rejects_bad_identifier "2" "3" 2
            (mkTable "components"
               ["id"; "name"; "category_id"; "manufacturer_id"; "model"; "price"])
            ["7"] "x1" ["5"; "12"] [DBAffected 2] eq_refl _ eq_refl _ eq_refl).
  - reflexivity.
  - repeat constructor; discriminate.
Defined.

(* ================================================================= *)
(** ** The related insert *)

Lemma readValues_ok isNumeric columns values :
  Forall2 (validValue isNumeric) columns values ->
  forall acc rest dbs,
    readValues isNumeric columns acc (mkEnv (values ++ rest) dbs)
    = (Ret (acc ++ map AStr values)%list, mkEnv rest dbs, map askValue columns).
Proof.
  induction 1 as [|column value columns values Hv _ IH]; intros acc rest dbs.
  - simpl. now rewrite app_nil_r.
  - simpl readValues. rewrite bind_say_prepend. simpl app. rewrite bind_readLine.
    rewrite (bind_run _ _ _ _ _ _ (checkValue_ok _ _ _ _ Hv)), prepend_nil.
    rewrite IH. unfold prepend, outcome, after, trace. simpl.
    now rewrite <- app_assoc.
Qed.

Lemma readValuesSecond_ok foreignKey id columns :
  forall values,
    Forall2 (validValue numericColumnSecond) (typedColumns foreignKey columns) values ->
    forall acc rest dbs,
      readValuesSecond foreignKey id columns acc (mkEnv (values ++ rest) dbs)
      = (Ret (acc ++ secondArgs foreignKey id columns values)%list, mkEnv rest dbs,
         map (secondEvent foreignKey id) columns).
Proof.
  induction columns as [|column columns IH]; intros values Hv acc rest dbs.
  - inversion Hv; subst. simpl. now rewrite app_nil_r.
  - simpl in Hv. simpl readValuesSecond. simpl secondArgs. simpl map.
    unfold secondEvent at 1.
    destruct (column =? foreignKey)%string; simpl in Hv.
    + rewrite bind_say_prepend, (IH values Hv).
      unfold prepend, outcome, after, trace. simpl. now rewrite <- app_assoc.
    + inversion Hv as [|c value cs more Hval Hmore]; subst.
      rewrite bind_say_prepend, <- app_comm_cons, bind_readLine.
      rewrite (bind_run _ _ _ _ _ _ (checkValue_ok _ _ _ _ Hval)), prepend_nil.
      rewrite (IH more Hmore).
      unfold prepend, outcome, after, trace. simpl. now rewrite <- app_assoc.
Qed.

Lemma askedColumns_ask columns : askedColumns (map askValue columns) = columns.
Proof. induction columns as [|c cs IH]; simpl; [reflexivity | now rewrite IH]. Qed.

Lemma askedColumns_second foreignKey id columns :
  askedColumns (map (secondEvent foreignKey id) columns) = typedColumns foreignKey columns.
Proof.
  induction columns as [|c cs IH]; simpl; [reflexivity|].
  unfold secondEvent at 1. destruct (c =? foreignKey)%string; simpl; now rewrite IH.
Qed.

Lemma dbCalls_ask columns : dbCalls (map askValue columns) = [].
Proof. induction columns as [|c cs IH]; simpl; auto. Qed.

Lemma dbCalls_second foreignKey id columns :
  dbCalls (map (secondEvent foreignKey id) columns) = [].
Proof.
  induction columns as [|c cs IH]; simpl; [reflexivity|].
  unfold secondEvent at 1. destruct (c =? foreignKey)%string; simpl; exact IH.
Qed.

Lemma secondArgs_at_key foreignKey id columns :
  forall values j,
    List.length values = List.length (typedColumns foreignKey columns) ->
    nth_error columns j = Some foreignKey ->
    nth_error (secondArgs foreignKey id columns values) j = Some (AInt id).
Proof.
  induction columns as [|c cs IH]; intros values j Hl Hj.
  - destruct j; discriminate.
  - simpl in *. destruct (String.eqb_spec c foreignKey) as [E|E]; simpl in *.
    + destruct j as [|j]; [reflexivity|]. simpl in *. now apply IH.
    + destruct j as [|j]; simpl in Hj; [congruence|].
      destruct values as [|v vs]; [discriminate|]. simpl. apply IH; auto.
Qed.

Lemma relation_tables relation name1 name2 :
  In relation relatedTables ->
  GoStr.Split relation relationSep = [name1; name2] ->
  In (findTable name1) tables /\ In (findTable name2) tables
  /\ In (foreignKeyColumn (findTable name1) (findTable name2))
        (tl (Columns (findTable name2))).
Proof.
  simpl. intros [<-|[<-|[<-|[]]]] H; vm_compute in H; injection H as <- <-;
    vm_compute; tauto.
Qed.

Lemma sliceFrom1_ok table e :
  In table tables -> sliceFrom1 (Columns table) e = (Ret (tl (Columns table)), e, []).
Proof.
  intros H. destruct (table_plain table H) as (_ & _ & Hne).
  destruct (Columns table); [congruence | reflexivity].
Qed.


Lemma bind_dbExec {A} sql args (k : option Z -> M A) e :
  exists res e1, bind (dbExec sql args) k e = prepend [Exec sql args] (k res e1).
Proof.
  unfold dbExec. destruct (nextAnswer e) as [ans e1] eqn:E.
  destruct ans; eexists _, e1; apply bind_run; rewrite E; reflexivity.
Qed.

Lemma In_second_event foreignKey id columns :
  In foreignKey columns ->
  In (Say (MsgAutoSet foreignKey id)) (map (secondEvent foreignKey id) columns).
Proof.
  intros H. apply in_map_iff. exists foreignKey. split; [|exact H].
  unfold secondEvent. now rewrite String.eqb_refl.
Qed.

Lemma typedColumns_without_key foreignKey columns :
  ~ In foreignKey (typedColumns foreignKey columns).
Proof.
  unfold typedColumns. intros H. apply filter_In in H as [_ H].
  now rewrite String.eqb_refl in H.
Qed.


Lemma trace_bind_prefix {A B} (m : M A) (f : A -> M B) (e : Env) :
  exists more, trace (bind m f e) = (trace (m e) ++ more)%list.
Proof.
  unfold bind, trace. destruct (m e) as [[[a| |] e1] t1]; simpl.
  - destruct (f a e1) as [[o e2] t2]. now exists t2.
  - exists []. now rewrite app_nil_r.
  - exists []. now rewrite app_nil_r.
Qed.


(* ================================================================= *)
(** ** Rendering *)

Lemma Repeat_chars (c : ascii) (n : nat) : GoStr.Repeat (String c "") n = chars c n.
Proof. unfold chars. induction n as [|n IH]; simpl; [reflexivity | now rewrite IH]. Qed.

Lemma bump_max (w n : nat) : bump w n = Nat.max w n.
Proof. unfold bump. destruct (Nat.ltb_spec w n); lia. Qed.

Lemma padRight_padTo (text : string) (width : nat) :
  String.length text <= width -> padRight text width = padTo text width.
Proof.
  intros H. unfold padRight, padTo.
  destruct (Nat.leb_spec width (String.length text)) as [Hle|Hlt].
  - assert (E : width = String.length text) by lia. subst width.
    rewrite substring_all, Nat.sub_diag. simpl. now rewrite append_nil_r.
  - now rewrite Repeat_chars.
Qed.

Lemma length_chars (c : ascii) (n : nat) : String.length (chars c n) = n.
Proof. unfold chars. induction n as [|n IH]; simpl; [reflexivity | now rewrite IH]. Qed.

Lemma length_padTo (text : string) (width : nat) :
  String.length text <= width -> String.length (padTo text width) = width.
Proof. intros H. unfold padTo. rewrite length_append, length_chars. lia. Qed.

Lemma zipWith_length {A B C} (f : A -> B -> C) l1 l2 :
  List.length l1 = List.length l2 -> List.length (zipWith f l1 l2) = List.length l1.
Proof.
  revert l2. induction l1 as [|a l1 IH]; intros [|b l2] H; simpl in *; try lia.
  now rewrite IH by lia.
Qed.

Lemma zipWith_nth {A B C} (f : A -> B -> C) l1 l2 da db dc i :
  List.length l1 = List.length l2 -> i < List.length l1 ->
  nth i (zipWith f l1 l2) dc = f (nth i l1 da) (nth i l2 db).
Proof.
  revert l2 i. induction l1 as [|a l1 IH]; intros [|b l2] i H Hi; simpl in *; try lia.
  destruct i as [|i]; [reflexivity|]. apply IH; lia.
Qed.

Lemma widen_length ws r :
  List.length r = List.length ws -> List.length (widen ws r) = List.length ws.
Proof. intros H. unfold widen. apply zipWith_length. now rewrite length_map. Qed.

Lemma widen_nth ws r i :
  List.length r = List.length ws -> i < List.length ws ->
  nth i (widen ws r) 0 = Nat.max (nth i ws 0) (String.length (nth i r "")).
Proof.
  intros H Hi. unfold widen.
  rewrite (zipWith_nth bump ws (map String.length r) 0 0 0 i);
    [|now rewrite length_map | exact Hi].
  rewrite bump_max. f_equal.
  clear. revert i. induction r as [|t r IH]; intros [|i]; simpl; auto.
Qed.

Lemma scanRows_fold ncols rows :
  forall ws acc,
    scanRows ncols rows ws acc
    = (fold_left widen (scanned ncols rows) ws, (acc ++ scanned ncols rows)%list).
Proof.
  unfold scanned. induction rows as [|r rows IH]; intros ws acc; simpl.
  - now rewrite app_nil_r.
  - destruct (List.length r =? ncols); simpl.
    + rewrite IH. now rewrite <- app_assoc.
    + apply IH.
Qed.

Lemma scanned_arity ncols rows :
  Forall (fun r => List.length r = ncols) (scanned ncols rows).
Proof.
  unfold scanned. apply Forall_forall. intros r Hr.
  apply in_map_iff in Hr as (raw & <- & Hraw).
  apply filter_In in Hraw as [_ Hraw]. rewrite length_map. now apply Nat.eqb_eq.
Qed.

Lemma fold_widen rs :
  forall ws,
    Forall (fun r => List.length r = List.length ws) rs ->
    List.length (fold_left widen rs ws) = List.length ws
    /\ forall i, i < List.length ws ->
         nth i (fold_left widen rs ws) 0
         = Nat.max (nth i ws 0)
             (list_max (map (fun r => String.length (nth i r "")) rs)).
Proof.
  induction rs as [|r rs IH]; intros ws Hall; simpl.
  - split; [reflexivity|]. intros i _. lia.
  - inversion Hall as [|? ? Hr Hrs]; subst.
    destruct (IH (widen ws r)) as [IHl IHn].
    + rewrite widen_length by exact Hr. exact Hrs.
    + rewrite widen_length in IHl, IHn by exact Hr.
      split; [exact IHl|]. intros i Hi.
      rewrite IHn by exact Hi. rewrite widen_nth by assumption. lia.
Qed.

Lemma headerWidths_nth columns i :
  nth i (headerWidths columns) 0 = String.length (nth i columns "").
Proof.
  revert i. induction columns as [|c cs IH]; intros [|i]; simpl; auto.
  rewrite bump_max. lia.
Qed.

Lemma zipWith_pad texts ws :
  List.length texts = List.length ws ->
  (forall i, i < List.length ws -> String.length (nth i texts "") <= nth i ws 0) ->
  zipWith padRight texts ws = zipWith padTo texts ws.
Proof.
  revert ws. induction texts as [|t texts IH]; intros [|w ws] Hl H; simpl in *;
    try reflexivity; try lia.
  f_equal.
  - apply padRight_padTo. apply (H 0). lia.
  - apply IH; [lia|]. intros i Hi. apply (H (S i)). lia.
Qed.

Lemma list_max_ge l x : In x l -> x <= list_max l.
Proof.
  induction l as [|a l IH]; simpl; intros H; [contradiction|].
  destruct H as [->|H]; [lia|]. specialize (IH H). lia.
Qed.

(** The table view prints the grid of the rows it scanned. *)
Lemma viewTable_prints_grid input table columns rows rest dbs :
  chosen tables input = Some table ->
  let result := scanRows (List.length columns) rows (headerWidths columns) [] in
  let query := "SELECT * FROM " ++ Name table ++ " ORDER BY id" in
  trace (viewTableBody (mkEnv (input :: rest) (DBRows columns rows :: dbs)))
  = ([Say (MsgTableMenu OpView); Query query []; Query query []]
     ++ printGrid columns (fst result) (snd result)
     ++ [Say (MsgFound (List.length (snd result)))])%list.
Proof.
  intros Hc result query. apply chosen_inv in Hc as (c & Hc & Hpos & Hn).
  unfold viewTableBody. rewrite bind_say_prepend, bind_readLine, Hc.
  destruct (Z.eqb_spec c 0) as [E0|E0]; [lia|].
  rewrite (bind_run _ _ _ _ _ _ (index_ok tables (c - 1)%Z table _ ltac:(lia) Hn)).
  rewrite prepend_nil. cbv zeta. fold query.
  rewrite (bind_run (dbQuery query []) _ _ (Some (columns, rows)) (mkEnv rest dbs)
             [Query query []]) by reflexivity.
  fold result. destruct result as [widths allRows]. simpl fst. simpl snd.
  match goal with
  | |- context [bind (dbQuery ?sql ?args) ?k ?e] =>
      destruct (bind_dbQuery sql args k e) as (again & e2 & ->)
  end.
  rewrite bind_emitAll, bind_say_prepend, !prepend_prepend, trace_prepend.
  destruct again; simpl trace; now rewrite <- !app_assoc.
Qed.

(** C7.  For every result set: the rows kept are the rows that scan,
    with NULL as the empty text; there is one width per column, the
    maximum of the length of the header and of the lengths of the cells
    of that column; the grid printed is the header cells, each followed
    by spaces up to its width, joined by " | ", then per column that
    many dashes joined by "-+-", then each row laid out as the header;
    no text is cut, every padded cell has exactly the width of its
    column; this grid is what viewTable prints for the result set. *)
Theorem grid_layout :
  forall (columns : list string) (rows : list (list (option string))),
    let result := scanRows (List.length columns) rows (headerWidths columns) [] in
    let columnWidths := fst result in
    let allRows := snd result in
    allRows = scanned (List.length columns) rows
    /\ List.length columnWidths = List.length columns
    /\ (forall i, i < List.length columns ->
          nth i columnWidths 0
          = Nat.max (String.length (nth i columns ""))
              (list_max (map (fun r => String.length (nth i r "")) allRows)))
    /\ printGrid columns columnWidths allRows
       = Line (newline ++ String.concat " | " (zipWith padTo columns columnWidths))
           :: Line (String.concat "-+-" (map (chars "-") columnWidths))
           :: map (fun r => Line (String.concat " | " (zipWith padTo r columnWidths)))
                allRows
    /\ Forall (fun texts =>
                 Forall2 (fun text width => String.length (padTo text width) = width)
                   texts columnWidths)
         (columns :: allRows)
    /\ (forall input table rest dbs,
          chosen tables input = Some table ->
          let query := "SELECT * FROM " ++ Name table ++ " ORDER BY id" in
          trace (viewTableBody (mkEnv (input :: rest) (DBRows columns rows :: dbs)))
          = ([Say (MsgTableMenu OpView); Query query []; Query query []]
             ++ printGrid columns columnWidths allRows
             ++ [Say (MsgFound (List.length allRows))])%list).
Proof.
  intros columns rows result columnWidths allRows.
  assert (E : result = (fold_left widen (scanned (List.length columns) rows)
                          (headerWidths columns),
                        scanned (List.length columns) rows)).
  { unfold result. now rewrite scanRows_fold. }
  assert (Hhl : List.length (headerWidths columns) = List.length columns).
  { unfold headerWidths. apply length_map. }
  destruct (fold_widen (scanned (List.length columns) rows) (headerWidths columns))
    as [Hlen Hnth].
  { rewrite Hhl. apply scanned_arity. }
  assert (Ea : allRows = scanned (List.length columns) rows) by (unfold allRows; now rewrite E).
  assert (Ew : columnWidths
               = fold_left widen (scanned (List.length columns) rows) (headerWidths columns))
    by (unfold columnWidths; now rewrite E).
  rewrite Hhl in Hlen, Hnth. rewrite <- Ew in Hlen, Hnth. rewrite <- Ea in Hnth.
  assert (Hw : forall i, i < List.length columns ->
                 nth i columnWidths 0
                 = Nat.max (String.length (nth i columns ""))
                     (list_max (map (fun r => String.length (nth i r "")) allRows))).
  { intros i Hi. rewrite Hnth by exact Hi. now rewrite headerWidths_nth. }
  assert (Hfit : forall texts, In texts (columns :: allRows) ->
                   List.length texts = List.length columnWidths
                   /\ forall i, i < List.length columnWidths ->
                        String.length (nth i texts "") <= nth i columnWidths 0).
  { intros texts [<-|Hin].
    - split; [now rewrite Hlen|]. intros i Hi. rewrite Hw by lia. lia.
    - split.
      + rewrite Hlen. pose proof (scanned_arity (List.length columns) rows) as Ha.
        rewrite Forall_forall in Ha. apply Ha. now rewrite <- Ea.
      + intros i Hi. rewrite Hw by lia.
        assert (String.length (nth i texts "")
                <= list_max (map (fun r => String.length (nth i r "")) allRows)).
        { apply list_max_ge. apply in_map_iff. now exists texts. }
        lia. }
  split; [exact Ea|]. split; [exact Hlen|]. split; [exact Hw|].
  split; [|split; [|intros input table rest dbs Hc;
                    exact (viewTable_prints_grid input table columns rows rest dbs Hc)]].
  - unfold printGrid, headerLine, dividerLine, rowLine, GoStr.Join.
    destruct (Hfit columns (or_introl eq_refl)) as [H1 H2].
    rewrite (zipWith_pad columns columnWidths H1 H2).
    rewrite (map_ext (GoStr.Repeat "-") (chars "-") (Repeat_chars "-")).
    rewrite (map_ext_in
               (fun rowData => Line (String.concat " | " (zipWith padRight rowData columnWidths)))
               (fun r => Line (String.concat " | " (zipWith padTo r columnWidths)))).
    + reflexivity.
    + intros r Hr. destruct (Hfit r (or_intror Hr)) as [H3 H4].
      now rewrite zipWith_pad.
  - apply Forall_forall. intros texts Hin. destruct (Hfit texts Hin) as [H1 H2].
    clear - H1 H2. revert H1 H2. generalize columnWidths as ws.
    induction texts as [|t texts IH]; intros [|w ws] H1 H2; simpl in *;
      try constructor; try lia.
    + apply length_padTo. apply (H2 0). lia.
    + apply IH; [lia|]. intros i Hi. apply (H2 (S i)). lia.
Qed.

Example printGrid_example :
  printGrid ["a"; "bb"] [2; 2] [["1"; "2"]; ["33"; "4"]]
  = [Line (newline ++ "a  | bb"); Line "---+---"; Line "1  | 2 "; Line "33 | 4 "].
Proof. reflexivity. Qed.

(* ================================================================= *)
(** ** The numeric rule *)

Lemma numericNames_numericColumn column :
  In column numericNames -> numericColumn column = true.
Proof. simpl. intros [<-|[<-|[<-|[<-|[<-|[<-|[]]]]]]]; reflexivity. Qed.

Lemma numericNames_first table column :
  firstTable table -> In column (Columns table) -> In column numericNames ->
  numericColumnFirst column = true.
Proof.
  intros (relation & name1 & name2 & Hrel & Hsplit & ->) Hcol Hnum.
  simpl in Hrel. destruct Hrel as [<-|[<-|[<-|[]]]];
    vm_compute in Hsplit; injection Hsplit as <- <-;
    simpl in Hnum; destruct Hnum as [<-|[<-|[<-|[<-|[<-|[<-|[]]]]]]];
    try reflexivity;
    vm_compute in Hcol; repeat (destruct Hcol as [Hcol|Hcol]; [discriminate|]);
    contradiction.
Qed.


Lemma filterLoop_accepts table filterCount n i conditions values columnInput column
      value input dbs :
  chosen (Columns table) columnInput = Some column ->
  GoStr.whiteListRegex_MatchString value = true ->
  filterLoop table filterCount (S n) i conditions values
    (mkEnv (columnInput :: value :: input) dbs)
  = prepend [Say (MsgFilterHeader (i + 1) filterCount);
             Say (MsgColumnMenu (Name table) (Columns table));
             Say (MsgAskFilterValue column)]
      (filterLoop table filterCount n (S i)
         (conditions ++ [(column ++ " = $" ++ GoStr.itoa (i + 1))%string])
         (values ++ [AStr value]) (mkEnv input dbs)).
Proof.
  intros Hc Hw.
  destruct (selectColumn_ok table columnInput column (value :: input) dbs Hc)
    as (ci & Hsel & Hne & Hidx).
  simpl filterLoop. rewrite bind_say_prepend.
  rewrite (bind_run _ _ _ _ _ _ Hsel), Hne, Hidx, bind_ret.
  rewrite bind_say_prepend, bind_readLine, Hw. simpl negb. cbv iota.
  now rewrite !prepend_prepend.
Qed.


(* ================================================================= *)
(** ** The menu loop, the resolver, and examples *)

(** *** [main] before the menu *)

Lemma main_outcome (b : Boot) :
  main b = if logOpens b && sqlOpens b
              && (hd false (pings b) || hd false (tl (pings b))
                  || hd false (tl (tl (pings b))))
           then AtMenu else Exited 1.
Proof.
  unfold main. destruct (logOpens b), (sqlOpens b); simpl; try reflexivity.
  destruct (pings b) as [|[] [|[] [|[] l]]]; reflexivity.
Qed.

Lemma step_view (e : Env) :
  trace (step InViewTable e) = trace (viewTableBody e)
  /\ control (step InViewTable e)
     = match outcome (viewTableBody e) with
       | Ret _ => InViewTable
       | Return => AtMenu
       | Panic => Panicked
       end.
Proof.
  unfold step, trace, control, outcome.
  now destruct (viewTableBody e) as [[[[]| |] e1] t].
Qed.

Lemma step_view_panic (e : Env) :
  control (step InViewTable e) = Panicked ->
  exists sql, dbCalls (trace (step InViewTable e)) = [(sql, []); (sql, [])].
Proof.
  destruct (step_view e) as [-> ->].
  unfold viewTableBody. rewrite bind_say_prepend, outcome_prepend, trace_prepend.
  destruct e as [[|l rest] d].
  - unfold bind, readLine; simpl. discriminate.
  - rewrite bind_readLine.
    destruct (selectByNumber l (List.length tables)) as [choice|] eqn:Ec;
      [|simpl; discriminate].
    destruct (Z.eqb_spec choice 0) as [E0|E0]; [simpl; discriminate|].
    pose proof (selectByNumber_range _ _ _ Ec) as Hr.
    destruct (nth_error tables (Z.to_nat (choice - 1))) as [table|] eqn:En.
    2:{ apply nth_error_None in En. lia. }
    rewrite (bind_run _ _ _ _ _ _ (index_ok tables (choice - 1)%Z table _ ltac:(lia) En)).
    rewrite prepend_nil. cbv zeta.
    match goal with
    | |- context [bind (dbQuery ?sql ?args) ?k ?e] =>
        destruct (bind_dbQuery sql args k e) as (res & e1 & ->)
    end.
    destruct res as [[columns rows]|]; [|simpl; discriminate].
    destruct (scanRows _ _ _ _) as [widths allRows].
    match goal with
    | |- context [bind (dbQuery ?sql ?args) ?k ?e] =>
        destruct (bind_dbQuery sql args k e) as (again & e2 & ->)
    end.
    rewrite bind_emitAll, bind_say_prepend, !prepend_prepend.
    intros _. eexists.
    rewrite trace_prepend, !dbCalls_app, dbCalls_printGrid.
    destruct again; reflexivity.
Qed.

Lemma run_stuck n c e :
  (c = Panicked \/ exists s, c = Exited s) -> run n c e = (c, e, []).
Proof.
  intros H. induction n as [|n IH]; [reflexivity|].
  simpl. destruct H as [->|[s ->]]; simpl.
  - simpl in IH. now rewrite IH by auto.
  - simpl in IH. now rewrite IH by eauto.
Qed.

Lemma step_from_menu e :
  control (step AtMenu e) = Exited 0 /\ GoStr.Atoi (hd "" (stdin e)) = Some 0%Z
  \/ control (step AtMenu e) = InViewTable
  \/ control (step AtMenu e) = AtMenu.
Proof.
  rewrite step_menu. destruct (GoStr.Atoi (hd "" (stdin e))) as [[|[p|p|]|p]|]; simpl; auto.
Qed.

Lemma step_from_view e :
  control (step InViewTable e) = InViewTable
  \/ control (step InViewTable e) = AtMenu
  \/ control (step InViewTable e) = Panicked.
Proof.
  unfold step, control. destruct (viewTableBody e) as [[[[]| |] e1] t]; simpl; auto.
Qed.

(** The machine reaches an exit only from the menu, on the choice 0. *)
Lemma run_exit n :
  forall c e status,
    control (run n c e) = Exited status ->
    (forall s, c <> Exited s) ->
    status = 0%Z
    /\ exists k e1 t1,
         k < n /\ run k c e = (AtMenu, e1, t1)
         /\ GoStr.Atoi (hd "" (stdin e1)) = Some 0%Z.
Proof.
  induction n as [|n IH]; intros c e status Hexit Hc.
  - simpl in Hexit. unfold control in Hexit. simpl in Hexit. congruence.
  - simpl in Hexit.
    destruct (step c e) as [[c1 e1] t1] eqn:Es.
    assert (Hc1 : control (step c e) = c1) by (now rewrite Es).
    destruct (run n c1 e1) as [[c2 e2] t2] eqn:Er.
    unfold control in Hexit. simpl in Hexit. subst c2.
    assert (Hr : control (run n c1 e1) = Exited status) by (now rewrite Er).
    assert (Hgo : (forall s, c1 <> Exited s) ->
                  status = 0%Z
                  /\ exists k e3 t3,
                       k < S n /\ run k c e = (AtMenu, e3, t3)
                       /\ GoStr.Atoi (hd "" (stdin e3)) = Some 0%Z).
    { intros H1. destruct (IH c1 e1 status Hr H1) as (Hs & k & e3 & t3 & Hk & Hrun & Ha).
      split; [exact Hs|]. exists (S k), e3, (t1 ++ t3)%list.
      split; [lia|]. split; [|exact Ha]. simpl. now rewrite Es, Hrun. }
    destruct c as [| |s|].
    + destruct (step_from_menu e) as [[H0 Ha]|[H1|H1]]; rewrite Hc1 in *.
      * subst c1. rewrite run_stuck in Er by eauto.
        split; [congruence|]. exists 0, e, []. split; [lia|]. split; [reflexivity|exact Ha].
      * apply Hgo. intros s. congruence.
      * apply Hgo. intros s. congruence.
    + destruct (step_from_view e) as [H1|[H1|H1]]; rewrite Hc1 in *.
      * apply Hgo. intros s. congruence.
      * apply Hgo. intros s. congruence.
      * subst c1. rewrite run_stuck in Er by auto. congruence.
    + exfalso. now apply (Hc s).
    + simpl in Es. injection Es as <- <- <-. rewrite run_stuck in Er by auto. congruence.
Qed.

(** C8, amended.  One turn of the menu loop exits (status 0) exactly
    when the line read is the number 0, opens the table view exactly
    when it is 1, and in every other case, an invalid menu choice or a
    whole run of operation 2, 3, 4 or 5 on any input, is back at the
    menu without exit or panic.  In the table view an invalid choice
    does not go back to the menu: the table list is asked again; the
    view never exits, and it panics only after both of its queries were
    sent.  Over any number of steps from the menu an exit has status 0
    and follows a 0 typed at the menu.  Before the menu, main reaches
    the menu when the log file and the connection open and one of the
    first three pings succeeds, and exits with status 1 otherwise. *)
Theorem menu_loop_leaves_only_by_exit_choice :
  forall e : Env,
    let input := hd "" (stdin e) in
    (* the menu: 0 exits, 1 opens the table view, all the rest comes back *)
    (control (step AtMenu e) = Exited 0 <-> GoStr.Atoi input = Some 0%Z)
    /\ (control (step AtMenu e) = InViewTable <-> GoStr.Atoi input = Some 1%Z)
    /\ (GoStr.Atoi input <> Some 0%Z -> GoStr.Atoi input <> Some 1%Z ->
        control (step AtMenu e) = AtMenu)
    (* the table view: an invalid choice is asked again, inside the view *)
    /\ (selectByNumber input (List.length tables) = None ->
        step InViewTable e
        = (InViewTable, advance e, [Say (MsgTableMenu OpView); Say (MsgChoiceRange 4)]))
    /\ (forall status, control (step InViewTable e) <> Exited status)
    /\ (control (step InViewTable e) = Panicked ->
        exists sql, dbCalls (trace (step InViewTable e)) = [(sql, []); (sql, [])])
    (* any number of steps: an exit has status 0 and follows a 0 typed
       at the menu *)
    /\ (forall n status,
          control (run n AtMenu e) = Exited status ->
          status = 0%Z
          /\ exists k e1 t1,
               k < n /\ run k AtMenu e = (AtMenu, e1, t1)
               /\ GoStr.Atoi (hd "" (stdin e1)) = Some 0%Z)
    (* before the menu *)
    /\ (forall b,
          main b = if logOpens b && sqlOpens b
                      && (hd false (pings b) || hd false (tl (pings b))
                          || hd false (tl (tl (pings b))))
                   then AtMenu else Exited 1).
Proof.
  intros e input. pose proof (step_menu e) as H. fold input in H.
  assert (Hcases : forall o, menuTarget o = Exited 0 /\ o = Some 0%Z
                             \/ menuTarget o = InViewTable /\ o = Some 1%Z
                             \/ menuTarget o = AtMenu /\ o <> Some 0%Z /\ o <> Some 1%Z).
  { intros [[|[p|p|]|p]|]; simpl; try (left; split; reflexivity);
      try (right; left; split; reflexivity);
      right; right; repeat split; discriminate. }
  destruct (Hcases (GoStr.Atoi input)) as [[H1 H2]|[[H1 H2]|[H1 [H2 H3]]]];
    rewrite H1 in H; rewrite H.
  all: split; [split; intros; congruence|].
  all: split; [split; intros; congruence|].
  all: split; [intros; congruence|].
  all: split; [apply step_view_invalid|].
  all: split; [apply step_view_no_exit|].
  all: split; [apply step_view_panic|].
  all: split; [intros n status Hx; apply (run_exit n AtMenu e status Hx); discriminate|].
  all: exact main_outcome.
Qed.

(** A filter stopped by a forbidden character ends at the menu; the
    table choice 9 is asked again by the view. *)
Lemma menu_loop_leaves_only_by_exit_choice_witness :
  control (step AtMenu (mkEnv ["2"; "1"; "3"; "6"; "a;b"] [])) = AtMenu
  /\ step InViewTable (mkEnv ["9"; "0"] [])
     = (InViewTable, mkEnv ["0"] [], [Say (MsgTableMenu OpView); Say (MsgChoiceRange 4)]).
Proof.
  split.
  - refine (proj1 (proj2 (proj2
      (menu_loop_leaves_only_by_exit_choice (mkEnv ["2"; "1"; "3"; "6"; "a;b"] [])))) _ _);
      discriminate.
  - exact (proj1 (proj2 (proj2 (proj2
      (menu_loop_leaves_only_by_exit_choice (mkEnv ["9"; "0"] []))))) eq_refl).
Defined.

(** After menu choice 1 and the invalid table choice 9 the program is
    in the loop of viewTable, not at the menu: the 0 that follows is
    read as a table choice and leads back to the menu, it does not
    exit.  And main exits at start when the log file does not open,
    with a working connection. *)
Lemma view_asks_again_on_invalid_choice :
  selectByNumber "9" (List.length tables) = None
  /\ control (run 2 AtMenu (mkEnv ["1"; "9"; "0"] [])) = InViewTable
  /\ control (run 2 AtMenu (mkEnv ["1"; "9"; "0"] [])) <> AtMenu
  /\ control (run 4 AtMenu (mkEnv ["1"; "9"; "0"] [])) = AtMenu
  /\ main (mkBoot false true [true]) = Exited 1.
Proof. repeat split; try reflexivity. discriminate. Qed.

(** The table view when its second query fails: the grid is printed,
    then the deferred close of the nil rows panics. *)
Example viewTable_panics_when_second_query_fails :
  run 2 AtMenu (mkEnv ["1"; "1"] [DBRows ["id"] [[Some "7"]]])
  = (Panicked, mkEnv [] [],
     [Say MsgMenu; Say (MsgTableMenu OpView);
      Query "SELECT * FROM categories ORDER BY id" [];
      Query "SELECT * FROM categories ORDER BY id" [];
      Line (newline ++ "id"); Line "--"; Line "7 "; Say (MsgFound 1)]).
Proof. reflexivity. Qed.

(** ** The relation resolver *)

(** C3.  The three configured relations split into the pairs
    (components, stock), (categories, components) and (manufacturers,
    components), and the foreign key found for them is component_id,
    category_id and manufacturer_id. *)
Theorem resolver_on_configured_relations :
  map (fun relation => GoStr.Split relation relationSep) relatedTables
  = [["components"; "stock"]; ["categories"; "components"];
     ["manufacturers"; "components"]]
  /\ foreignKeyColumn (findTable "categories") (findTable "components") = "category_id"
  /\ foreignKeyColumn (findTable "manufacturers") (findTable "components")
     = "manufacturer_id"
  /\ foreignKeyColumn (findTable "components") (findTable "stock") = "component_id".
Proof. repeat split; reflexivity. Qed.

(** C9.  For each of the three configured relations the first loop of
    the resolver, the explicit rules, ends with a column: the fallback
    loop is not used. *)
Theorem explicit_rules_cover_configured_relations :
  Forall
    (fun relation =>
       exists name1 name2,
         GoStr.Split relation relationSep = [name1; name2]
         /\ explicitForeignKey (findTable name1) (findTable name2)
              (Columns (findTable name2)) <> ""
         /\ foreignKeyColumn (findTable name1) (findTable name2)
            = explicitForeignKey (findTable name1) (findTable name2)
                (Columns (findTable name2)))
    relatedTables.
Proof.
  repeat constructor.
  - exists "components", "stock".
    split; [reflexivity | split; [discriminate | reflexivity]].
  - exists "categories", "components".
    split; [reflexivity | split; [discriminate | reflexivity]].
  - exists "manufacturers", "components".
    split; [reflexivity | split; [discriminate | reflexivity]].
Qed.

(** ** The numeric rule: where it is missing *)

(** filterData on the column price of components with the value abc:
    the value is not an integer, no not-a-number message is printed,
    and the statement is sent with abc bound. *)
Lemma filter_takes_non_numeric_price :
  let r := filterData (mkEnv ["1"; "3"; "6"; "abc"] []) in
  In "price" numericNames
  /\ GoStr.Atoi "abc" = None
  /\ dbCalls (trace r)
     = [("SELECT * FROM components WHERE price = $1 ORDER BY id", [AStr "abc"])]
  /\ ~ In (Say (MsgNotANumber "price")) (trace r).
Proof.
  cbv zeta. split; [simpl; auto|]. split; [reflexivity|]. split; [reflexivity|].
  vm_compute. intros H.
  repeat (destruct H as [H|H]; [discriminate|]). exact H.
Qed.


(** Two rows, one with NULL, under the headers id and name. *)
Lemma grid_layout_witness :
  let columns := ["id"; "name"] in
  let rows := [[Some "1"; Some "resistor"]; [Some "22"; None]] in
  fst (scanRows 2 rows (headerWidths columns) []) = [2; 8]
  /\ nth 1 (fst (scanRows 2 rows (headerWidths columns) [])) 0
     = Nat.max (String.length "name")
         (list_max (map (fun r => String.length (nth 1 r ""))
                      (snd (scanRows 2 rows (headerWidths columns) [])))).
Proof.
  intros columns rows. split; [reflexivity|].
  exact (proj1 (proj2 (proj2 (grid_layout columns rows))) 1 ltac:(simpl; lia)).
Defined.


(* ================================================================= *)
(** ** Further properties of the operations *)

Lemma length_substring_0 (s : string) (n : nat) :
  n <= String.length s -> String.length (String.substring 0 n s) = n.
Proof.
  revert n. induction s as [|c s IH]; intros [|n] H; simpl in *; try lia.
  rewrite IH; lia.
Qed.

Lemma length_Repeat (s : string) (n : nat) :
  String.length (GoStr.Repeat s n) = n * String.length s.
Proof. induction n as [|n IH]; simpl; [reflexivity|]. rewrite length_append, IH. lia. Qed.

Lemma length_padRight (str : string) (n : nat) :
  String.length (padRight str n) = n.
Proof.
  unfold padRight.
  destruct (Nat.leb_spec n (String.length str)) as [H|H].
  - now apply length_substring_0.
  - rewrite length_append, length_Repeat. simpl. lia.
Qed.

(** X1.  padRight returns a text of exactly the requested number of
    bytes; applying it again with the same length changes nothing; a
    text no longer than the length is the prefix of the result, a text
    at least as long is cut to its first bytes. *)
Theorem padRight_cuts_or_fills :
  forall (str : string) (length : nat),
    String.length (padRight str length) = length
    /\ padRight (padRight str length) length = padRight str length
    /\ (String.length str <= length ->
        String.substring 0 (String.length str) (padRight str length) = str)
    /\ (length <= String.length str ->
        padRight str length = String.substring 0 length str).
Proof.
  intros str n. split; [apply length_padRight|]. split; [|split].
  - pose proof (length_padRight str n) as H.
    unfold padRight at 1. rewrite H, Nat.leb_refl.
    rewrite <- H at 1. apply substring_all.
  - intros H. rewrite padRight_padTo by exact H. unfold padTo.
    generalize (chars " " (n - String.length str)) as tail.
    clear. induction str as [|c s IH]; intros tail; simpl.
    + now destruct tail.
    + now rewrite IH.
  - intros H. unfold padRight. apply Nat.leb_le in H. now rewrite H.
Qed.

Lemma padRight_cuts_or_fills_witness :
  String.substring 0 (String.length "ab") (padRight "ab" 5) = "ab"
  /\ padRight "abcdef" 3 = String.substring 0 3 "abcdef".
Proof.
  split.
  - exact (proj1 (proj2 (proj2 (padRight_cuts_or_fills "ab" 5))) ltac:(simpl; lia)).
  - exact (proj2 (proj2 (proj2 (padRight_cuts_or_fills "abcdef" 3))) ltac:(simpl; lia)).
Defined.

Lemma length_Join (parts : list string) (sep : string) :
  String.length (GoStr.Join parts sep)
  = list_sum (map String.length parts)
    + String.length sep * (List.length parts - 1).
Proof.
  induction parts as [|x [|y l] IH].
  - simpl. lia.
  - simpl. lia.
  - rewrite Join_cons2, !length_append, IH. simpl. lia.
Qed.

Lemma padded_lengths (texts : list string) (widths : list nat) :
  List.length texts = List.length widths ->
  map String.length (zipWith padRight texts widths) = widths.
Proof.
  revert widths. induction texts as [|t texts IH]; intros [|w ws] H; simpl in *;
    try reflexivity; try lia.
  rewrite length_padRight, IH; [reflexivity | lia].
Qed.

Lemma dash_lengths (widths : list nat) :
  map String.length (map (GoStr.Repeat "-") widths) = widths.
Proof.
  induction widths as [|w ws IH]; simpl; [reflexivity|].
  rewrite length_Repeat, IH. simpl. now rewrite Nat.mul_1_r.
Qed.

Lemma scanRows_shape (columns : list string) (rows : list (list (option string))) :
  let result := scanRows (List.length columns) rows (headerWidths columns) [] in
  snd result = scanned (List.length columns) rows
  /\ List.length (fst result) = List.length columns.
Proof.
  cbv zeta. rewrite scanRows_fold. simpl. split; [reflexivity|].
  assert (Hhl : List.length (headerWidths columns) = List.length columns)
    by apply length_map.
  destruct (fold_widen (scanned (List.length columns) rows) (headerWidths columns))
    as [Hlen _].
  - rewrite Hhl. apply scanned_arity.
  - now rewrite Hlen.
Qed.

(** X2.  For every result set, the header line, the divider line and
    every row line of the grid have the same length: the sum of the
    column widths plus three bytes between two neighbouring columns. *)
Theorem grid_lines_have_one_length :
  forall (columns : list string) (rows : list (list (option string))),
    let result := scanRows (List.length columns) rows (headerWidths columns) [] in
    let columnWidths := fst result in
    let allRows := snd result in
    String.length (headerLine columns columnWidths) = lineLength columnWidths
    /\ String.length (dividerLine columnWidths) = lineLength columnWidths
    /\ Forall (fun rowData =>
                 String.length (rowLine rowData columnWidths) = lineLength columnWidths)
         allRows.
Proof.
  intros columns rows result columnWidths allRows.
  destruct (scanRows_shape columns rows) as (Ea & Hlen).
  fold result in Ea, Hlen. fold allRows in Ea. fold columnWidths in Hlen.
  unfold lineLength. split; [|split].
  - unfold headerLine. rewrite length_Join, padded_lengths by (now rewrite Hlen).
    rewrite zipWith_length by (now rewrite Hlen). rewrite Hlen. reflexivity.
  - unfold dividerLine. rewrite length_Join, dash_lengths, length_map. reflexivity.
  - apply Forall_forall. intros r Hr.
    assert (Hr' : List.length r = List.length columnWidths).
    { rewrite Hlen. pose proof (scanned_arity (List.length columns) rows) as Ha.
      rewrite Forall_forall in Ha. apply Ha. now rewrite <- Ea. }
    unfold rowLine. rewrite length_Join, padded_lengths by exact Hr'.
    rewrite zipWith_length by exact Hr'. rewrite Hr'. reflexivity.
Qed.

(** ** Numbers typed and numbers printed *)

Lemma parseDigits_uint (d : uint) (a : nat) :
  GoStr.parseDigits (NilEmpty.string_of_uint d) (Z.of_nat a)
  = Some (Z.of_nat (Nat.of_uint_acc d a)).
Proof.
  revert a. induction d; intros a; simpl; try reflexivity;
    match goal with
    | |- GoStr.parseDigits _ ?z = Some (Z.of_nat (Nat.of_uint_acc _ ?n)) =>
        replace z with (Z.of_nat n)
          by (rewrite Nat.tail_mul_spec; unfold GoStr.digitVal; simpl; lia)
    end; apply IHd.
Qed.

Lemma Atoi_itoa (n : nat) :
  (Z.of_nat n <= GoStr.maxInt)%Z -> GoStr.Atoi (GoStr.itoa n) = Some (Z.of_nat n).
Proof.
  intros Hn. destruct (itoa_unfold n) as (d & Hd & E & ->).
  assert (Hp : GoStr.parseDigits (NilEmpty.string_of_uint d) 0 = Some (Z.of_nat n)).
  { change 0%Z with (Z.of_nat 0). rewrite (parseDigits_uint d 0).
    f_equal. f_equal. rewrite <- E. apply Unsigned.of_to. }
  assert (Hr : ((GoStr.minInt <=? Z.of_nat n)%Z && (Z.of_nat n <=? GoStr.maxInt)%Z) = true).
  { apply andb_true_iff. split; [apply Z.leb_le | apply Z.leb_le; exact Hn].
    unfold GoStr.minInt. lia. }
  destruct d; try congruence; unfold GoStr.Atoi; simpl NilEmpty.string_of_uint in *;
    cbv beta iota zeta; simpl Ascii.eqb; cbv beta iota zeta; simpl orb; cbv iota;
    rewrite Hp; cbv beta iota zeta; rewrite Hr; reflexivity.
Qed.

(** Typing the number printed before an entry of a numbered list
    chooses this entry. *)
Lemma chosen_printed_number {A} (items : list A) (i : nat) :
  i < List.length items -> (Z.of_nat (List.length items) <= GoStr.maxInt)%Z ->
  selectByNumber (GoStr.itoa (i + 1)) (List.length items) = Some (Z.of_nat (i + 1)).
Proof.
  intros Hi Hmax. unfold selectByNumber. rewrite Atoi_itoa by lia.
  destruct (Z.ltb_spec (Z.of_nat (i + 1)) 0); [lia|].
  destruct (Z.gtb_spec (Z.of_nat (i + 1)) (Z.of_nat (List.length items))); [lia|].
  reflexivity.
Qed.

(** X3.  The number printed in front of an entry selects it: when i+1 is
    typed, selectTable and selectColumn return the index i after their
    one prompt, with no error message, and the entry chosen is the one
    at index i. *)
Theorem printed_number_selects_entry :
  forall (op : Operation) (table : TableInfo) (i : nat) (rest : list string)
         (dbs : list DBResult),
    (i < List.length tables ->
     selectTable op (mkEnv (GoStr.itoa (i + 1) :: rest) dbs)
     = (Ret (Z.of_nat i), mkEnv rest dbs, [Say (MsgTableMenu op)]))
    /\ (i < List.length (Columns table) ->
        (Z.of_nat (List.length (Columns table)) <= GoStr.maxInt)%Z ->
        selectColumn table (mkEnv (GoStr.itoa (i + 1) :: rest) dbs)
        = (Ret (Z.of_nat i), mkEnv rest dbs,
           [Say (MsgColumnMenu (Name table) (Columns table))]))
    /\ (i < List.length tables ->
        chosen tables (GoStr.itoa (i + 1)) = nth_error tables i).
Proof.
  intros op table i rest dbs. split; [|split].
  - intros Hi. unfold selectTable. rewrite bind_say_prepend, bind_readLine.
    rewrite chosen_printed_number by (auto; simpl; unfold GoStr.maxInt; lia).
    destruct (Z.eqb_spec (Z.of_nat (i + 1)) 0); [lia|].
    unfold prepend, ret, outcome, after, trace. simpl. repeat f_equal. lia.
  - intros Hi Hmax. unfold selectColumn. rewrite bind_say_prepend, bind_readLine.
    rewrite chosen_printed_number by auto.
    destruct (Z.eqb_spec (Z.of_nat (i + 1)) 0); [lia|].
    unfold prepend, ret, outcome, after, trace. simpl. repeat f_equal. lia.
  - intros Hi. unfold chosen.
    rewrite chosen_printed_number by (auto; simpl; unfold GoStr.maxInt; lia).
    destruct (Z.eqb_spec (Z.of_nat (i + 1)) 0); [lia|].
    f_equal. lia.
Qed.

Lemma printed_number_selects_entry_witness :
  selectTable OpInsert (mkEnv ["3"; "x"] [])
  = (Ret 2%Z, mkEnv ["x"] [], [Say (MsgTableMenu OpInsert)]).
Proof.
  exact (proj1 (printed_number_selects_entry OpInsert zeroTable 2 ["x"] [])
           ltac:(simpl; lia)).
Defined.

(** ** The white list *)

Lemma isDigit_allowed (c : ascii) :
  GoStr.isDigit c = true -> GoStr.asciiAllowed (nat_of_ascii c) = true.
Proof.
  unfold GoStr.isDigit, GoStr.asciiAllowed. intros H. rewrite H.
  now rewrite !orb_true_r.
Qed.

Lemma parseDigits_allInClass (s : string) (acc : Z) :
  GoStr.parseDigits s acc <> None -> GoStr.allInClass s = true.
Proof.
  revert acc. induction s as [|c s IH]; intros acc H; simpl in *; [reflexivity|].
  destruct (GoStr.isDigit c) eqn:E; [|congruence].
  rewrite (isDigit_allowed c E). eapply IH; eauto.
Qed.

Lemma integer_text_whitelisted (s : string) :
  GoStr.Atoi s <> None ->
  GoStr.whiteListRegex_MatchString s = negb (startsWithPlus s).
Proof.
  destruct s as [|c r]; [intros H; now contradiction H|].
  unfold GoStr.Atoi, GoStr.whiteListRegex_MatchString, startsWithPlus.
  destruct (Ascii.eqb_spec c "-") as [->|Hm]; simpl orb; cbv iota.
  - destruct r as [|c2 r2]; [intros H; now contradiction H|].
    intros H.
    assert (Hp : GoStr.parseDigits (String c2 r2) 0 <> None).
    { intros E. rewrite E in H. now apply H. }
    apply parseDigits_allInClass in Hp.
    change (GoStr.allInClass (String "-" (String c2 r2)))
      with (GoStr.allInClass (String c2 r2)).
    rewrite Hp. reflexivity.
  - destruct (Ascii.eqb_spec c "+") as [->|Hp].
    + intros _. simpl. now destruct r.
    + intros H.
      assert (Hd : GoStr.parseDigits (String c r) 0 <> None).
      { intros E. rewrite E in H. now apply H. }
      now apply parseDigits_allInClass in Hd.
Qed.

(** X4.  The value test on a text that strconv.Atoi reads: it passes for
    every column, numeric or not, unless the text starts with a plus
    sign, which the white list does not have; then the invalid-
    characters message is printed and the operation returns. *)
Theorem integer_value_passes_unless_plus :
  forall (isNumeric : string -> bool) (column value : string) (e : Env),
    GoStr.Atoi value <> None ->
    checkValue isNumeric column value e
    = if startsWithPlus value
      then (Return, e, [Say MsgInvalidChars])
      else (Ret tt, e, []).
Proof.
  intros isNumeric column value e H. unfold checkValue.
  rewrite (integer_text_whitelisted value H).
  destruct (startsWithPlus value); simpl; [reflexivity|].
  destruct (isNumeric column); [|reflexivity].
  destruct (GoStr.Atoi value); [reflexivity | congruence].
Qed.

Lemma integer_value_passes_unless_plus_witness :
  checkValue numericColumn "price" "+5" (mkEnv [] []) = (Return, mkEnv [] [], [Say MsgInvalidChars])
  /\ checkValue numericColumn "price" "-5" (mkEnv [] []) = (Ret tt, mkEnv [] [], []).
Proof.
  split.
  - exact (integer_value_passes_unless_plus numericColumn "price" "+5" (mkEnv [] [])
             ltac:(discriminate)).
  - exact (integer_value_passes_unless_plus numericColumn "price" "-5" (mkEnv [] [])
             ltac:(discriminate)).
Defined.

Lemma allInClass_bytes (n : nat) :
  forall s, String.length s <= n ->
    GoStr.allInClass s = true ->
    Forall (fun b => GoStr.asciiAllowed b = true \/ 128 <= b) (bytes s).
Proof.
  induction n as [|n IH]; intros s Hn H.
  - destruct s; [constructor | simpl in Hn; lia].
  - destruct s as [|c r]; [constructor|].
    simpl in H. unfold bytes. simpl.
    destruct (GoStr.asciiAllowed (nat_of_ascii c)) eqn:Ec.
    + constructor; [now left|]. apply IH; [simpl in Hn; lia | exact H].
    + destruct r as [|c2 r2]; [discriminate|].
      destruct (GoStr.cyrillicAllowed (nat_of_ascii c) (nat_of_ascii c2)) eqn:Ey;
        [|discriminate].
      unfold GoStr.cyrillicAllowed in Ey.
      assert (H1 : 128 <= nat_of_ascii c /\ 128 <= nat_of_ascii c2).
      { apply orb_true_iff in Ey as [Ey|Ey]; apply andb_true_iff in Ey as [E1 E2];
          apply Nat.eqb_eq in E1;
          apply orb_true_iff in E2 as [E2|E2];
          try (apply andb_true_iff in E2 as [E2 E3]; apply Nat.leb_le in E2);
          try apply Nat.eqb_eq in E2; lia. }
      simpl. constructor; [right; tauto|]. constructor; [right; tauto|].
      apply (IH r2); [simpl in Hn; lia | exact H].
Qed.

(** X5.  A value that passes the value test is not empty, and each of
    its bytes below 128 is a Latin letter, a digit, white space, a
    hyphen or a period: it holds no quote, dollar or percent sign,
    parenthesis, asterisk, slash, semicolon, equals sign, backslash or
    underscore. *)
Theorem checked_value_has_no_other_ascii :
  forall (isNumeric : string -> bool) (column value : string) (e : Env),
    outcome (checkValue isNumeric column value e) = Ret tt ->
    value <> ""
    /\ Forall (fun b => b < 128 -> GoStr.asciiAllowed b = true) (bytes value)
    /\ Forall (fun b => ~ In b [34; 36; 37; 39; 40; 41; 42; 47; 59; 61; 92; 95])
         (bytes value).
Proof.
  intros isNumeric column value e H.
  assert (Hw : GoStr.whiteListRegex_MatchString value = true).
  { unfold checkValue in H.
    destruct (GoStr.whiteListRegex_MatchString value); [reflexivity|].
    simpl in H. discriminate. }
  split; [now apply whiteList_nonempty|].
  assert (Hb : Forall (fun b => GoStr.asciiAllowed b = true \/ 128 <= b) (bytes value)).
  { apply (allInClass_bytes (String.length value)); [lia|].
    unfold GoStr.whiteListRegex_MatchString in Hw. now destruct value. }
  split; eapply Forall_impl; try exact Hb; cbv beta.
  - intros b [Hb1|Hb1] Hlt; [exact Hb1 | lia].
  - intros b [Hb1|Hb1] Hin; simpl in Hin;
      repeat (destruct Hin as [<-|Hin]; [try discriminate Hb1; try lia|]);
      try contradiction.
Qed.

Lemma checked_value_has_no_other_ascii_witness :
  Forall (fun b => ~ In b [34; 36; 37; 39; 40; 41; 42; 47; 59; 61; 92; 95])
    (bytes "R-10 0.5").
Proof.
  exact (proj2 (proj2 (checked_value_has_no_other_ascii numericColumn "name" "R-10 0.5"
                         (mkEnv [] []) eq_refl))).
Defined.

(** ** How many statements an operation sends *)

Lemma sends_bind {A B} (a b : nat) (m : M A) (f : A -> M B) :
  sendsAtMost a m -> (forall x, sendsAtMost b (f x)) -> sendsAtMost (a + b) (bind m f).
Proof.
  intros Hm Hf e. unfold bind. specialize (Hm e). unfold trace in *.
  destruct (m e) as [[[x| |] e1] t1]; simpl in *; try lia.
  specialize (Hf x e1). destruct (f x e1) as [[o e2] t2]. simpl in *.
  rewrite dbCalls_app, length_app. lia.
Qed.

Lemma sends_more {A} (a b : nat) (m : M A) : a <= b -> sendsAtMost a m -> sendsAtMost b m.
Proof. intros H Hm e. specialize (Hm e). lia. Qed.

Lemma quiet_bind {A B} (b : nat) (m : M A) (f : A -> M B) :
  sendsAtMost 0 m -> (forall x, sendsAtMost b (f x)) -> sendsAtMost b (bind m f).
Proof. intros Hm Hf. now apply (sends_bind 0 b). Qed.

Lemma quiet_ret {A} (a : A) : sendsAtMost 0 (ret a).
Proof. intros e. simpl. lia. Qed.

Lemma quiet_goReturn {A} : sendsAtMost 0 (@goReturn A).
Proof. intros e. simpl. lia. Qed.

Lemma quiet_panic {A} : sendsAtMost 0 (@panic A).
Proof. intros e. simpl. lia. Qed.

Lemma quiet_say (msg : Msg) : sendsAtMost 0 (say msg).
Proof. intros e. simpl. lia. Qed.

Lemma quiet_readLine : sendsAtMost 0 readLine.
Proof. intros e. unfold readLine. destruct (stdin e); simpl; lia. Qed.

Lemma quiet_index {A} (l : list A) (i : Z) : sendsAtMost 0 (index l i).
Proof.
  intros e. unfold index. destruct (i <? 0)%Z; [simpl; lia|].
  destruct (nth_error l (Z.to_nat i)); simpl; lia.
Qed.

Lemma quiet_sliceFrom1 {A} (l : list A) : sendsAtMost 0 (sliceFrom1 l).
Proof. intros e. destruct l; simpl; lia. Qed.

Lemma quiet_grid columns widths rows : sendsAtMost 0 (emitAll (printGrid columns widths rows)).
Proof. intros e. unfold emitAll, trace. simpl snd. rewrite dbCalls_printGrid. simpl. lia. Qed.

Lemma one_dbQuery sql args : sendsAtMost 1 (dbQuery sql args).
Proof. intros e. unfold dbQuery. destruct (nextAnswer e) as [[] e1]; simpl; lia. Qed.

Lemma one_dbExec sql args : sendsAtMost 1 (dbExec sql args).
Proof. intros e. unfold dbExec. destruct (nextAnswer e) as [[] e1]; simpl; lia. Qed.

Lemma one_dbQueryRow sql args : sendsAtMost 1 (dbQueryRow sql args).
Proof. intros e. unfold dbQueryRow. destruct (nextAnswer e) as [[] e1]; simpl; lia. Qed.

Create HintDb quiet.
#[local] Hint Resolve quiet_ret quiet_goReturn quiet_panic quiet_say quiet_readLine
  quiet_index quiet_sliceFrom1 quiet_grid : quiet.

Ltac quiet :=
  repeat first
    [ solve [auto with quiet]
    | apply quiet_bind; [solve [auto with quiet] | intros ?]
    | match goal with
      | |- sendsAtMost _ (match ?x with _ => _ end) => destruct x
      | |- sendsAtMost _ (if ?b then _ else _) => destruct b
      end ].

Lemma quiet_say_return {A} (msg : Msg) : sendsAtMost 0 (say msg ;;; @goReturn A).
Proof. quiet. Qed.

Lemma quiet_readCount (op : Operation) : sendsAtMost 0 (readCount op).
Proof. unfold readCount. quiet. Qed.

Lemma quiet_selectTable (op : Operation) : sendsAtMost 0 (selectTable op).
Proof. unfold selectTable. quiet. Qed.

Lemma quiet_selectColumn (table : TableInfo) : sendsAtMost 0 (selectColumn table).
Proof. unfold selectColumn. quiet. Qed.

Lemma quiet_checkValue isNumeric column value :
  sendsAtMost 0 (checkValue isNumeric column value).
Proof. unfold checkValue. quiet. Qed.

#[local] Hint Resolve quiet_readCount quiet_selectTable quiet_selectColumn
  quiet_checkValue : quiet.

Lemma quiet_filterLoop table filterCount n :
  forall i conditions values,
    sendsAtMost 0 (filterLoop table filterCount n i conditions values).
Proof. induction n as [|n IH]; intros i conditions values; simpl; quiet; try apply IH. Qed.

Lemma quiet_readIds n : forall i ids, sendsAtMost 0 (readIds n i ids).
Proof. induction n as [|n IH]; intros i ids; simpl; quiet; try apply IH. Qed.

Lemma quiet_readValues isNumeric columns :
  forall values, sendsAtMost 0 (readValues isNumeric columns values).
Proof. induction columns as [|c cs IH]; intros values; simpl; quiet; try apply IH. Qed.

Lemma quiet_readValuesSecond foreignKey id columns :
  forall values, sendsAtMost 0 (readValuesSecond foreignKey id columns values).
Proof.
  induction columns as [|c cs IH]; intros values; simpl; quiet; try apply IH.
Qed.

Lemma quiet_updateArgs updateCount newValue ids :
  sendsAtMost 0 (updateArgs updateCount newValue ids).
Proof. unfold updateArgs. quiet. Qed.

#[local] Hint Resolve quiet_filterLoop quiet_readIds quiet_readValues
  quiet_readValuesSecond quiet_updateArgs quiet_say_return : quiet.

Lemma filterData_budget : sendsAtMost 1 filterData.
Proof.
  unfold filterData.
  apply quiet_bind; [auto with quiet | intros filterCount].
  apply quiet_bind; [auto with quiet | intros ti].
  destruct (ti =? -1)%Z; [apply (sends_more 0); [lia | auto with quiet]|].
  apply quiet_bind; [auto with quiet | intros table].
  apply quiet_bind; [auto with quiet | intros [conditions values]].
  apply (sends_bind 1 0); [apply one_dbQuery|].
  intros [[columns rows]|]; [|auto with quiet].
  destruct (scanRows _ _ _ _) as [widths allRows]. quiet.
Qed.

Lemma updateData_budget : sendsAtMost 1 updateData.
Proof.
  unfold updateData.
  apply quiet_bind; [auto with quiet | intros updateCount].
  apply quiet_bind; [auto with quiet | intros ti].
  destruct (ti =? -1)%Z; [apply (sends_more 0); [lia | auto with quiet]|].
  apply quiet_bind; [auto with quiet | intros table]. cbv zeta.
  destruct (updatableColumns table); [apply (sends_more 0); [lia | auto with quiet]|].
  apply quiet_bind; [auto with quiet | intros ids].
  apply quiet_bind; [auto with quiet | intros _].
  apply quiet_bind; [auto with quiet | intros columnInput].
  destruct (selectByNumber _ _) as [c|]; [|apply (sends_more 0); [lia | auto with quiet]].
  destruct (c =? 0)%Z; [apply (sends_more 0); [lia | auto with quiet]|].
  apply quiet_bind; [auto with quiet | intros columnName].
  apply quiet_bind; [auto with quiet | intros _].
  apply quiet_bind; [auto with quiet | intros newValue].
  apply quiet_bind; [auto with quiet | intros _].
  apply quiet_bind; [auto with quiet | intros args].
  apply (sends_bind 1 0); [apply one_dbExec|].
  intros [n|]; auto with quiet.
Qed.

Lemma viewTableBody_budget : sendsAtMost 2 viewTableBody.
Proof.
  unfold viewTableBody.
  apply quiet_bind; [auto with quiet | intros _].
  apply quiet_bind; [auto with quiet | intros input].
  destruct (selectByNumber _ _) as [c|]; [|apply (sends_more 0); [lia | quiet]].
  destruct (c =? 0)%Z; [apply (sends_more 0); [lia | auto with quiet]|].
  apply quiet_bind; [auto with quiet | intros table]. cbv zeta.
  apply (sends_bind 1 1); [apply one_dbQuery|].
  intros [[columns rows]|]; [|apply (sends_more 0); [lia | quiet]].
  destruct (scanRows _ _ _ _) as [widths allRows].
  apply (sends_bind 1 0); [apply one_dbQuery|].
  intros again. quiet.
Qed.

Lemma insertRecord_budget table insertColumns recordCount i :
  sendsAtMost 1 (insertRecord table insertColumns recordCount i).
Proof.
  unfold insertRecord.
  apply quiet_bind; [auto with quiet | intros _].
  apply quiet_bind; [auto with quiet | intros values].
  apply (sends_bind 1 0); [apply one_dbExec|].
  intros [n|]; auto with quiet.
Qed.

Lemma insertLoop_budget table insertColumns recordCount n :
  forall i, sendsAtMost n (insertLoop table insertColumns recordCount n i).
Proof.
  induction n as [|n IH]; intros i; simpl; [auto with quiet|].
  apply (sends_bind 1 n); [apply insertRecord_budget | intros _; apply IH].
Qed.

Lemma relatedRecord_budget table1 table2 recordCount i :
  sendsAtMost 2 (relatedRecord table1 table2 recordCount i).
Proof.
  unfold relatedRecord.
  apply quiet_bind; [auto with quiet | intros _].
  apply quiet_bind; [auto with quiet | intros _].
  apply quiet_bind; [auto with quiet | intros insertColumns1].
  apply quiet_bind; [auto with quiet | intros values1].
  apply (sends_bind 1 1); [apply one_dbQueryRow|].
  intros [insertedID|]; [|apply (sends_more 0); [lia | auto with quiet]].
  apply quiet_bind; [auto with quiet | intros _].
  apply quiet_bind; [auto with quiet | intros _]. cbv zeta.
  apply quiet_bind; [auto with quiet | intros _].
  apply quiet_bind; [auto with quiet | intros insertColumns2].
  apply quiet_bind; [auto with quiet | intros values2].
  apply (sends_bind 1 0); [apply one_dbExec|].
  intros [n|]; auto with quiet.
Qed.

Lemma relatedLoop_budget table1 table2 recordCount n :
  forall i, sendsAtMost (2 * n) (relatedLoop table1 table2 recordCount n i).
Proof.
  induction n as [|n IH]; intros i; simpl relatedLoop; [auto with quiet|].
  apply (sends_more (2 + 2 * n)); [lia|].
  apply (sends_bind 2 (2 * n)); [apply relatedRecord_budget | intros _; apply IH].
Qed.

(** What [readCount] does with every environment. *)
Lemma readCount_cases (op : Operation) (e : Env) :
  (exists count,
      GoStr.Atoi (hd "" (stdin e)) = Some count /\ (1 <= count)%Z
      /\ readCount op e = (Ret count, advance e, [Say (MsgAskCount op)]))
  \/ (requested e = 0
      /\ readCount op e = (Return, advance e, [Say (MsgAskCount op); Say MsgCountInvalid])).
Proof.
  unfold readCount, requested. rewrite bind_say_prepend.
  assert (Hread : forall B (k : string -> M B),
             bind readLine k e = k (hd "" (stdin e)) (advance e)).
  { intros B k. destruct e as [[|l rest] d]; unfold advance; simpl hd; simpl tl.
    - rewrite (bind_run _ _ _ "" (mkEnv [] d) []) by reflexivity. apply prepend_nil.
    - apply bind_readLine. }
  rewrite Hread.
  destruct (GoStr.Atoi (hd "" (stdin e))) as [count|]; [|right; split; reflexivity].
  destruct (Z.ltb_spec count 1).
  - right. split; [lia | reflexivity].
  - left. exists count. repeat split; auto.
Qed.

(** X7.  In every run, filterData and updateData send at most one
    statement, one turn of viewTable at most two, insertData at most as
    many as the record count typed first, and insertRelatedData at most
    twice that count. *)
Theorem statement_budget :
  forall e : Env,
    List.length (dbCalls (trace (filterData e))) <= 1
    /\ List.length (dbCalls (trace (updateData e))) <= 1
    /\ List.length (dbCalls (trace (viewTableBody e))) <= 2
    /\ List.length (dbCalls (trace (insertData e))) <= requested e
    /\ List.length (dbCalls (trace (insertRelatedData e))) <= 2 * requested e.
Proof.
  intros e.
  split; [apply filterData_budget|]. split; [apply updateData_budget|].
  split; [apply viewTableBody_budget|]. split.
  - unfold insertData.
    destruct (readCount_cases OpInsert e) as [(count & Ha & Hk & Hr)|[Hz Hr]].
    + rewrite (bind_run _ _ _ _ _ _ Hr), trace_prepend, dbCalls_app. simpl.
      unfold requested. rewrite Ha.
      assert (H : sendsAtMost (Z.to_nat count)
                    (tableIndex <- selectTable OpInsert ;;
                     if (tableIndex =? -1)%Z then goReturn
                     else
                       table <- index tables tableIndex ;;
                       insertColumns <- sliceFrom1 (Columns table) ;;
                       insertLoop table insertColumns count (Z.to_nat count) 0 ;;;
                       say (MsgTotalInserted count))).
      { apply quiet_bind; [auto with quiet | intros ti].
        destruct (ti =? -1)%Z; [apply (sends_more 0); [lia | auto with quiet]|].
        apply quiet_bind; [auto with quiet | intros table].
        apply quiet_bind; [auto with quiet | intros insertColumns].
        replace (Z.to_nat count) with (Z.to_nat count + 0) at 1 by lia.
        apply sends_bind; [apply insertLoop_budget | intros _; auto with quiet]. }
      apply H.
    + rewrite (bind_stop _ _ _ _ _ Hr). simpl. lia.
  - unfold insertRelatedData.
    destruct (readCount_cases OpInsertRelated e) as [(count & Ha & Hk & Hr)|[Hz Hr]].
    + rewrite (bind_run _ _ _ _ _ _ Hr), trace_prepend, dbCalls_app. simpl.
      unfold requested. rewrite Ha.
      match goal with
      | |- List.length (dbCalls (trace (?m ?e1))) <= _ =>
          assert (H : sendsAtMost (2 * Z.to_nat count) m); [|apply H]
      end.
      apply quiet_bind; [auto with quiet | intros _].
      apply quiet_bind; [auto with quiet | intros choiceInput].
      destruct (selectByNumber _ _) as [c|]; [|apply (sends_more 0); [lia | auto with quiet]].
      destruct (c =? 0)%Z; [apply (sends_more 0); [lia | auto with quiet]|].
      apply quiet_bind; [auto with quiet | intros relation].
      destruct (GoStr.Split relation relationSep) as [|n1 [|n2 [|n3 l]]];
        try solve [apply (sends_more 0); [lia | auto with quiet]].
      replace (2 * Z.to_nat count) with (2 * Z.to_nat count + 0) by lia.
      apply sends_bind; [apply relatedLoop_budget | intros _; auto with quiet].
    + rewrite (bind_stop _ _ _ _ _ Hr). simpl. lia.
Qed.

(** ** Requests that stop before the database *)

Lemma readCount_bad (op : Operation) (e : Env) :
  badCount e ->
  readCount op e = (Return, advance e, [Say (MsgAskCount op); Say MsgCountInvalid]).
Proof.
  intros Hbad. destruct (readCount_cases op e) as [(count & Ha & Hk & _)|[_ Hr]].
  - specialize (Hbad count Ha). lia.
  - exact Hr.
Qed.

(** X8.  When the count typed first is not an integer or is below 1,
    each of filterData, updateData, insertData and insertRelatedData
    prints its count prompt and the count error and returns: one line
    was read, no statement was sent. *)
Theorem bad_count_stops_operation :
  forall e : Env,
    badCount e ->
    filterData e
    = (Return, advance e, [Say (MsgAskCount OpFilter); Say MsgCountInvalid])
    /\ updateData e
       = (Return, advance e, [Say (MsgAskCount OpUpdate); Say MsgCountInvalid])
    /\ insertData e
       = (Return, advance e, [Say (MsgAskCount OpInsert); Say MsgCountInvalid])
    /\ insertRelatedData e
       = (Return, advance e, [Say (MsgAskCount OpInsertRelated); Say MsgCountInvalid]).
Proof.
  intros e Hbad. repeat split.
  - unfold filterData. now rewrite (bind_stop _ _ _ _ _ (readCount_bad OpFilter e Hbad)).
  - unfold updateData. now rewrite (bind_stop _ _ _ _ _ (readCount_bad OpUpdate e Hbad)).
  - unfold insertData. now rewrite (bind_stop _ _ _ _ _ (readCount_bad OpInsert e Hbad)).
  - unfold insertRelatedData.
    now rewrite (bind_stop _ _ _ _ _ (readCount_bad OpInsertRelated e Hbad)).
Qed.

Lemma bad_count_stops_operation_witness :
  insertData (mkEnv ["0"; "1"; "x"] [DBAffected 1])
  = (Return, mkEnv ["1"; "x"] [DBAffected 1],
     [Say (MsgAskCount OpInsert); Say MsgCountInvalid])
  /\ filterData (mkEnv [] [])
     = (Return, mkEnv [] [], [Say (MsgAskCount OpFilter); Say MsgCountInvalid]).
Proof.
  split.
  - refine (proj1 (proj2 (proj2
      (bad_count_stops_operation (mkEnv ["0"; "1"; "x"] [DBAffected 1]) _)))).
    intros count H. injection H as <-. reflexivity.
  - refine (proj1 (bad_count_stops_operation (mkEnv [] []) _)).
    intros count H. discriminate H.
Defined.

Lemma chosen_none {A} (items : list A) (input : string) :
  chosen items input = None ->
  selectByNumber input (List.length items) = None
  \/ selectByNumber input (List.length items) = Some 0%Z.
Proof.
  unfold chosen. destruct (selectByNumber input (List.length items)) as [c|] eqn:E;
    [|now left].
  destruct (Z.eqb_spec c 0) as [->|Hc]; [now right|].
  intros H. apply nth_error_None in H.
  apply selectByNumber_range in E. lia.
Qed.

Lemma selectTable_none op input rest dbs :
  chosen tables input = None ->
  exists t, selectTable op (mkEnv (input :: rest) dbs) = (Ret (-1)%Z, mkEnv rest dbs, t)
            /\ dbCalls t = [].
Proof.
  intros H. unfold selectTable. rewrite bind_say_prepend, bind_readLine.
  destruct (chosen_none _ _ H) as [-> | ->]; eexists; split; reflexivity.
Qed.

Lemma selectColumn_none table input rest dbs :
  chosen (Columns table) input = None ->
  exists t, selectColumn table (mkEnv (input :: rest) dbs) = (Ret (-1)%Z, mkEnv rest dbs, t)
            /\ dbCalls t = [].
Proof.
  intros H. unfold selectColumn. rewrite bind_say_prepend, bind_readLine.
  destruct (chosen_none _ _ H) as [-> | ->]; eexists; split; reflexivity.
Qed.

Lemma stoppedAt_prepend {A} t (r : Outcome A * Env * list Event) e :
  dbCalls t = [] -> stoppedAt r e -> stoppedAt (prepend t r) e.
Proof.
  intros Ht (H1 & H2 & H3). unfold stoppedAt.
  rewrite outcome_prepend, after_prepend, trace_prepend, dbCalls_app, Ht, H3. auto.
Qed.

(** X9.  After a valid count, a table choice that is 0, out of range or
    not a number makes filterData, updateData and insertData return with
    two lines read and no statement sent; so does such a relation choice
    in insertRelatedData. *)
Theorem no_table_chosen_stops_operation :
  forall (countInput tableInput : string) (count : Z) (rest : list string)
         (dbs : list DBResult),
    GoStr.Atoi countInput = Some count -> (1 <= count)%Z ->
    let e := mkEnv (countInput :: tableInput :: rest) dbs in
    (chosen tables tableInput = None ->
     stoppedAt (filterData e) (mkEnv rest dbs)
     /\ stoppedAt (updateData e) (mkEnv rest dbs)
     /\ stoppedAt (insertData e) (mkEnv rest dbs))
    /\ (chosen relatedTables tableInput = None ->
        stoppedAt (insertRelatedData e) (mkEnv rest dbs)).
Proof.
  intros countInput tableInput count rest dbs Hcount Hk e. split.
  - intros Hnone.
    assert (Hsel : forall op,
               exists t, selectTable op (mkEnv (tableInput :: rest) dbs)
                         = (Ret (-1)%Z, mkEnv rest dbs, t) /\ dbCalls t = [])
      by (intros op; now apply selectTable_none).
    split; [|split].
    + destruct (Hsel OpFilter) as (t & Ht & Hdb). unfold e, filterData.
      rewrite (bind_run _ _ _ _ _ _ (readCount_ok _ countInput count _ dbs Hcount Hk)).
      rewrite (bind_run _ _ _ _ _ _ Ht).
      apply stoppedAt_prepend; [reflexivity|].
      apply stoppedAt_prepend; [exact Hdb|]. repeat split.
    + destruct (Hsel OpUpdate) as (t & Ht & Hdb). unfold e, updateData.
      rewrite (bind_run _ _ _ _ _ _ (readCount_ok _ countInput count _ dbs Hcount Hk)).
      rewrite (bind_run _ _ _ _ _ _ Ht).
      apply stoppedAt_prepend; [reflexivity|].
      apply stoppedAt_prepend; [exact Hdb|]. repeat split.
    + destruct (Hsel OpInsert) as (t & Ht & Hdb). unfold e, insertData.
      rewrite (bind_run _ _ _ _ _ _ (readCount_ok _ countInput count _ dbs Hcount Hk)).
      rewrite (bind_run _ _ _ _ _ _ Ht).
      apply stoppedAt_prepend; [reflexivity|].
      apply stoppedAt_prepend; [exact Hdb|]. repeat split.
  - intros Hnone. unfold e, insertRelatedData.
    rewrite (bind_run _ _ _ _ _ _ (readCount_ok _ countInput count _ dbs Hcount Hk)).
    rewrite bind_say_prepend, bind_readLine.
    apply stoppedAt_prepend; [reflexivity|].
    apply stoppedAt_prepend; [reflexivity|].
    destruct (chosen_none _ _ Hnone) as [-> | ->]; repeat split.
Qed.

Lemma no_table_chosen_stops_operation_witness :
  stoppedAt (updateData (mkEnv ["2"; "7"; "1"; "2"] [DBAffected 1]))
    (mkEnv ["1"; "2"] [DBAffected 1])
  /\ stoppedAt (insertRelatedData (mkEnv ["1"; "0"; "x"] [])) (mkEnv ["x"] []).
Proof.
  split.
  - exact (proj1 (proj2 (proj1 (no_table_chosen_stops_operation "2" "7" 2 ["1"; "2"]
                                  [DBAffected 1] eq_refl ltac:(lia)) eq_refl))).
  - exact (proj2 (no_table_chosen_stops_operation "1" "0" 1 ["x"] [] eq_refl ltac:(lia))
             eq_refl).
Defined.

Lemma last_app_nonempty {A} (l1 l2 : list A) (d : A) :
  l2 <> [] -> last (l1 ++ l2) d = last l2 d.
Proof.
  intros H. induction l1 as [|x l1 IH]; [reflexivity|].
  simpl. rewrite IH. destruct (l1 ++ l2)%list eqn:E; [|reflexivity].
  apply app_eq_nil in E as [_ E]. congruence.
Qed.

(** *** A filter is sent whole or not at all *)

Lemma filterLoop_prefix table filterCount pairs cols :
  Forall2 (validFilter table) pairs cols ->
  forall m i conditions values rest dbs,
  exists t conditions' values',
    filterLoop table filterCount (List.length pairs + m) i conditions values
      (mkEnv (typedPairs pairs ++ rest) dbs)
    = prepend t (filterLoop table filterCount m (i + List.length pairs)
                   conditions' values' (mkEnv rest dbs))
    /\ dbCalls t = [].
Proof.
  induction 1 as [|p col pairs cols [Hc Hw] HF IH]; intros m i conditions values rest dbs.
  - exists [], conditions, values. simpl. rewrite Nat.add_0_r, prepend_nil. auto.
  - destruct p as [cin v]. simpl in Hc, Hw.
    destruct (IH m (S i) (conditions ++ [(col ++ " = $" ++ GoStr.itoa (i + 1))%string])%list
                (values ++ [AStr v])%list rest dbs) as (t & c' & v' & Ht & Hdb).
    eexists _, c', v'. split.
    + change (List.length ((cin, v) :: pairs) + m) with (S (List.length pairs + m)).
      simpl typedPairs. cbn [List.app].
      rewrite (filterLoop_accepts table filterCount _ i conditions values cin col v _ dbs
                 Hc Hw).
      rewrite Ht, prepend_prepend.
      replace (i + List.length ((cin, v) :: pairs)) with (S i + List.length pairs)
        by (simpl; lia).
      reflexivity.
    + rewrite dbCalls_app, Hdb. reflexivity.
Qed.

(** X10.  In filterData, after fewer valid pairs than the count
    announced, a column choice that selects no column, or a value that
    fails the white list, ends the operation with no statement sent: the
    pairs typed before are dropped. In the second case the last message
    is the invalid-characters one. *)
Theorem filter_stops_on_first_bad_pair :
  forall (countInput tableInput : string) (count : Z) (table : TableInfo)
         (pairs : list (string * string)) (cols : list string)
         (badColumn badValue : string) (rest : list string) (dbs : list DBResult),
    GoStr.Atoi countInput = Some count ->
    (len pairs < count)%Z ->
    chosen tables tableInput = Some table ->
    Forall2 (validFilter table) pairs cols ->
    let e := mkEnv (countInput :: tableInput
                      :: typedPairs pairs ++ badColumn :: badValue :: rest) dbs in
    (chosen (Columns table) badColumn = None ->
     stoppedAt (filterData e) (mkEnv (badValue :: rest) dbs))
    /\ (chosen (Columns table) badColumn <> None ->
        GoStr.whiteListRegex_MatchString badValue = false ->
        stoppedAt (filterData e) (mkEnv rest dbs)
        /\ last (trace (filterData e)) (Say MsgMenu) = Say MsgInvalidChars).
Proof.
  intros countInput tableInput count table pairs cols badColumn badValue rest dbs
         Hcount Hlt Htable Hpairs e.
  assert (Hk : (1 <= count)%Z) by (unfold len in Hlt; lia).
  destruct (selectTable_ok OpFilter tableInput table
              (typedPairs pairs ++ badColumn :: badValue :: rest) dbs Htable)
    as (ti & Hsel & Hti & Hidx).
  set (m := Z.to_nat count - List.length pairs - 1).
  assert (Hn : Z.to_nat count = List.length pairs + S m)
    by (unfold m, len in *; lia).
  destruct (filterLoop_prefix table count pairs cols Hpairs (S m) 0 [] []
              (badColumn :: badValue :: rest) dbs) as (t & c' & v' & Hloop & Hdb).
  assert (Hrun : forall r1,
             filterLoop table count (S m) (0 + List.length pairs) c' v'
               (mkEnv (badColumn :: badValue :: rest) dbs) = r1 ->
             outcome r1 = Return ->
             filterData e
             = prepend ([Say (MsgAskCount OpFilter)] ++ [Say (MsgTableMenu OpFilter)] ++ t)
                 (Return, after r1, trace r1)).
  { intros r1 Hr1 Ho. unfold e, filterData.
    rewrite (bind_run _ _ _ _ _ _ (readCount_ok OpFilter countInput count _ dbs Hcount Hk)).
    rewrite (bind_run _ _ _ _ _ _ Hsel), Hti, Hidx, bind_ret.
    rewrite Hn.
    assert (Hstop : filterLoop table count (List.length pairs + S m) 0 [] []
                      (mkEnv (typedPairs pairs ++ badColumn :: badValue :: rest) dbs)
                    = (Return, after r1, (t ++ trace r1)%list)).
    { rewrite Hloop, Hr1. unfold prepend. now rewrite Ho. }
    rewrite (bind_stop _ _ _ _ _ Hstop).
    unfold prepend, outcome, after, trace. simpl. reflexivity. }
  split.
  - intros Hnone.
    destruct (selectColumn_none table badColumn (badValue :: rest) dbs Hnone)
      as (tc & Hc & Hdbc).
    erewrite Hrun.
    2:{ simpl filterLoop. rewrite bind_say_prepend.
        rewrite (bind_run _ _ _ _ _ _ Hc). reflexivity. }
    2:{ reflexivity. }
    unfold stoppedAt, prepend, outcome, after, trace. simpl.
    rewrite app_nil_r, dbCalls_app, Hdb. repeat split. exact Hdbc.
  - intros Hsome Hw.
    destruct (chosen (Columns table) badColumn) as [col|] eqn:Ec; [|congruence].
    destruct (selectColumn_ok table badColumn col (badValue :: rest) dbs Ec)
      as (ci & Hc & Hne & Hix).
    assert (Hr1 : filterLoop table count (S m) (0 + List.length pairs) c' v'
                    (mkEnv (badColumn :: badValue :: rest) dbs)
                  = (Return, mkEnv rest dbs,
                     [Say (MsgFilterHeader (0 + List.length pairs + 1) count);
                      Say (MsgColumnMenu (Name table) (Columns table));
                      Say (MsgAskFilterValue col); Say MsgInvalidChars])).
    { simpl filterLoop. rewrite bind_say_prepend.
      rewrite (bind_run _ _ _ _ _ _ Hc), Hne, Hix, bind_ret.
      rewrite bind_say_prepend, bind_readLine, Hw. reflexivity. }
    rewrite (Hrun _ Hr1 eq_refl). split.
    + unfold stoppedAt, prepend, outcome, after, trace. simpl.
      rewrite !dbCalls_app, Hdb. simpl. repeat split.
    + rewrite trace_prepend. unfold trace. cbn [snd].
      rewrite last_app_nonempty by discriminate. reflexivity.
Qed.

Lemma filter_stops_on_first_bad_pair_witness :
  stoppedAt
    (filterData (mkEnv ["2"; "3"; "6"; "15"; "2"; "a'b"; "next"] [DBError]))
    (mkEnv ["next"] [DBError]).
Proof.
  refine (proj1 (proj2 (filter_stops_on_first_bad_pair "2" "3" 2
            (mkTable "components"
               ["id"; "name"; "category_id"; "manufacturer_id"; "model"; "price"])
            [("6", "15")] ["price"] "2" "a'b" ["next"] [DBError]
            eq_refl _ eq_refl _) _ eq_refl)).
  - reflexivity.
  - repeat constructor.
  - discriminate.
Defined.

(** ** The update value outside the white list *)

Lemma checkValue_invalid isNumeric column value e :
  GoStr.whiteListRegex_MatchString value = false ->
  checkValue isNumeric column value e = (Return, e, [Say MsgInvalidChars]).
Proof. intros H. unfold checkValue. now rewrite H. Qed.

(** X12.  In updateData, with valid count, table, identifiers and
    column, a new value that fails the white list (the empty text
    included) ends the operation on the invalid-characters message: no
    statement is sent and no answer of the database is consumed. *)
Theorem update_rejects_value_outside_whitelist :
  forall (countInput tableInput : string) (table : TableInfo) (ids : list string)
         (columnInput column newValue : string) (rest : list string)
         (dbs : list DBResult),
    GoStr.Atoi countInput = Some (len ids) ->
    ids <> [] ->
    chosen tables tableInput = Some table ->
    Forall parses ids ->
    chosen (updatableColumns table) columnInput = Some column ->
    GoStr.whiteListRegex_MatchString newValue = false ->
    let r := updateData
               (mkEnv (countInput :: tableInput :: ids ++ columnInput :: newValue :: rest)
                  dbs) in
    stoppedAt r (mkEnv rest dbs)
    /\ last (trace r) (Say MsgMenu) = Say MsgInvalidChars.
Proof.
  intros countInput tableInput table ids columnInput column newValue rest dbs
         Hcount Hne Htable Hids Hcol Hw r.
  destruct (updateData_to_value countInput tableInput table ids columnInput column
              newValue rest dbs Hcount Hne Htable Hids Hcol) as (t & Hdb & Hrun).
  unfold r. rewrite Hrun.
  rewrite (bind_stop _ _ _ _ _ (checkValue_invalid _ _ _ _ Hw)). split.
  - apply stoppedAt_prepend; [exact Hdb|]. repeat split.
  - rewrite trace_prepend. unfold trace. cbn [snd]. apply last_last.
Qed.

Lemma update_rejects_value_outside_whitelist_witness :
  stoppedAt (updateData (mkEnv ["1"; "1"; "7"; "1"; ""; "next"] [DBAffected 1]))
    (mkEnv ["next"] [DBAffected 1]).
Proof.
  refine (proj1 (update_rejects_value_outside_whitelist "1" "1"
            (mkTable "categories" ["id"; "name"; "description"])
            ["7"] "1" "name" "" ["next"] [DBAffected 1]
            eq_refl _ eq_refl _ eq_refl eq_refl)).
  - discriminate.
  - repeat constructor; discriminate.
Defined.

(** ** A batch of inserts *)

Lemma insertRecord_ok table recordCount i record n rest dbs :
  Forall2 (validValue numericColumn) (tl (Columns table)) record ->
  exists t,
    insertRecord table (tl (Columns table)) recordCount i
      (mkEnv (record ++ rest) (DBAffected n :: dbs))
    = (Ret tt, mkEnv rest dbs, t)
    /\ dbCalls t = [insertCall table record].
Proof.
  intros Hv. unfold insertRecord. rewrite bind_say_prepend.
  rewrite (bind_run _ _ _ _ _ _ (readValues_ok _ _ _ Hv [] _ _)). cbn [List.app].
  rewrite (bind_run (dbExec _ _) _ _ (Some n) (mkEnv rest dbs)
             [Exec (insertQuery (Name table) (tl (Columns table))) (map AStr record)])
    by reflexivity.
  rewrite !prepend_prepend. eexists. split; [reflexivity|].
  rewrite !dbCalls_app, dbCalls_ask. reflexivity.
Qed.

Lemma insertRecord_fails table recordCount i record answer rest dbs :
  Forall2 (validValue numericColumn) (tl (Columns table)) record ->
  execFails answer ->
  exists t,
    insertRecord table (tl (Columns table)) recordCount i
      (mkEnv (record ++ rest) (answer :: dbs))
    = (Return, mkEnv rest dbs, (t ++ [Say MsgInsertFailed])%list)
    /\ dbCalls t = [insertCall table record].
Proof.
  intros Hv Hf. unfold insertRecord. rewrite bind_say_prepend.
  rewrite (bind_run _ _ _ _ _ _ (readValues_ok _ _ _ Hv [] _ _)). cbn [List.app].
  rewrite (bind_run (dbExec _ _) _ _ None (mkEnv rest dbs)
             [Exec (insertQuery (Name table) (tl (Columns table))) (map AStr record)]).
  2:{ unfold dbExec, nextAnswer. simpl.
      destruct answer; try reflexivity. now contradiction (Hf n). }
  rewrite !prepend_prepend.
  exists ([Say (MsgRecordHeader (i + 1) recordCount)]
          ++ map askValue (tl (Columns table))
          ++ [Exec (insertQuery (Name table) (tl (Columns table))) (map AStr record)])%list.
  split.
  - unfold prepend, outcome, after, trace. simpl. now rewrite <- !app_assoc.
  - rewrite !dbCalls_app, dbCalls_ask. reflexivity.
Qed.

Lemma insertLoop_ok table recordCount records :
  Forall (Forall2 (validValue numericColumn) (tl (Columns table))) records ->
  forall m i oks rest dbs,
    List.length oks = List.length records ->
    exists t,
      insertLoop table (tl (Columns table)) recordCount (List.length records + m) i
        (mkEnv (concat records ++ rest) (map DBAffected oks ++ dbs))
      = prepend t (insertLoop table (tl (Columns table)) recordCount m
                     (i + List.length records) (mkEnv rest dbs))
      /\ dbCalls t = map (insertCall table) records.
Proof.
  induction 1 as [|record records Hv _ IH]; intros m i oks rest dbs Hl.
  - destruct oks; [|discriminate]. exists []. simpl.
    rewrite Nat.add_0_r, prepend_nil. auto.
  - destruct oks as [|n oks]; [discriminate|]. simpl in Hl.
    destruct (insertRecord_ok table recordCount i record n
                (concat records ++ rest) (map DBAffected oks ++ dbs) Hv)
      as (t1 & Hr & Hdb1).
    destruct (IH m (S i) oks rest dbs ltac:(lia)) as (t2 & Hloop & Hdb2).
    exists (t1 ++ t2)%list. split.
    + change (List.length (record :: records) + m) with (S (List.length records + m)).
      simpl insertLoop. simpl concat. rewrite <- app_assoc. simpl map. cbn [List.app].
      rewrite (bind_run _ _ _ _ _ _ Hr), Hloop, prepend_prepend.
      replace (i + S (List.length records)) with (S i + List.length records) by lia.
      reflexivity.
    + rewrite dbCalls_app, Hdb1, Hdb2. reflexivity.
Qed.

(** X14.  insertData with k valid records that the database accepts
    sends k INSERT statements, one per record in the order typed, each
    with the values of its record; it reads the lines of the records and
    no more, and ends on the message with the total. *)
Theorem insert_batch_sends_one_statement_per_record :
  forall (countInput tableInput : string) (table : TableInfo)
         (records : list (list string)) (oks : list Z)
         (rest : list string) (dbs : list DBResult),
    GoStr.Atoi countInput = Some (len records) ->
    records <> [] ->
    chosen tables tableInput = Some table ->
    Forall (Forall2 (validValue numericColumn) (tl (Columns table))) records ->
    List.length oks = List.length records ->
    let r := insertData
               (mkEnv (countInput :: tableInput :: concat records ++ rest)
                  (map DBAffected oks ++ dbs)) in
    outcome r = Ret tt
    /\ after r = mkEnv rest dbs
    /\ dbCalls (trace r) = map (insertCall table) records
    /\ last (trace r) (Say MsgMenu) = Say (MsgTotalInserted (len records)).
Proof.
  intros countInput tableInput table records oks rest dbs Hcount Hne Htable Hv Hl r.
  pose proof (chosen_In _ _ _ Htable) as Hin.
  destruct (selectTable_ok OpInsert tableInput table (concat records ++ rest)
              (map DBAffected oks ++ dbs) Htable) as (ti & Hsel & Hti & Hidx).
  destruct (insertLoop_ok table (len records) records Hv 0 0 oks rest dbs Hl)
    as (t & Hloop & Hdb).
  assert (Hr : r = prepend ([Say (MsgAskCount OpInsert); Say (MsgTableMenu OpInsert)] ++ t)
                     (Ret tt, mkEnv rest dbs, [Say (MsgTotalInserted (len records))])).
  { unfold r, insertData.
    rewrite (bind_run _ _ _ _ _ _ (readCount_ok OpInsert countInput (len records) _ _ Hcount
               ltac:(unfold len; destruct records; [congruence | simpl; lia]))).
    rewrite (bind_run _ _ _ _ _ _ Hsel), Hti, Hidx, bind_ret.
    rewrite (bind_run _ _ _ _ _ _ (sliceFrom1_ok table _ Hin)), prepend_nil.
    unfold len at 2. rewrite Nat2Z.id.
    rewrite Nat.add_0_r in Hloop.
    assert (Hloop' : insertLoop table (tl (Columns table)) (len records)
                       (List.length records) 0
                       (mkEnv (concat records ++ rest) (map DBAffected oks ++ dbs))
                     = (Ret tt, mkEnv rest dbs, t)).
    { rewrite Hloop. unfold prepend, outcome, after, trace. simpl.
      now rewrite app_nil_r. }
    rewrite (bind_run _ _ _ _ _ _ Hloop'), !prepend_prepend. reflexivity. }
  rewrite Hr. unfold prepend, outcome, after, trace. cbn [fst snd].
  repeat split.
  - rewrite !dbCalls_app, Hdb. simpl. now rewrite app_nil_r.
  - rewrite last_app_nonempty by discriminate. reflexivity.
Qed.

(** X15.  When the database refuses the insert of a record, insertData
    returns at once on the insert-failure message: the statements of the
    records before were sent and none takes them back, the records after
    are neither read nor sent. *)
Theorem insert_batch_stops_at_failed_statement :
  forall (countInput tableInput : string) (count : Z) (table : TableInfo)
         (done : list (list string)) (failed : list string) (oks : list Z)
         (answer : DBResult) (rest : list string) (dbs : list DBResult),
    GoStr.Atoi countInput = Some count ->
    (len done < count)%Z ->
    chosen tables tableInput = Some table ->
    Forall (Forall2 (validValue numericColumn) (tl (Columns table))) (done ++ [failed]) ->
    List.length oks = List.length done ->
    execFails answer ->
    let r := insertData
               (mkEnv (countInput :: tableInput :: concat done ++ failed ++ rest)
                  (map DBAffected oks ++ answer :: dbs)) in
    outcome r = Return
    /\ after r = mkEnv rest dbs
    /\ dbCalls (trace r) = map (insertCall table) (done ++ [failed])
    /\ last (trace r) (Say MsgMenu) = Say MsgInsertFailed.
Proof.
  intros countInput tableInput count table done failed oks answer rest dbs
         Hcount Hlt Htable Hv Hl Hf r.
  pose proof (chosen_In _ _ _ Htable) as Hin.
  apply Forall_app in Hv as [Hdone Hfailed].
  inversion Hfailed as [|? ? Hfv _]; subst.
  destruct (selectTable_ok OpInsert tableInput table (concat done ++ failed ++ rest)
              (map DBAffected oks ++ answer :: dbs) Htable) as (ti & Hsel & Hti & Hidx).
  set (m := Z.to_nat count - List.length done - 1).
  assert (Hn : Z.to_nat count = List.length done + S m) by (unfold m, len in *; lia).
  destruct (insertLoop_ok table count done Hdone (S m) 0 oks (failed ++ rest)
              (answer :: dbs) Hl) as (t & Hloop & Hdb).
  destruct (insertRecord_fails table count (0 + List.length done) failed answer rest dbs
              Hfv Hf) as (t1 & Hrec & Hdb1).
  assert (Hr : r = prepend ([Say (MsgAskCount OpInsert); Say (MsgTableMenu OpInsert)] ++ t)
                     (Return, mkEnv rest dbs, (t1 ++ [Say MsgInsertFailed])%list)).
  { unfold r, insertData.
    rewrite (bind_run _ _ _ _ _ _ (readCount_ok OpInsert countInput count _ _ Hcount
               ltac:(unfold len in *; lia))).
    rewrite (bind_run _ _ _ _ _ _ Hsel), Hti, Hidx, bind_ret.
    rewrite (bind_run _ _ _ _ _ _ (sliceFrom1_ok table _ Hin)), prepend_nil.
    rewrite Hn.
    assert (Hloop' : insertLoop table (tl (Columns table)) count
                       (List.length done + S m) 0
                       (mkEnv (concat done ++ failed ++ rest)
                          (map DBAffected oks ++ answer :: dbs))
                     = (Return, mkEnv rest dbs,
                        (t ++ t1 ++ [Say MsgInsertFailed])%list)).
    { rewrite Hloop. simpl insertLoop. rewrite (bind_stop _ _ _ _ _ Hrec). reflexivity. }
    rewrite (bind_stop _ _ _ _ _ Hloop'). unfold prepend, outcome, after, trace.
    simpl. rewrite <- ?app_assoc. reflexivity. }
  rewrite Hr. unfold prepend, outcome, after, trace. cbn [fst snd].
  repeat split.
  - rewrite !dbCalls_app, Hdb, Hdb1. simpl. rewrite map_app. reflexivity.
  - rewrite app_assoc. apply last_last.
Qed.

Lemma insert_batch_sends_one_statement_per_record_witness :
  dbCalls (trace (insertData
     (mkEnv ["2"; "1"; "CPU"; "processors"; "GPU"; "video cards"; "next"]
        [DBAffected 1; DBAffected 1; DBError])))
  = [ ("INSERT INTO categories (name, description) VALUES ($1, $2)",
       [AStr "CPU"; AStr "processors"]);
      ("INSERT INTO categories (name, description) VALUES ($1, $2)",
       [AStr "GPU"; AStr "video cards"]) ].
Proof.
  refine (proj1 (proj2 (proj2 (insert_batch_sends_one_statement_per_record "2" "1"
            (mkTable "categories" ["id"; "name"; "description"])
            [["CPU"; "processors"]; ["GPU"; "video cards"]] [1%Z; 1%Z]
            ["next"] [DBError] eq_refl _ eq_refl _ eq_refl)))).
  - discriminate.
  - repeat constructor; discriminate.
Defined.

Lemma insert_batch_stops_at_failed_statement_witness :
  after (insertData
     (mkEnv ["3"; "1"; "CPU"; "processors"; "GPU"; "video cards"; "RAM"; "memory"]
        [DBAffected 1; DBError; DBAffected 1]))
  = mkEnv ["RAM"; "memory"] [DBAffected 1].
Proof.
  refine (proj1 (proj2 (insert_batch_stops_at_failed_statement "3" "1" 3
            (mkTable "categories" ["id"; "name"; "description"])
            [["CPU"; "processors"]] ["GPU"; "video cards"] [1%Z] DBError
            ["RAM"; "memory"] [DBAffected 1] eq_refl _ eq_refl _ eq_refl _))).
  - unfold len. simpl. lia.
  - repeat constructor; discriminate.
  - intros n. discriminate.
Defined.

(** ** A related insert whose statement fails *)

(** The first lines of [insertRelatedData], up to the first record. *)
Lemma insertRelatedData_to_loop countInput choiceInput relation name1 name2 recordCount
      rest dbs :
  GoStr.Atoi countInput = Some recordCount ->
  (1 <= recordCount)%Z ->
  chosen relatedTables choiceInput = Some relation ->
  GoStr.Split relation relationSep = [name1; name2] ->
  insertRelatedData (mkEnv (countInput :: choiceInput :: rest) dbs)
  = prepend [Say (MsgAskCount OpInsertRelated); Say MsgRelationMenu]
      ((relatedLoop (findTable name1) (findTable name2) recordCount
          (Z.to_nat recordCount) 0 ;;;
        say (MsgTotalRelated recordCount)) (mkEnv rest dbs)).
Proof.
  intros Hcount Hk Hrel Hsplit. unfold insertRelatedData.
  rewrite (bind_run _ _ _ _ _ _ (readCount_ok OpInsertRelated countInput recordCount
                                   _ _ Hcount Hk)).
  rewrite bind_say_prepend, bind_readLine.
  apply chosen_inv in Hrel as (c & Hc & Hpos & Hn).
  rewrite Hc. destruct (Z.eqb_spec c 0) as [E0|E0]; [lia|].
  rewrite (bind_run _ _ _ _ _ _ (index_ok relatedTables (c - 1)%Z relation _
                                   ltac:(lia) Hn)).
  rewrite Hsplit, prepend_nil, prepend_prepend. reflexivity.
Qed.

(** X16.  In insertRelatedData, when the first insert returns no
    identifier, the operation returns on the first-insert failure
    message: one statement was sent, only the columns of the first table
    were asked, and the heading of the second table was not printed. *)
Theorem related_first_failure_skips_second_table :
  forall (countInput choiceInput relation name1 name2 : string) (recordCount : Z)
         (values1 : list string) (answer : DBResult)
         (rest : list string) (dbs : list DBResult),
    GoStr.Atoi countInput = Some recordCount ->
    (1 <= recordCount)%Z ->
    chosen relatedTables choiceInput = Some relation ->
    GoStr.Split relation relationSep = [name1; name2] ->
    let table1 := findTable name1 in
    let table2 := findTable name2 in
    let columns1 := tl (Columns table1) in
    Forall2 (validValue numericColumnFirst) columns1 values1 ->
    scanFails answer ->
    let r := insertRelatedData
               (mkEnv (countInput :: choiceInput :: values1 ++ rest) (answer :: dbs)) in
    outcome r = Return
    /\ after r = mkEnv rest dbs
    /\ dbCalls (trace r)
       = [ (insertQuery (Name table1) columns1 ++ " RETURNING id", map AStr values1) ]
    /\ askedColumns (trace r) = columns1
    /\ ~ In (Say (MsgTableHeader (Name table2))) (trace r)
    /\ last (trace r) (Say MsgMenu) = Say MsgFirstInsertFailed.
Proof.
  intros countInput choiceInput relation name1 name2 recordCount values1 answer rest dbs
         Hcount Hk Hrel Hsplit table1 table2 columns1 Hv1 Hf r.
  pose proof (chosen_In _ _ _ Hrel) as Hin.
  destruct (relation_tables relation name1 name2 Hin Hsplit) as (Ht1 & Ht2 & _).
  fold table1 table2 in Ht1, Ht2.
  assert (Hne : Name table1 <> Name table2).
  { unfold table1, table2. simpl in Hin.
    destruct Hin as [<-|[<-|[<-|[]]]]; vm_compute in Hsplit;
      injection Hsplit as <- <-; vm_compute; discriminate. }
  set (T := ([Say (MsgAskCount OpInsertRelated); Say MsgRelationMenu]
             ++ [Say (MsgRecordHeader (0 + 1) recordCount);
                 Say (MsgTableHeader (Name table1))]
             ++ map askValue columns1
             ++ [QueryRow (insertQuery (Name table1) columns1 ++ " RETURNING id")
                   (map AStr values1)])%list).
  assert (Hr : r = (Return, mkEnv rest dbs, (T ++ [Say MsgFirstInsertFailed])%list)).
  { unfold r.
    rewrite (insertRelatedData_to_loop _ _ _ _ _ _ _ _ Hcount Hk Hrel Hsplit).
    fold table1 table2.
    destruct (Z.to_nat recordCount) as [|n] eqn:En; [lia|].
    assert (Hrec : relatedRecord table1 table2 recordCount 0
                     (mkEnv (values1 ++ rest) (answer :: dbs))
                   = (Return, mkEnv rest dbs,
                      ([Say (MsgRecordHeader (0 + 1) recordCount);
                        Say (MsgTableHeader (Name table1))]
                       ++ map askValue columns1
                       ++ [QueryRow (insertQuery (Name table1) columns1 ++ " RETURNING id")
                             (map AStr values1)]
                       ++ [Say MsgFirstInsertFailed])%list)).
    { unfold relatedRecord. rewrite !bind_say_prepend.
      rewrite (bind_run _ _ _ _ _ _ (sliceFrom1_ok table1 _ Ht1)).
      fold columns1.
      rewrite (bind_run _ _ _ _ _ _ (readValues_ok _ _ _ Hv1 [] _ _)).
      cbn [List.app].
      rewrite (bind_run (dbQueryRow _ _) _ _ None (mkEnv rest dbs)
                 [QueryRow (insertQuery (Name table1) columns1 ++ " RETURNING id")
                    (map AStr values1)]).
      2:{ unfold dbQueryRow, nextAnswer. simpl.
          destruct answer; try reflexivity. now contradiction (Hf id). }
      rewrite !prepend_prepend. unfold prepend, outcome, after, trace. simpl.
      rewrite <- ?app_assoc. reflexivity. }
    simpl relatedLoop.
    rewrite (bind_stop _ _ _ _ _ (bind_stop _ _ _ _ _ Hrec)).
    unfold prepend, outcome, after, trace, T. simpl. rewrite <- ?app_assoc.
    reflexivity. }
  rewrite Hr. unfold outcome, after, trace. cbn [fst snd].
  split; [reflexivity|]. split; [reflexivity|].
  split; [|split; [|split]].
  - unfold T. rewrite !dbCalls_app, dbCalls_ask. reflexivity.
  - unfold T. rewrite !askedColumns_app, askedColumns_ask.
    cbn [askedColumns flat_map asked List.app]. rewrite ?app_nil_r. reflexivity.
  - unfold T. rewrite !in_app_iff. simpl. rewrite in_map_iff.
    intros [[[H|[H|[]]]|[[H|[H|[]]]|[(c & H & _)|[H|[]]]]]|[H|[]]];
      try discriminate.
    injection H as H. now apply Hne.
  - apply last_last.
Qed.

(** The component is refused: nothing is asked for the stock line. *)
Lemma related_first_failure_skips_second_table_witness :
  askedColumns (trace (insertRelatedData
     (mkEnv ["1"; "1"; "R10"; "1"; "2"; "0805"; "3"; "40"; "A1"]
        [DBError; DBAffected 1])))
  = ["name"; "category_id"; "manufacturer_id"; "model"; "price"].
Proof.
  pose proof (related_first_failure_skips_second_table "1" "1"
                ("components" ++ relationSep ++ "stock") "components" "stock" 1
                ["R10"; "1"; "2"; "0805"; "3"] DBError ["40"; "A1"] [DBAffected 1]
                eq_refl ltac:(lia) eq_refl eq_refl) as H.
  cbv zeta in H.
  assert (H1 : Forall2 (validValue numericColumnFirst)
                 (tl (Columns (findTable "components")))
                 ["R10"; "1"; "2"; "0805"; "3"]).
  { repeat constructor; discriminate. }
  assert (H2 : scanFails DBError) by (intros id; discriminate).
  destruct (H H1 H2) as (_ & _ & _ & Hask & _).
  exact Hask.
Defined.

(** X17.  In insertRelatedData, when the second insert fails after the
    first one returned an identifier, the operation returns on the
    second-insert failure message and the statements sent are exactly
    the two inserts: nothing removes the row of the first table. *)
Theorem related_second_failure_sends_no_rollback :
  forall (countInput choiceInput relation name1 name2 : string) (recordCount : Z)
         (values1 values2 : list string) (id : Z) (answer : DBResult)
         (rest : list string) (dbs : list DBResult),
    GoStr.Atoi countInput = Some recordCount ->
    (1 <= recordCount)%Z ->
    chosen relatedTables choiceInput = Some relation ->
    GoStr.Split relation relationSep = [name1; name2] ->
    let table1 := findTable name1 in
    let table2 := findTable name2 in
    let foreignKey := foreignKeyColumn table1 table2 in
    let columns1 := tl (Columns table1) in
    let columns2 := tl (Columns table2) in
    Forall2 (validValue numericColumnFirst) columns1 values1 ->
    Forall2 (validValue numericColumnSecond) (typedColumns foreignKey columns2) values2 ->
    execFails answer ->
    let r := insertRelatedData
               (mkEnv (countInput :: choiceInput :: values1 ++ values2 ++ rest)
                  (DBId id :: answer :: dbs)) in
    outcome r = Return
    /\ after r = mkEnv rest dbs
    /\ dbCalls (trace r)
       = [ (insertQuery (Name table1) columns1 ++ " RETURNING id", map AStr values1);
           (insertQuery (Name table2) columns2,
            secondArgs foreignKey id columns2 values2) ]
    /\ last (trace r) (Say MsgMenu) = Say MsgSecondInsertFailed.
Proof.
  intros countInput choiceInput relation name1 name2 recordCount values1 values2 id
         answer rest dbs Hcount Hk Hrel Hsplit table1 table2 foreignKey columns1 columns2
         Hv1 Hv2 Hf r.
  pose proof (chosen_In _ _ _ Hrel) as Hin.
  destruct (relation_tables relation name1 name2 Hin Hsplit) as (Ht1 & Ht2 & _).
  fold table1 table2 in Ht1, Ht2.
  assert (Hrec : exists T,
             relatedRecord table1 table2 recordCount 0
               (mkEnv (values1 ++ values2 ++ rest) (DBId id :: answer :: dbs))
             = (Return, mkEnv rest dbs, (T ++ [Say MsgSecondInsertFailed])%list)
             /\ dbCalls T
                = [ (insertQuery (Name table1) columns1 ++ " RETURNING id",
                     map AStr values1);
                    (insertQuery (Name table2) columns2,
                     secondArgs foreignKey id columns2 values2) ]).
  { unfold relatedRecord. rewrite !bind_say_prepend.
    rewrite (bind_run _ _ _ _ _ _ (sliceFrom1_ok table1 _ Ht1)).
    fold columns1.
    rewrite (bind_run _ _ _ _ _ _ (readValues_ok _ _ _ Hv1 [] _ _)).
    cbn [List.app].
    rewrite (bind_run (dbQueryRow _ _) _ _ (Some id)
               (mkEnv (values2 ++ rest) (answer :: dbs))
               [QueryRow (insertQuery (Name table1) columns1 ++ " RETURNING id")
                  (map AStr values1)]) by reflexivity.
    rewrite !bind_say_prepend. cbv zeta. rewrite ?bind_say_prepend.
    rewrite (bind_run _ _ _ _ _ _ (sliceFrom1_ok table2 _ Ht2)).
    fold table1 table2 foreignKey columns2.
    rewrite (bind_run _ _ _ _ _ _ (readValuesSecond_ok _ _ _ _ Hv2 [] _ _)).
    cbn [List.app].
    rewrite (bind_run (dbExec _ _) _ _ None (mkEnv rest dbs)
               [Exec (insertQuery (Name table2) columns2)
                  (secondArgs foreignKey id columns2 values2)]).
    2:{ unfold dbExec, nextAnswer. simpl.
        destruct answer; try reflexivity. now contradiction (Hf n). }
    rewrite !prepend_prepend.
    eexists. split.
    - unfold prepend, outcome, after, trace. cbn [fst snd say goReturn bind].
      change ((say MsgSecondInsertFailed ;;; goReturn) (mkEnv rest dbs))
        with (@Return unit, mkEnv rest dbs, [Say MsgSecondInsertFailed]).
      cbn [fst snd]. reflexivity.
    - rewrite !dbCalls_app, dbCalls_ask, dbCalls_second. reflexivity. }
  destruct Hrec as (T & Hrec & HdbT).
  assert (Hr : r = (Return, mkEnv rest dbs,
                    ([Say (MsgAskCount OpInsertRelated); Say MsgRelationMenu]
                     ++ T ++ [Say MsgSecondInsertFailed])%list)).
  { unfold r.
    rewrite (insertRelatedData_to_loop _ _ _ _ _ _ _ _ Hcount Hk Hrel Hsplit).
    fold table1 table2.
    destruct (Z.to_nat recordCount) as [|n] eqn:En; [lia|].
    simpl relatedLoop.
    rewrite (bind_stop _ _ _ _ _ (bind_stop _ _ _ _ _ Hrec)).
    reflexivity. }
  rewrite Hr. unfold outcome, after, trace. cbn [fst snd].
  split; [reflexivity|]. split; [reflexivity|]. split.
  - rewrite !dbCalls_app, HdbT. reflexivity.
  - rewrite app_assoc. apply last_last.
Qed.

(** The stock line is refused after the component was inserted. *)
Lemma related_second_failure_sends_no_rollback_witness :
  dbCalls (trace (insertRelatedData
     (mkEnv ["1"; "1"; "R10"; "1"; "2"; "0805"; "3"; "40"; "A1"; "next"]
        [DBId 42; DBError; DBAffected 1])))
  = [ ("INSERT INTO components (name, category_id, manufacturer_id, model, price) VALUES ($1, $2, $3, $4, $5) RETURNING id",
       [AStr "R10"; AStr "1"; AStr "2"; AStr "0805"; AStr "3"]);
      ("INSERT INTO stock (component_id, quantity, warehouse_location) VALUES ($1, $2, $3)",
       [AInt 42; AStr "40"; AStr "A1"]) ].
Proof.
  pose proof (related_second_failure_sends_no_rollback "1" "1"
                ("components" ++ relationSep ++ "stock") "components" "stock" 1
                ["R10"; "1"; "2"; "0805"; "3"] ["40"; "A1"] 42 DBError
                ["next"] [DBAffected 1]
                eq_refl ltac:(lia) eq_refl eq_refl) as H.
  cbv zeta in H.
  assert (H1 : Forall2 (validValue numericColumnFirst)
                 (tl (Columns (findTable "components")))
                 ["R10"; "1"; "2"; "0805"; "3"]).
  { repeat constructor; discriminate. }
  assert (H2 : Forall2 (validValue numericColumnSecond)
                 (typedColumns
                    (foreignKeyColumn (findTable "components") (findTable "stock"))
                    (tl (Columns (findTable "stock"))))
                 ["40"; "A1"]).
  { repeat constructor; discriminate. }
  assert (H3 : execFails DBError) by (intros n; discriminate).
  destruct (H H1 H2 H3) as (_ & _ & Hdb & _).
  exact Hdb.
Defined.

(** ** What the filter prints after its statement *)

(** X11.  A filter request with valid pairs consumes one answer of the
    database and, after its statement, prints: the failure message, and
    returns, when the query fails; the no-records message, without a
    grid, when no row scans; the grid of the rows that scan followed by
    their count otherwise. *)
Theorem filter_reports_scanned_rows :
  forall (countInput tableInput : string) (table : TableInfo)
         (pairs : list (string * string)) (cols : list string)
         (rest : list string) (answer : DBResult) (dbs : list DBResult),
    GoStr.Atoi countInput = Some (len pairs) ->
    pairs <> [] ->
    chosen tables tableInput = Some table ->
    Forall2 (validFilter table) pairs cols ->
    let r := filterData
               (mkEnv (countInput :: tableInput :: typedPairs pairs ++ rest)
                  (answer :: dbs)) in
    outcome r = fst (filterReport answer)
    /\ after r = mkEnv rest dbs
    /\ exists asked,
         dbCalls asked = []
         /\ trace r
            = (asked
               ++ Query (filterQuery (Name table) (conditionsOf cols 1))
                    (map (fun p => AStr (snd p)) pairs)
               :: snd (filterReport answer))%list.
Proof.
  intros countInput tableInput table pairs cols rest answer dbs Hcount Hne Htable
         Hpairs r.
  destruct (selectTable_ok OpFilter tableInput table (typedPairs pairs ++ rest)
              (answer :: dbs) Htable) as (ti & Hsel & Hti & Hidx).
  destruct (filterLoop_ok table (len pairs) pairs cols Hpairs 0 [] [] rest
              (answer :: dbs)) as (t & Hloop & Hdb).
  set (sql := filterQuery (Name table) (conditionsOf cols 1)).
  set (args := map (fun p => AStr (snd p)) pairs).
  set (T := ([Say (MsgAskCount OpFilter)] ++ [Say (MsgTableMenu OpFilter)] ++ t)%list).
  assert (Hr : r = (fst (filterReport answer), mkEnv rest dbs,
                    (T ++ Query sql args :: snd (filterReport answer))%list)).
  { unfold r, filterData.
    rewrite (bind_run _ _ _ _ _ _ (readCount_ok OpFilter countInput (len pairs) _ _ Hcount
               ltac:(unfold len; destruct pairs; [congruence | simpl; lia]))).
    rewrite (bind_run _ _ _ _ _ _ Hsel), Hti, Hidx, bind_ret.
    unfold len at 2. rewrite Nat2Z.id.
    rewrite (bind_run _ _ _ _ _ _ Hloop). cbn [List.app]. fold sql args.
    destruct answer as [|columns rows|n|id].
    - rewrite (bind_run (dbQuery sql args) _ _ None (mkEnv rest dbs) [Query sql args])
        by reflexivity.
      unfold prepend, outcome, after, trace, T. simpl. now rewrite <- ?app_assoc.
    - rewrite (bind_run (dbQuery sql args) _ _ (Some (columns, rows)) (mkEnv rest dbs)
                 [Query sql args]) by reflexivity.
      unfold filterReport.
      destruct (scanRows_shape columns rows) as [Esnd _].
      destruct (scanRows (List.length columns) rows (headerWidths columns) [])
        as [widths allRows].
      cbn [fst snd] in *. rewrite <- Esnd.
      destruct allRows as [|row more].
      + unfold prepend, outcome, after, trace, T. simpl. now rewrite <- ?app_assoc.
      + rewrite bind_emitAll.
        unfold prepend, outcome, after, trace, T, say, emit. cbn [fst snd].
        rewrite <- ?app_assoc. reflexivity.
    - rewrite (bind_run (dbQuery sql args) _ _ None (mkEnv rest dbs) [Query sql args])
        by reflexivity.
      unfold prepend, outcome, after, trace, T. simpl. now rewrite <- ?app_assoc.
    - rewrite (bind_run (dbQuery sql args) _ _ None (mkEnv rest dbs) [Query sql args])
        by reflexivity.
      unfold prepend, outcome, after, trace, T. simpl. now rewrite <- ?app_assoc. }
  rewrite Hr. unfold outcome, after, trace. cbn [fst snd].
  split; [reflexivity|]. split; [reflexivity|].
  exists T. split; [|reflexivity].
  unfold T. rewrite !dbCalls_app, Hdb. reflexivity.
Qed.

(** A filter on the price of components: of the two rows returned the
    one with a missing cell is dropped, and one record is reported. *)
Lemma filter_reports_scanned_rows_witness :
  last (trace (filterData
     (mkEnv ["1"; "3"; "6"; "15"]
        [DBRows ["id"; "name"] [[Some "7"; Some "R10"]; [Some "8"]]])))
    (Say MsgMenu)
  = Say (MsgFound 1).
Proof.
  pose proof (filter_reports_scanned_rows "1" "3"
            (mkTable "components"
               ["id"; "name"; "category_id"; "manufacturer_id"; "model"; "price"])
            [("6", "15")] ["price"] []
            (DBRows ["id"; "name"] [[Some "7"; Some "R10"]; [Some "8"]]) []
            eq_refl ltac:(discriminate) eq_refl
            ltac:(repeat constructor)) as H.
  cbv zeta in H. destruct H as (_ & _ & asked & _ & H).
  refine (eq_trans (f_equal (fun t => last t (Say MsgMenu)) H) _).
  rewrite last_app_nonempty by discriminate. reflexivity.
Defined.

(** ** One turn of [viewTable] on a table of the list *)

(** X21.  One turn of viewTable on a table of the list: when the query
    fails, the failure message is printed and the list is shown again,
    one answer consumed; when it succeeds, the query is sent a second
    time, the grid of the rows that scan and their count are printed,
    and the function returns to the menu, or panics when the second
    query failed. *)
Theorem view_turn_on_a_listed_table :
  forall (input : string) (table : TableInfo) (rest : list string)
         (first second : DBResult) (dbs : list DBResult),
    chosen tables input = Some table ->
    let query := Query (viewQuery table) [] in
    let s := step InViewTable (mkEnv (input :: rest) (first :: second :: dbs)) in
    match first with
    | DBRows columns rows =>
        let found := scanned (List.length columns) rows in
        control s = (if isRows second then AtMenu else Panicked)
        /\ snd (fst s) = mkEnv rest dbs
        /\ trace s
           = ([Say (MsgTableMenu OpView); query; query]
              ++ printGrid columns
                   (fst (scanRows (List.length columns) rows (headerWidths columns) []))
                   found
              ++ [Say (MsgFound (List.length found))])%list
    | _ =>
        s = (InViewTable, mkEnv rest (second :: dbs),
             [Say (MsgTableMenu OpView); query; Say MsgQueryFailed])
    end.
Proof.
  intros input table rest first second dbs Hc query s.
  apply chosen_inv in Hc as (c & Hc & Hpos & Hn).
  assert (Hbody : viewTableBody (mkEnv (input :: rest) (first :: second :: dbs))
                  = prepend [Say (MsgTableMenu OpView)]
                      (bind (dbQuery (viewQuery table) [])
                         (fun res =>
                            match res with
                            | None => say MsgQueryFailed ;;; ret tt
                            | Some (columns, rows) =>
                                let '(columnWidths, allRows) :=
                                  scanRows (List.length columns) rows
                                    (headerWidths columns) [] in
                                again <- dbQuery (viewQuery table) [] ;;
                                emitAll (printGrid columns columnWidths allRows) ;;;
                                say (MsgFound (List.length allRows)) ;;;
                                match again with
                                | None => panic
                                | Some _ => goReturn
                                end
                            end)
                         (mkEnv rest (first :: second :: dbs)))).
  { unfold viewTableBody. rewrite bind_say_prepend, bind_readLine, Hc.
    destruct (Z.eqb_spec c 0) as [E0|E0]; [lia|].
    rewrite (bind_run _ _ _ _ _ _ (index_ok tables (c - 1)%Z table _ ltac:(lia) Hn)).
    rewrite prepend_nil. reflexivity. }
  assert (Hfail : isRows first = false ->
                  s = (InViewTable, mkEnv rest (second :: dbs),
                       [Say (MsgTableMenu OpView); query; Say MsgQueryFailed])).
  { intros Hf. unfold s, step. rewrite Hbody.
    rewrite (bind_run (dbQuery (viewQuery table) []) _ _ None
               (mkEnv rest (second :: dbs)) [Query (viewQuery table) []])
      by (destruct first; [reflexivity | discriminate | reflexivity | reflexivity]).
    reflexivity. }
  destruct first as [|columns rows|n|id]; try (apply Hfail; reflexivity).
  clear Hfail. cbv zeta.
  destruct (scanRows_shape columns rows) as [Esnd _].
  unfold s, step, control, trace. rewrite Hbody.
  rewrite (bind_run (dbQuery (viewQuery table) []) _ _ (Some (columns, rows))
             (mkEnv rest (second :: dbs)) [Query (viewQuery table) []]) by reflexivity.
  destruct (scanRows (List.length columns) rows (headerWidths columns) [])
    as [widths allRows].
  cbn [fst snd] in *. rewrite <- Esnd.
  destruct second as [|columns2 rows2|n|id].
  - rewrite (bind_run (dbQuery (viewQuery table) []) _ _ None (mkEnv rest dbs)
               [Query (viewQuery table) []]) by reflexivity.
    rewrite bind_emitAll, bind_say_prepend, !prepend_prepend.
    unfold prepend, outcome, after, trace, panic. cbn [fst snd List.app isRows].
    rewrite <- ?app_assoc, ?app_nil_r. repeat split.
  - rewrite (bind_run (dbQuery (viewQuery table) []) _ _ (Some (columns2, rows2))
               (mkEnv rest dbs) [Query (viewQuery table) []]) by reflexivity.
    rewrite bind_emitAll, bind_say_prepend, !prepend_prepend.
    unfold prepend, outcome, after, trace, goReturn. cbn [fst snd List.app isRows].
    rewrite <- ?app_assoc, ?app_nil_r. repeat split.
  - rewrite (bind_run (dbQuery (viewQuery table) []) _ _ None (mkEnv rest dbs)
               [Query (viewQuery table) []]) by reflexivity.
    rewrite bind_emitAll, bind_say_prepend, !prepend_prepend.
    unfold prepend, outcome, after, trace, panic. cbn [fst snd List.app isRows].
    rewrite <- ?app_assoc, ?app_nil_r. repeat split.
  - rewrite (bind_run (dbQuery (viewQuery table) []) _ _ None (mkEnv rest dbs)
               [Query (viewQuery table) []]) by reflexivity.
    rewrite bind_emitAll, bind_say_prepend, !prepend_prepend.
    unfold prepend, outcome, after, trace, panic. cbn [fst snd List.app isRows].
    rewrite <- ?app_assoc, ?app_nil_r. repeat split.
Qed.

(** The table of categories, with a database that refuses the query:
    the list of tables is shown again. *)
Lemma view_turn_on_a_listed_table_witness :
  step InViewTable (mkEnv ["1"; "0"] [DBError; DBError])
  = (InViewTable, mkEnv ["0"] [DBError],
     [Say (MsgTableMenu OpView); Query "SELECT * FROM categories ORDER BY id" [];
      Say MsgQueryFailed]).
Proof.
  exact (view_turn_on_a_listed_table "1"
           (mkTable "categories" ["id"; "name"; "description"]) ["0"]
           DBError DBError [] eq_refl).
Defined.

(** ** The end of the input *)

(** X22.  At the end of the input neither loop ends: each turn of the
    menu loop reads an empty line, prints the menu and the not-a-number
    message and stays at the menu; each turn of the loop of viewTable
    prints the table list and the range message and stays in viewTable;
    no statement is sent and no answer consumed. *)
Theorem end_of_input_never_exits :
  forall (n : nat) (dbs : list DBResult),
    run n AtMenu (mkEnv [] dbs)
    = (AtMenu, mkEnv [] dbs,
       concat (repeat [Say MsgMenu; Say MsgMenuNotNumber] n))
    /\ run n InViewTable (mkEnv [] dbs)
       = (InViewTable, mkEnv [] dbs,
          concat (repeat [Say (MsgTableMenu OpView);
                          Say (MsgChoiceRange (List.length tables))] n)).
Proof.
  intros n dbs. split.
  - induction n as [|n IH]; [reflexivity|].
    change (run (S n) AtMenu (mkEnv [] dbs))
      with (match step AtMenu (mkEnv [] dbs) with
            | (c1, e1, t1) =>
                match run n c1 e1 with
                | (c2, e2, t2) => (c2, e2, (t1 ++ t2)%list)
                end
            end).
    change (step AtMenu (mkEnv [] dbs))
      with (AtMenu, mkEnv [] dbs, [Say MsgMenu; Say MsgMenuNotNumber]).
    cbv beta iota. rewrite IH. reflexivity.
  - induction n as [|n IH]; [reflexivity|].
    change (run (S n) InViewTable (mkEnv [] dbs))
      with (match step InViewTable (mkEnv [] dbs) with
            | (c1, e1, t1) =>
                match run n c1 e1 with
                | (c2, e2, t2) => (c2, e2, (t1 ++ t2)%list)
                end
            end).
    change (step InViewTable (mkEnv [] dbs))
      with (InViewTable, mkEnv [] dbs,
            [Say (MsgTableMenu OpView); Say (MsgChoiceRange (List.length tables))]).
    cbv beta iota. rewrite IH. reflexivity.
Qed.

(** ** The tables of a relation *)

Lemma findTable_fold (name : string) (l : list TableInfo) :
  forall init,
    let found := fold_left (fun found t => if (Name t =? name)%string then t else found)
                   l init in
    (In found l /\ Name found = name)
    \/ ((forall t, In t l -> Name t <> name) /\ found = init).
Proof.
  induction l as [|a l IH]; intros init; simpl.
  - right. split; [intros t []|reflexivity].
  - destruct (IH (if (Name a =? name)%string then a else init)) as [[Hin Hn]|[Hall Hf]].
    + left. split; [now right | exact Hn].
    + destruct (String.eqb_spec (Name a) name) as [E|E].
      * left. rewrite Hf. split; [now left | exact E].
      * right. split; [|exact Hf]. intros t [<-|Ht]; [exact E | now apply Hall].
Qed.

(** X20.  The search of a table by name in insertRelatedData returns
    each table of the catalog for its own name; for any name it returns
    a table of the catalog with that name or, when no table has it, the
    zero TableInfo, on which the record loop panics at Columns[1:] after
    its two headings, before any statement. *)
Theorem findTable_returns_named_table :
  forall (name : string),
    (forall t, In t tables -> findTable (Name t) = t)
    /\ ((In (findTable name) tables /\ Name (findTable name) = name)
        \/ ((forall t, In t tables -> Name t <> name)
            /\ findTable name = zeroTable
            /\ forall table2 recordCount i e,
                 relatedRecord (findTable name) table2 recordCount i e
                 = (Panic, e, [Say (MsgRecordHeader (i + 1) recordCount);
                               Say (MsgTableHeader "")]))).
Proof.
  intros name. split.
  - simpl. intros t [<-|[<-|[<-|[<-|[]]]]]; reflexivity.
  - destruct (findTable_fold name tables zeroTable) as [H|[Hall Hf]]; [now left|].
    right. fold (findTable name) in Hf. split; [exact Hall|]. split; [exact Hf|].
    intros table2 recordCount i e. rewrite Hf. reflexivity.
Qed.

(** The table of the stock is found under its name; a name that no
    table has gives the zero value. *)
Lemma findTable_returns_named_table_witness :
  findTable "stock"
  = mkTable "stock" ["id"; "component_id"; "quantity"; "warehouse_location"]
  /\ findTable "orders" = zeroTable.
Proof.
  split.
  - refine (proj1 (findTable_returns_named_table "stock")
              (mkTable "stock" ["id"; "component_id"; "quantity"; "warehouse_location"])
              _).
    simpl. auto.
  - destruct (proj2 (findTable_returns_named_table "orders")) as [[Hin _]|(_ & H & _)].
    + simpl in Hin. destruct Hin as [H|[H|[H|[H|[]]]]]; discriminate H.
    + exact H.
Defined.

(** ** The search of the foreign key, for any two tables *)

Lemma explicitForeignKey_in table1 table2 columns :
  explicitForeignKey table1 table2 columns = ""
  \/ (In (explicitForeignKey table1 table2 columns) columns
      /\ In (explicitForeignKey table1 table2 columns) keyNames).
Proof.
  induction columns as [|column columns IH]; simpl; [now left|].
  assert (Hrest : explicitForeignKey table1 table2 columns = ""
                  \/ ((column = explicitForeignKey table1 table2 columns
                       \/ In (explicitForeignKey table1 table2 columns) columns)
                      /\ In (explicitForeignKey table1 table2 columns) keyNames))
    by (destruct IH as [H|[H1 H2]]; auto).
  destruct ((column =? "component_id") || (column =? "category_id")
            || (column =? "manufacturer_id"))%string eqn:Ek; [|exact Hrest].
  assert (Hk : In column keyNames).
  { apply orb_true_iff in Ek as [Ek|Ek]; [apply orb_true_iff in Ek as [Ek|Ek]|];
      apply String.eqb_eq in Ek; subst; simpl; auto. }
  destruct (GoStr.Contains (Name table2) "stock" && (Name table1 =? "components")%string
            && (column =? "component_id")%string); [right; auto|].
  destruct (GoStr.Contains (Name table2) "components"); [|exact Hrest].
  destruct ((Name table1 =? "categories")%string && (column =? "category_id")%string);
    [right; auto|].
  destruct ((Name table1 =? "manufacturers")%string && (column =? "manufacturer_id")%string);
    [right; auto|exact Hrest].
Qed.

Lemma fallbackForeignKey_in columns :
  fallbackForeignKey columns <> "id"
  /\ (fallbackForeignKey columns = "" \/ In (fallbackForeignKey columns) columns)
  /\ ((exists c, In c columns /\ c <> "id") -> In (fallbackForeignKey columns) columns).
Proof.
  induction columns as [|column columns (IH1 & IH2 & IH3)]; simpl.
  - split; [discriminate|]. split; [now left|]. intros (c & [] & _).
  - destruct (String.eqb_spec column "id") as [E|E]; simpl.
    + split; [exact IH1|]. split; [tauto|].
      intros (c & [Hc|Hc] & Hne); [congruence|]. right. apply IH3. eauto.
    + split; [exact E|]. split; auto.
Qed.

(** X19.  For any two tables, the foreign-key column found by
    insertRelatedData is never id; when it is not empty it is a column
    of the second table, and it is one whenever the second table has a
    column other than id; it is one of component_id, category_id,
    manufacturer_id, or the first column of the second table that is not
    id. *)
Theorem foreign_key_is_never_id :
  forall (table1 table2 : TableInfo),
    let foreignKey := foreignKeyColumn table1 table2 in
    foreignKey <> "id"
    /\ (foreignKey <> "" -> In foreignKey (Columns table2))
    /\ ((exists c, In c (Columns table2) /\ c <> "id") ->
        In foreignKey (Columns table2))
    /\ (In foreignKey keyNames
        \/ foreignKey = fallbackForeignKey (Columns table2)).
Proof.
  intros table1 table2 foreignKey. unfold foreignKey, foreignKeyColumn.
  destruct (fallbackForeignKey_in (Columns table2)) as (F1 & F2 & F3).
  destruct (explicitForeignKey_in table1 table2 (Columns table2)) as [E|[E1 E2]].
  - rewrite E. simpl. split; [exact F1|]. split; [|split; [exact F3 | now right]].
    intros Hne. destruct F2 as [F2|F2]; [contradiction | exact F2].
  - cbv zeta. destruct (String.eqb_spec (explicitForeignKey table1 table2 (Columns table2)) "")
      as [E|E].
    + split; [exact F1|]. split; [|split; [exact F3 | now right]].
      intros Hne. destruct F2 as [F2|F2]; [contradiction | exact F2].
    + split.
      { intros H. rewrite H in E2. simpl in E2.
        destruct E2 as [E2|[E2|[E2|[]]]]; discriminate. }
      split; [auto|]. split; [auto | now left].
Qed.

(** Two tables outside the relations of the menu: the first column
    that is not [id] is taken. *)
Lemma foreign_key_is_never_id_witness :
  In (foreignKeyColumn (mkTable "suppliers" ["id"; "name"])
        (mkTable "orders" ["id"; "supplier"; "total"]))
     ["id"; "supplier"; "total"].
Proof.
  refine (proj1 (proj2 (proj2 (foreign_key_is_never_id
            (mkTable "suppliers" ["id"; "name"])
            (mkTable "orders" ["id"; "supplier"; "total"])))) _).
  exists "supplier". split; [simpl; auto | discriminate].
Defined.

(** ** The numeric test of the three inserts *)

(** X18.  A value accepted by the value test of insertData and
    updateData is accepted by the tests of both inserts of
    insertRelatedData; for the columns founded_year, category_id,
    manufacturer_id and component_id a white-listed text that is not a
    number is refused by insertData and passes the test of the second
    insert. *)
Theorem second_insert_checks_fewer_columns :
  forall (column value : string) (e : Env),
    (outcome (checkValue numericColumn column value e) = Ret tt ->
     checkValue numericColumnFirst column value e = (Ret tt, e, [])
     /\ checkValue numericColumnSecond column value e = (Ret tt, e, []))
    /\ (In column ["founded_year"; "category_id"; "manufacturer_id"; "component_id"] ->
        GoStr.whiteListRegex_MatchString value = true ->
        GoStr.Atoi value = None ->
        checkValue numericColumn column value e
        = (Return, e, [Say (MsgNotANumber column)])
        /\ checkValue numericColumnSecond column value e = (Ret tt, e, [])).
Proof.
  intros column value e. split.
  - unfold checkValue.
    destruct (GoStr.whiteListRegex_MatchString value); simpl; [|discriminate].
    destruct (GoStr.Atoi value) as [k|].
    + intros _. now destruct (numericColumnFirst column), (numericColumnSecond column).
    + destruct (numericColumn column) eqn:En; simpl; [discriminate|]. intros _.
      unfold numericColumn in En. unfold numericColumnFirst, numericColumnSecond.
      repeat (apply orb_false_iff in En as [En ?]).
      repeat match goal with H : (_ =? _)%string = false |- _ => rewrite H; clear H end.
      simpl. auto.
  - intros Hin Hw Hn. unfold checkValue. rewrite Hw, Hn. simpl in Hin.
    destruct Hin as [<-|[<-|[<-|[<-|[]]]]]; split; reflexivity.
Qed.

(** A manufacturer written as a name where its number is expected:
    refused by [insertData], taken by the second insert. *)
Lemma second_insert_checks_fewer_columns_witness :
  checkValue numericColumnSecond "manufacturer_id" "acme" (mkEnv [] [])
  = (Ret tt, mkEnv [] [], []).
Proof.
  refine (proj2 (proj2 (second_insert_checks_fewer_columns "manufacturer_id" "acme"
                          (mkEnv [] [])) _ eq_refl eq_refl)).
  simpl. auto.
Defined.

(** ** What the update reports *)

(** X13.  A valid update consumes one answer of the database: the number
    of affected rows it returns is reported as it is, zero included, and
    the operation ends normally; any other answer prints the update-
    failure message and returns. *)
Theorem update_reports_database_answer :
  forall (countInput tableInput : string) (table : TableInfo) (ids : list string)
         (columnInput column newValue : string) (rest : list string)
         (answer : DBResult) (dbs : list DBResult),
    GoStr.Atoi countInput = Some (len ids) ->
    ids <> [] ->
    chosen tables tableInput = Some table ->
    Forall parses ids ->
    chosen (updatableColumns table) columnInput = Some column ->
    validValue numericColumn column newValue ->
    let r := updateData
               (mkEnv (countInput :: tableInput :: ids ++ columnInput :: newValue :: rest)
                  (answer :: dbs)) in
    after r = mkEnv rest dbs
    /\ match answer with
       | DBAffected rowsAffected =>
           outcome r = Ret tt
           /\ last (trace r) (Say MsgMenu) = Say (MsgUpdated rowsAffected)
       | _ =>
           outcome r = Return
           /\ last (trace r) (Say MsgMenu) = Say MsgUpdateFailed
       end.
Proof.
  intros countInput tableInput table ids columnInput column newValue rest answer dbs
         Hcount Hne Htable Hids Hcol Hval r.
  destruct (updateData_to_value countInput tableInput table ids columnInput column
              newValue rest (answer :: dbs) Hcount Hne Htable Hids Hcol)
    as (t & Hdb & Hrun).
  set (sql := updateQuery (len ids) (Name table) column ids).
  set (args := AStr newValue :: map AStr ids).
  assert (Hr : r = prepend (t ++ [Exec sql args])
                     (match answer with
                      | DBAffected rowsAffected =>
                          (Ret tt, mkEnv rest dbs, [Say (MsgUpdated rowsAffected)])
                      | _ => (Return, mkEnv rest dbs, [Say MsgUpdateFailed])
                      end)).
  { unfold r. rewrite Hrun.
    rewrite (bind_run _ _ _ _ _ _ (checkValue_ok _ _ _ _ Hval)).
    rewrite (bind_run _ _ _ _ _ _ (updateArgs_ok ids newValue _ Hne)).
    rewrite !prepend_nil. fold sql args.
    destruct answer as [|columns rows|n|id].
    - rewrite (bind_run (dbExec sql args) _ _ None (mkEnv rest dbs) [Exec sql args])
        by reflexivity.
      now rewrite prepend_prepend.
    - rewrite (bind_run (dbExec sql args) _ _ None (mkEnv rest dbs) [Exec sql args])
        by reflexivity.
      now rewrite prepend_prepend.
    - rewrite (bind_run (dbExec sql args) _ _ (Some n) (mkEnv rest dbs) [Exec sql args])
        by reflexivity.
      now rewrite prepend_prepend.
    - rewrite (bind_run (dbExec sql args) _ _ None (mkEnv rest dbs) [Exec sql args])
        by reflexivity.
      now rewrite prepend_prepend. }
  rewrite Hr, after_prepend, outcome_prepend, trace_prepend.
  destruct answer; unfold after, outcome, trace; cbn [fst snd];
    (split; [reflexivity|]); (split; [reflexivity|]); apply last_last.
Qed.

(** An update of a row that does not exist: zero rows are reported as
    updated. *)
Lemma update_reports_database_answer_witness :
  last (trace (updateData (mkEnv ["1"; "1"; "99"; "1"; "CPU"] [DBAffected 0])))
    (Say MsgMenu)
  = Say (MsgUpdated 0).
Proof.
  refine (proj2 (proj2 (update_reports_database_answer "1" "1"
            (mkTable "categories" ["id"; "name"; "description"])
            ["99"] "1" "name" "CPU" [] (DBAffected 0) []
            eq_refl _ eq_refl _ eq_refl _))).
  - discriminate.
  - repeat constructor; discriminate.
  - split; [reflexivity | discriminate].
Defined.

(** ** Every text bound to a statement was tested *)

Section Emits.

Variable P : Event -> Prop.

Lemma emitsOnly_ret {A} (a : A) (Q : A -> Prop) : Q a -> emitsOnly P (ret a) Q.
Proof. intros H e. split; [constructor|]. now intros ? [= <-]. Qed.

Lemma emitsOnly_stop {A} (Q : A -> Prop) : emitsOnly P goReturn Q.
Proof. intros e. split; [constructor|]. discriminate. Qed.

Lemma emitsOnly_panic {A} (Q : A -> Prop) : emitsOnly P panic Q.
Proof. intros e. split; [constructor|]. discriminate. Qed.

Lemma emitsOnly_bind {A B} (m : M A) (f : A -> M B) (Q1 : A -> Prop) (Q2 : B -> Prop) :
  emitsOnly P m Q1 -> (forall a, Q1 a -> emitsOnly P (f a) Q2) ->
  emitsOnly P (bind m f) Q2.
Proof.
  intros Hm Hf e. destruct (Hm e) as [Ht Ha]. unfold bind, trace, outcome in *.
  destruct (m e) as [[[a| |] e1] t1]; simpl in *.
  - destruct (Hf a (Ha a eq_refl) e1) as [Ht2 Hb]. unfold trace, outcome in *.
    destruct (f a e1) as [[o e2] t2]. simpl in *. split; [|exact Hb].
    apply Forall_app; auto.
  - split; [exact Ht | discriminate].
  - split; [exact Ht | discriminate].
Qed.

Lemma emitsOnly_weaken {A} (m : M A) (Q1 Q2 : A -> Prop) :
  emitsOnly P m Q1 -> (forall a, Q1 a -> Q2 a) -> emitsOnly P m Q2.
Proof. intros Hm HQ e. destruct (Hm e) as [Ht Ha]. split; auto. Qed.

Lemma emitsOnly_emit (ev : Event) (Q : unit -> Prop) :
  P ev -> Q tt -> emitsOnly P (emit ev) Q.
Proof. intros H HQ e. split; [now repeat constructor|]. now intros [] _. Qed.

Lemma emitsOnly_emitAll (evs : list Event) (Q : unit -> Prop) :
  Forall P evs -> Q tt -> emitsOnly P (emitAll evs) Q.
Proof. intros H HQ e. split; [exact H|]. now intros [] _. Qed.

Lemma emitsOnly_readLine : emitsOnly P readLine (fun _ => True).
Proof. intros e. unfold readLine. destruct (stdin e); split; try constructor; auto. Qed.

Lemma emitsOnly_index {A} (l : list A) (i : Z) : emitsOnly P (index l i) (fun x => In x l).
Proof.
  unfold index. destruct (i <? 0)%Z; [apply emitsOnly_panic|].
  destruct (nth_error l (Z.to_nat i)) as [x|] eqn:E; [|apply emitsOnly_panic].
  apply emitsOnly_ret. eapply nth_error_In; eauto.
Qed.

Lemma emitsOnly_sliceFrom1 {A} (l : list A) : emitsOnly P (sliceFrom1 l) (fun _ => True).
Proof. destruct l; [apply emitsOnly_panic | now apply emitsOnly_ret]. Qed.

Lemma emitsOnly_dbQuery sql args :
  P (Query sql args) -> emitsOnly P (dbQuery sql args) (fun _ => True).
Proof.
  intros H e. unfold dbQuery. destruct (nextAnswer e) as [[] e1];
    (split; [now repeat constructor | auto]).
Qed.

Lemma emitsOnly_dbExec sql args :
  P (Exec sql args) -> emitsOnly P (dbExec sql args) (fun _ => True).
Proof.
  intros H e. unfold dbExec. destruct (nextAnswer e) as [[] e1];
    (split; [now repeat constructor | auto]).
Qed.

Lemma emitsOnly_dbQueryRow sql args :
  P (QueryRow sql args) -> emitsOnly P (dbQueryRow sql args) (fun _ => True).
Proof.
  intros H e. unfold dbQueryRow. destruct (nextAnswer e) as [[] e1];
    (split; [now repeat constructor | auto]).
Qed.

End Emits.

Lemma checked_say (msg : Msg) (Q : unit -> Prop) :
  Q tt -> emitsOnly CheckedCall (say msg) Q.
Proof. intros H. apply emitsOnly_emit; [exact I | exact H]. Qed.

Lemma checked_say_then {A} (msg : Msg) (k : M A) (Q : A -> Prop) :
  emitsOnly CheckedCall k Q -> emitsOnly CheckedCall (say msg ;;; k) Q.
Proof.
  intros H. eapply emitsOnly_bind; [apply checked_say with (Q := fun _ => True); exact I|].
  intros _ _. exact H.
Qed.

Lemma checked_say_return {A} (msg : Msg) (Q : A -> Prop) :
  emitsOnly CheckedCall (say msg ;;; goReturn) Q.
Proof. apply checked_say_then, emitsOnly_stop. Qed.

Lemma checked_readCount (op : Operation) :
  emitsOnly CheckedCall (readCount op) (fun _ => True).
Proof.
  unfold readCount. apply checked_say_then.
  eapply emitsOnly_bind; [apply emitsOnly_readLine|].
  intros input _. destruct (GoStr.Atoi input) as [k|]; [|apply checked_say_return].
  destruct (k <? 1)%Z; [apply checked_say_return | now apply emitsOnly_ret].
Qed.

Lemma checked_selectTable (op : Operation) :
  emitsOnly CheckedCall (selectTable op) (fun _ => True).
Proof.
  unfold selectTable. apply checked_say_then.
  eapply emitsOnly_bind; [apply emitsOnly_readLine|].
  intros input _. destruct (selectByNumber input _) as [c|].
  - destruct (c =? 0)%Z; now apply emitsOnly_ret.
  - now apply checked_say_then, emitsOnly_ret.
Qed.

Lemma checked_selectColumn (table : TableInfo) :
  emitsOnly CheckedCall (selectColumn table) (fun _ => True).
Proof.
  unfold selectColumn. apply checked_say_then.
  eapply emitsOnly_bind; [apply emitsOnly_readLine|].
  intros input _. destruct (selectByNumber input _) as [c|].
  - destruct (c =? 0)%Z; now apply emitsOnly_ret.
  - now apply checked_say_then, emitsOnly_ret.
Qed.

Lemma checked_grid columns widths rows (Q : unit -> Prop) :
  Q tt -> emitsOnly CheckedCall (emitAll (printGrid columns widths rows)) Q.
Proof.
  intros H. apply emitsOnly_emitAll; [|exact H].
  unfold printGrid. repeat constructor.
  apply Forall_forall. intros ev Hev. apply in_map_iff in Hev as (r & <- & _). exact I.
Qed.

Lemma checked_snoc values a :
  Forall checkedArg values -> checkedArg a -> Forall checkedArg (values ++ [a]).
Proof. intros Hv Ha. apply Forall_app. split; [exact Hv | now repeat constructor]. Qed.

Lemma checked_filterLoop table filterCount :
  forall n i conditions values,
    Forall checkedArg values ->
    emitsOnly CheckedCall (filterLoop table filterCount n i conditions values)
      (fun cv => Forall checkedArg (snd cv)).
Proof.
  induction n as [|n IH]; intros i conditions values Hv; simpl.
  - now apply emitsOnly_ret.
  - apply checked_say_then.
    eapply emitsOnly_bind; [apply checked_selectColumn|].
    intros ci _. destruct (ci =? -1)%Z; [apply emitsOnly_stop|].
    eapply emitsOnly_bind; [apply emitsOnly_index|].
    intros column _. apply checked_say_then.
    eapply emitsOnly_bind; [apply emitsOnly_readLine|].
    intros value _.
    destruct (GoStr.whiteListRegex_MatchString value) eqn:Hw; simpl;
      [|apply checked_say_return].
    apply IH. apply checked_snoc; [exact Hv | now left].
Qed.

Lemma checked_filterData : emitsOnly CheckedCall filterData (fun _ => True).
Proof.
  unfold filterData.
  eapply emitsOnly_bind; [apply checked_readCount|]. intros filterCount _.
  eapply emitsOnly_bind; [apply checked_selectTable|]. intros ti _.
  destruct (ti =? -1)%Z; [apply emitsOnly_stop|].
  eapply emitsOnly_bind; [apply emitsOnly_index|]. intros table _.
  eapply emitsOnly_bind; [apply (checked_filterLoop table filterCount _ 0 [] []); constructor|].
  intros [conditions values] Hv. simpl in Hv.
  eapply emitsOnly_bind; [apply emitsOnly_dbQuery; exact Hv|].
  intros [[columns rows]|] _; [|apply checked_say_return].
  destruct (scanRows _ _ _ _) as [widths allRows].
  destruct allRows; [apply checked_say_return|].
  eapply emitsOnly_bind; [apply checked_grid with (Q := fun _ => True); exact I|].
  intros _ _. now apply checked_say.
Qed.

Lemma checked_readIds :
  forall n i ids,
    Forall (fun s => GoStr.Atoi s <> None) ids ->
    emitsOnly CheckedCall (readIds n i ids) (Forall (fun s => GoStr.Atoi s <> None)).
Proof.
  induction n as [|n IH]; intros i ids Hids; simpl.
  - now apply emitsOnly_ret.
  - apply checked_say_then.
    eapply emitsOnly_bind; [apply emitsOnly_readLine|].
    intros idInput _.
    destruct (GoStr.Atoi idInput) as [k|] eqn:E; [|apply checked_say_return].
    apply IH. apply Forall_app. split; [exact Hids|].
    repeat constructor. rewrite E. discriminate.
Qed.

Lemma checked_checkValue isNumeric column value :
  emitsOnly CheckedCall (checkValue isNumeric column value)
    (fun _ => GoStr.whiteListRegex_MatchString value = true).
Proof.
  unfold checkValue.
  destruct (GoStr.whiteListRegex_MatchString value); simpl; [|apply checked_say_return].
  destruct (isNumeric column); [|now apply emitsOnly_ret].
  destruct (GoStr.Atoi value); [now apply emitsOnly_ret | apply checked_say_return].
Qed.

Lemma parsed_ids_checked ids :
  Forall (fun s => GoStr.Atoi s <> None) ids -> Forall checkedArg (map AStr ids).
Proof.
  intros H. apply Forall_map. eapply Forall_impl; [|exact H].
  intros s Hs. now right.
Qed.

Lemma checked_updateArgs updateCount newValue ids :
  GoStr.whiteListRegex_MatchString newValue = true ->
  Forall (fun s => GoStr.Atoi s <> None) ids ->
  emitsOnly CheckedCall (updateArgs updateCount newValue ids) (Forall checkedArg).
Proof.
  intros Hw Hids. unfold updateArgs. destruct (updateCount =? 1)%Z.
  - eapply emitsOnly_bind; [apply emitsOnly_index|].
    intros id0 Hin. apply emitsOnly_ret.
    rewrite Forall_forall in Hids.
    constructor; [now left|]. constructor; [|constructor]. right. now apply Hids.
  - apply emitsOnly_ret. constructor; [now left | now apply parsed_ids_checked].
Qed.

Lemma checked_updateData : emitsOnly CheckedCall updateData (fun _ => True).
Proof.
  unfold updateData.
  eapply emitsOnly_bind; [apply checked_readCount|]. intros updateCount _.
  eapply emitsOnly_bind; [apply checked_selectTable|]. intros ti _.
  destruct (ti =? -1)%Z; [apply emitsOnly_stop|].
  eapply emitsOnly_bind; [apply emitsOnly_index|]. intros table _. cbv zeta.
  destruct (updatableColumns table) as [|u0 us] eqn:Eu; [apply checked_say_return|].
  eapply emitsOnly_bind; [apply (checked_readIds _ 0 []); constructor|].
  intros ids Hids. apply checked_say_then.
  eapply emitsOnly_bind; [apply emitsOnly_readLine|]. intros columnInput _.
  destruct (selectByNumber columnInput _) as [c|]; [|apply checked_say_return].
  destruct (c =? 0)%Z; [apply emitsOnly_stop|].
  eapply emitsOnly_bind; [apply emitsOnly_index|]. intros columnName _.
  apply checked_say_then.
  eapply emitsOnly_bind; [apply emitsOnly_readLine|]. intros newValue _.
  eapply emitsOnly_bind; [apply checked_checkValue|]. intros ? Hw; simpl in Hw.
  eapply emitsOnly_bind; [now apply checked_updateArgs|]. intros args Hargs.
  eapply emitsOnly_bind; [apply emitsOnly_dbExec; exact Hargs|].
  intros [rowsAffected|] _; [now apply checked_say | apply checked_say_return].
Qed.

Lemma checked_readValues isNumeric :
  forall columns values,
    Forall checkedArg values ->
    emitsOnly CheckedCall (readValues isNumeric columns values) (Forall checkedArg).
Proof.
  induction columns as [|column rest IH]; intros values Hv; simpl.
  - now apply emitsOnly_ret.
  - apply checked_say_then.
    eapply emitsOnly_bind; [apply emitsOnly_readLine|]. intros value _.
    eapply emitsOnly_bind; [apply checked_checkValue|]. intros ? Hw; simpl in Hw.
    apply IH. apply checked_snoc; [exact Hv | now left].
Qed.

Lemma checked_insertRecord table insertColumns recordCount i :
  emitsOnly CheckedCall (insertRecord table insertColumns recordCount i) (fun _ => True).
Proof.
  unfold insertRecord. apply checked_say_then.
  eapply emitsOnly_bind; [apply checked_readValues; constructor|]. intros values Hv.
  eapply emitsOnly_bind; [apply emitsOnly_dbExec; exact Hv|].
  intros [n|] _; [now apply checked_say | apply checked_say_return].
Qed.

Lemma checked_insertLoop table insertColumns recordCount :
  forall n i,
    emitsOnly CheckedCall (insertLoop table insertColumns recordCount n i) (fun _ => True).
Proof.
  induction n as [|n IH]; intros i; simpl.
  - now apply emitsOnly_ret.
  - eapply emitsOnly_bind; [apply checked_insertRecord|]. intros _ _. apply IH.
Qed.

Lemma checked_insertData : emitsOnly CheckedCall insertData (fun _ => True).
Proof.
  unfold insertData.
  eapply emitsOnly_bind; [apply checked_readCount|]. intros recordCount _.
  eapply emitsOnly_bind; [apply checked_selectTable|]. intros ti _.
  destruct (ti =? -1)%Z; [apply emitsOnly_stop|].
  eapply emitsOnly_bind; [apply emitsOnly_index|]. intros table _.
  eapply emitsOnly_bind; [apply emitsOnly_sliceFrom1|]. intros insertColumns _.
  eapply emitsOnly_bind; [apply checked_insertLoop|].
  intros _ _. now apply checked_say.
Qed.

Lemma checked_readValuesSecond foreignKey insertedID :
  forall columns values,
    Forall checkedArg values ->
    emitsOnly CheckedCall (readValuesSecond foreignKey insertedID columns values)
      (Forall checkedArg).
Proof.
  induction columns as [|column rest IH]; intros values Hv; simpl.
  - now apply emitsOnly_ret.
  - destruct (column =? foreignKey)%string.
    + apply checked_say_then. apply IH. now apply checked_snoc.
    + apply checked_say_then.
      eapply emitsOnly_bind; [apply emitsOnly_readLine|]. intros value _.
      eapply emitsOnly_bind; [apply checked_checkValue|]. intros ? Hw; simpl in Hw.
      apply IH. apply checked_snoc; [exact Hv | now left].
Qed.

Lemma checked_relatedRecord table1 table2 recordCount i :
  emitsOnly CheckedCall (relatedRecord table1 table2 recordCount i) (fun _ => True).
Proof.
  unfold relatedRecord. do 2 apply checked_say_then.
  eapply emitsOnly_bind; [apply emitsOnly_sliceFrom1|]. intros insertColumns1 _.
  eapply emitsOnly_bind; [apply checked_readValues; constructor|]. intros values1 Hv1.
  eapply emitsOnly_bind; [apply emitsOnly_dbQueryRow; exact Hv1|].
  intros [insertedID|] _; [|apply checked_say_return].
  do 2 apply checked_say_then. cbv zeta. apply checked_say_then.
  eapply emitsOnly_bind; [apply emitsOnly_sliceFrom1|]. intros insertColumns2 _.
  eapply emitsOnly_bind; [apply checked_readValuesSecond; constructor|].
  intros values2 Hv2.
  eapply emitsOnly_bind; [apply emitsOnly_dbExec; exact Hv2|].
  intros [n|] _; [now apply checked_say | apply checked_say_return].
Qed.

Lemma checked_relatedLoop table1 table2 recordCount :
  forall n i,
    emitsOnly CheckedCall (relatedLoop table1 table2 recordCount n i) (fun _ => True).
Proof.
  induction n as [|n IH]; intros i; simpl.
  - now apply emitsOnly_ret.
  - eapply emitsOnly_bind; [apply checked_relatedRecord|]. intros _ _. apply IH.
Qed.

Lemma checked_insertRelatedData : emitsOnly CheckedCall insertRelatedData (fun _ => True).
Proof.
  unfold insertRelatedData.
  eapply emitsOnly_bind; [apply checked_readCount|]. intros recordCount _.
  apply checked_say_then.
  eapply emitsOnly_bind; [apply emitsOnly_readLine|]. intros choiceInput _.
  destruct (selectByNumber choiceInput _) as [c|]; [|apply checked_say_return].
  destruct (c =? 0)%Z; [apply emitsOnly_stop|].
  eapply emitsOnly_bind; [apply emitsOnly_index|]. intros relation _.
  destruct (GoStr.Split relation relationSep) as [|n1 [|n2 [|n3 more]]];
    try apply checked_say_return.
  eapply emitsOnly_bind; [apply checked_relatedLoop|].
  intros _ _. now apply checked_say.
Qed.

Lemma checked_viewTableBody : emitsOnly CheckedCall viewTableBody (fun _ => True).
Proof.
  unfold viewTableBody. apply checked_say_then.
  eapply emitsOnly_bind; [apply emitsOnly_readLine|]. intros input _.
  destruct (selectByNumber input _) as [c|];
    [|now apply checked_say_then, emitsOnly_ret].
  destruct (c =? 0)%Z; [apply emitsOnly_stop|].
  eapply emitsOnly_bind; [apply emitsOnly_index|]. intros table _. cbv zeta.
  eapply emitsOnly_bind; [apply emitsOnly_dbQuery; constructor|].
  intros [[columns rows]|] _; [|now apply checked_say_then, emitsOnly_ret].
  destruct (scanRows _ _ _ _) as [widths allRows].
  eapply emitsOnly_bind; [apply emitsOnly_dbQuery; constructor|]. intros again _.
  eapply emitsOnly_bind; [apply checked_grid with (Q := fun _ => True); exact I|].
  intros _ _. apply checked_say_then.
  destruct again; [apply emitsOnly_stop | apply emitsOnly_panic].
Qed.

(** The bytes of a text that passed one of the two tests. *)
Lemma whitelisted_bytes (s : string) :
  GoStr.whiteListRegex_MatchString s = true ->
  Forall (fun b => GoStr.asciiAllowed b = true \/ 128 <= b) (bytes s).
Proof.
  intros Hw. apply (allInClass_bytes (String.length s)); [lia|].
  unfold GoStr.whiteListRegex_MatchString in Hw. now destruct s.
Qed.

Lemma checkedText_bytes (s : string) :
  checkedText s ->
  s <> "" /\ Forall (fun b => ~ In b excludedBytes) (bytes s).
Proof.
  assert (Hgood : forall t,
             Forall (fun b => GoStr.asciiAllowed b = true \/ 128 <= b) (bytes t) ->
             Forall (fun b => ~ In b excludedBytes) (bytes t)).
  { intros t Hb. eapply Forall_impl; [|exact Hb]. cbv beta.
    intros b [Hb1|Hb1] Hin; simpl in Hin;
      repeat (destruct Hin as [<-|Hin]; [try discriminate Hb1; try lia|]);
      try contradiction. }
  intros [Hw|Hp].
  - split; [now apply whiteList_nonempty|]. now apply Hgood, whitelisted_bytes.
  - split; [intros ->; now apply Hp|].
    pose proof (integer_text_whitelisted s Hp) as Hw.
    destruct (startsWithPlus s) eqn:Eplus; simpl in Hw;
      [|now apply Hgood, whitelisted_bytes].
    destruct s as [|c r]; [discriminate|]. simpl in Eplus.
    apply Ascii.eqb_eq in Eplus. subst c.
    assert (Hr : GoStr.parseDigits r 0 <> None).
    { intros E. apply Hp. unfold GoStr.Atoi. simpl. destruct r; [reflexivity|].
      now rewrite E. }
    apply parseDigits_allInClass in Hr.
    unfold bytes. simpl. constructor.
    + simpl. intros Hin.
      repeat (destruct Hin as [Hin|Hin]; [discriminate|]). contradiction.
    + apply Hgood. apply (allInClass_bytes (String.length r)); [lia | exact Hr].
Qed.

(** X6.  In every run of one turn of viewTable, of filterData,
    updateData, insertData and insertRelatedData, whatever is typed and
    whatever the database answers, every text bound to a statement
    passed the white list or is read by strconv.Atoi (the row
    identifiers of updateData are tested in that way only); it is not
    empty and holds no quote, dollar or percent sign, parenthesis,
    asterisk, slash, semicolon, equals sign, backslash or underscore. *)
Theorem every_bound_text_was_checked :
  forall (m : M unit) (e : Env) (sql : string) (args : list Arg) (s : string),
    In m [viewTableBody; filterData; updateData; insertData; insertRelatedData] ->
    In (sql, args) (dbCalls (trace (m e))) ->
    In (AStr s) args ->
    checkedText s
    /\ s <> ""
    /\ Forall (fun b => ~ In b excludedBytes) (bytes s).
Proof.
  intros m e sql args s Hm Hin Hs.
  assert (Hall : emitsOnly CheckedCall m (fun _ => True)).
  { simpl in Hm. destruct Hm as [<-|[<-|[<-|[<-|[<-|[]]]]]].
    - apply checked_viewTableBody.
    - apply checked_filterData.
    - apply checked_updateData.
    - apply checked_insertData.
    - apply checked_insertRelatedData. }
  destruct (Hall e) as [Ht _]. rewrite Forall_forall in Ht.
  assert (Hargs : Forall checkedArg args).
  { apply in_dbCalls in Hin. destruct Hin as [H|[H|H]]; exact (Ht _ H). }
  rewrite Forall_forall in Hargs. pose proof (Hargs _ Hs) as Hc. simpl in Hc.
  split; [exact Hc|]. now apply checkedText_bytes.
Qed.

(** An update of two rows: the identifiers are written with a plus
    sign, which [strconv.Atoi] reads and the white list does not have. *)
Lemma every_bound_text_was_checked_witness :
  checkedText "+7" /\ "+7" <> ""
  /\ Forall (fun b => ~ In b excludedBytes) (bytes "+7").
Proof.
  refine (every_bound_text_was_checked updateData
            (mkEnv ["2"; "1"; "+7"; "8"; "1"; "CPU"] [DBAffected 2])
            "UPDATE categories SET name = $1 WHERE id IN ($2, $3)"
            [AStr "CPU"; AStr "+7"; AStr "8"] "+7" _ _ _).
  - simpl. auto.
  - vm_compute. auto.
  - simpl. auto.
Defined.

(* ================================================================= *)
(* ================================================================= *)
(** ** Records after the first *)

Lemma bind_prepend {A B} (m m' : M A) (k : A -> M B) (e e' : Env) (t : list Event) :
  m e = prepend t (m' e') -> bind m k e = prepend t (bind m' k e').
Proof.
  intros H. unfold bind. rewrite H. unfold prepend, outcome, after, trace.
  destruct (m' e') as [[[a| |] e1] t1]; simpl; try reflexivity.
  destruct (k a e1) as [[o e2] t2]. simpl. now rewrite app_assoc.
Qed.

Lemma bind_dbQueryRow {A} sql args (k : option Z -> M A) e :
  exists res e1, bind (dbQueryRow sql args) k e = prepend [QueryRow sql args] (k res e1).
Proof.
  unfold dbQueryRow. destruct (nextAnswer e) as [ans e1] eqn:E.
  destruct ans; eexists _, e1; apply bind_run; rewrite E; reflexivity.
Qed.

Lemma readValues_prefix isNumeric before valuesBefore :
  Forall2 (validValue isNumeric) before valuesBefore ->
  forall more acc rest dbs,
    readValues isNumeric (before ++ more) acc (mkEnv (valuesBefore ++ rest) dbs)
    = prepend (map askValue before)
        (readValues isNumeric more (acc ++ map AStr valuesBefore)
           (mkEnv rest dbs)).
Proof.
  induction 1 as [|column value before valuesBefore Hv _ IH]; intros more acc rest dbs.
  - simpl. now rewrite app_nil_r, prepend_nil.
  - simpl readValues. rewrite bind_say_prepend. simpl List.app. rewrite bind_readLine.
    rewrite (bind_run _ _ _ _ _ _ (checkValue_ok _ _ _ _ Hv)), prepend_nil.
    rewrite IH, prepend_prepend. simpl map. now rewrite <- app_assoc.
Qed.

Lemma readValues_refuses isNumeric before valuesBefore column value following acc rest dbs :
  Forall2 (validValue isNumeric) before valuesBefore ->
  GoStr.whiteListRegex_MatchString value = true ->
  isNumeric column = true -> GoStr.Atoi value = None ->
  readValues isNumeric (before ++ column :: following) acc
    (mkEnv (valuesBefore ++ value :: rest) dbs)
  = (Return, mkEnv rest dbs,
     (map askValue before ++ [askValue column; Say (MsgNotANumber column)])%list).
Proof.
  intros Hb Hw Hn Ha. rewrite (readValues_prefix _ _ _ Hb).
  simpl readValues. rewrite bind_say_prepend, bind_readLine.
  rewrite (bind_stop _ _ _ _ _ (checkValue_not_a_number _ _ _ _ Hw Hn Ha)).
  reflexivity.
Qed.

Lemma typedColumns_app foreignKey before more :
  typedColumns foreignKey (before ++ more)
  = (typedColumns foreignKey before ++ typedColumns foreignKey more)%list.
Proof. unfold typedColumns. apply filter_app. Qed.

Lemma typedColumns_cons foreignKey column more :
  column <> foreignKey ->
  typedColumns foreignKey (column :: more) = column :: typedColumns foreignKey more.
Proof.
  intros H. unfold typedColumns. simpl. apply String.eqb_neq in H. now rewrite H.
Qed.

Lemma readValuesSecond_prefix foreignKey id before :
  forall valuesBefore,
    Forall2 (validValue numericColumnSecond) (typedColumns foreignKey before)
      valuesBefore ->
    forall more acc rest dbs,
      readValuesSecond foreignKey id (before ++ more) acc
        (mkEnv (valuesBefore ++ rest) dbs)
      = prepend (map (secondEvent foreignKey id) before)
          (readValuesSecond foreignKey id more
             (acc ++ secondArgs foreignKey id before valuesBefore)
             (mkEnv rest dbs)).
Proof.
  induction before as [|column before IH]; intros valuesBefore Hv more acc rest dbs.
  - inversion Hv; subst. simpl. now rewrite app_nil_r, prepend_nil.
  - simpl in Hv. simpl readValuesSecond. simpl secondArgs. simpl map.
    unfold secondEvent at 1.
    destruct (column =? foreignKey)%string; simpl in Hv.
    + rewrite bind_say_prepend, IH by exact Hv.
      rewrite prepend_prepend, <- app_assoc. reflexivity.
    + inversion Hv as [|? value ? values Hv1 Hvs]; subst.
      rewrite bind_say_prepend. simpl List.app. rewrite bind_readLine.
      rewrite (bind_run _ _ _ _ _ _ (checkValue_ok _ _ _ _ Hv1)), prepend_nil.
      rewrite IH by exact Hvs.
      rewrite prepend_prepend, <- app_assoc. reflexivity.
Qed.

Lemma readValuesSecond_refuses foreignKey id before valuesBefore column value following
      acc rest dbs :
  Forall2 (validValue numericColumnSecond) (typedColumns foreignKey before)
    valuesBefore ->
  GoStr.whiteListRegex_MatchString value = true ->
  numericColumnSecond column = true -> column <> foreignKey ->
  GoStr.Atoi value = None ->
  readValuesSecond foreignKey id (before ++ column :: following) acc
    (mkEnv (valuesBefore ++ value :: rest) dbs)
  = (Return, mkEnv rest dbs,
     (map (secondEvent foreignKey id) before
      ++ [askValue column; Say (MsgNotANumber column)])%list).
Proof.
  intros Hb Hw Hn Hk Ha. rewrite (readValuesSecond_prefix _ _ _ _ Hb).
  simpl readValuesSecond. apply String.eqb_neq in Hk. rewrite Hk.
  rewrite bind_say_prepend, bind_readLine.
  rewrite (bind_stop _ _ _ _ _ (checkValue_not_a_number _ _ _ _ Hw Hn Ha)).
  reflexivity.
Qed.

(** *** insertData *)

Lemma insertRecord_sends table recordCount i record rest dbs :
  Forall2 (validValue numericColumn) (tl (Columns table)) record ->
  dbCalls (trace (insertRecord table (tl (Columns table)) recordCount i
                    (mkEnv (record ++ rest) dbs)))
  = [insertCall table record].
Proof.
  intros Hv. unfold insertRecord. rewrite bind_say_prepend.
  rewrite (bind_run _ _ _ _ _ _ (readValues_ok _ _ _ Hv [] _ _)). cbn [List.app].
  match goal with
  | |- context [bind (dbExec ?sql ?args) ?k ?e] =>
      destruct (bind_dbExec sql args k e) as (res & e1 & ->)
  end.
  rewrite !trace_prepend, !dbCalls_app, dbCalls_ask.
  destruct res; reflexivity.
Qed.

Lemma insertRecord_refuses table recordCount i before column following valuesBefore value
      rest dbs :
  tl (Columns table) = (before ++ column :: following)%list ->
  Forall2 (validValue numericColumn) before valuesBefore ->
  GoStr.whiteListRegex_MatchString value = true ->
  numericColumn column = true -> GoStr.Atoi value = None ->
  exists t,
    insertRecord table (tl (Columns table)) recordCount i
      (mkEnv (valuesBefore ++ value :: rest) dbs)
    = (Return, mkEnv rest dbs, (t ++ [Say (MsgNotANumber column)])%list)
    /\ dbCalls t = [].
Proof.
  intros Hc Hb Hw Hn Ha. unfold insertRecord. rewrite bind_say_prepend, Hc.
  rewrite (bind_stop _ _ _ _ _
             (readValues_refuses _ _ _ _ _ following [] rest dbs Hb Hw Hn Ha)).
  exists ([Say (MsgRecordHeader (i + 1) recordCount)]
          ++ map askValue before ++ [askValue column])%list.
  split.
  - unfold prepend, outcome, after, trace. simpl. now rewrite <- !app_assoc.
  - rewrite !dbCalls_app, dbCalls_ask. reflexivity.
Qed.

(** insertData after the records [done], with at least one more to come. *)
Lemma insertData_after_done countInput tableInput count table done oks input dbs m :
  GoStr.Atoi countInput = Some count ->
  Z.to_nat count = List.length done + S m ->
  chosen tables tableInput = Some table ->
  Forall (Forall2 (validValue numericColumn) (tl (Columns table))) done ->
  List.length oks = List.length done ->
  exists t,
    insertData (mkEnv (countInput :: tableInput :: concat done ++ input)
                  (map DBAffected oks ++ dbs))
    = prepend t
        ((insertLoop table (tl (Columns table)) count (S m) (List.length done) ;;;
          say (MsgTotalInserted count)) (mkEnv input dbs))
    /\ dbCalls t = map (insertCall table) done.
Proof.
  intros Hcount Hn Htable Hdone Hl.
  pose proof (chosen_In _ _ _ Htable) as Hin.
  destruct (selectTable_ok OpInsert tableInput table (concat done ++ input)
              (map DBAffected oks ++ dbs) Htable) as (ti & Hsel & Hti & Hidx).
  destruct (insertLoop_ok table count done Hdone (S m) 0 oks input dbs Hl)
    as (t & Hloop & Hdb).
  exists ([Say (MsgAskCount OpInsert); Say (MsgTableMenu OpInsert)] ++ t)%list. split.
  - unfold insertData.
    rewrite (bind_run _ _ _ _ _ _ (readCount_ok OpInsert countInput count _ _ Hcount
               ltac:(lia))).
    rewrite (bind_run _ _ _ _ _ _ Hsel), Hti, Hidx, bind_ret.
    rewrite (bind_run _ _ _ _ _ _ (sliceFrom1_ok table _ Hin)), prepend_nil.
    rewrite Hn. rewrite (bind_prepend _ _ _ _ _ _ Hloop).
    rewrite !prepend_prepend. reflexivity.
  - rewrite dbCalls_app, Hdb. reflexivity.
Qed.

(** *** insertRelatedData *)

Lemma relation_key_not_typed relation name1 name2 :
  In relation relatedTables ->
  GoStr.Split relation relationSep = [name1; name2] ->
  foreignKeyColumn (findTable name1) (findTable name2) <> "quantity"
  /\ foreignKeyColumn (findTable name1) (findTable name2) <> "price".
Proof.
  simpl. intros [<-|[<-|[<-|[]]]] H; vm_compute in H; injection H as <- <-;
    vm_compute; split; discriminate.
Qed.

(** One record whose two inserts succeed. *)
Lemma relatedRecord_ok relation name1 name2 record recordCount i rest dbs :
  In relation relatedTables ->
  GoStr.Split relation relationSep = [name1; name2] ->
  let table1 := findTable name1 in
  let table2 := findTable name2 in
  validRelated table1 table2 record ->
  exists t,
    relatedRecord table1 table2 recordCount i
      (mkEnv (typedRelated record ++ rest) (answersRelated record ++ dbs))
    = (Ret tt, mkEnv rest dbs, t)
    /\ dbCalls t = relatedCalls table1 table2 record
    /\ askedColumns t = relatedAsked table1 table2
    /\ In (Say (MsgAutoSet (foreignKeyColumn table1 table2) (insertedId record))) t.
Proof.
  intros Hrel Hsplit table1 table2 [Hv1 Hv2].
  destruct (relation_tables relation name1 name2 Hrel Hsplit) as (Ht1 & Ht2 & Hfk).
  fold table1 table2 in Ht1, Ht2, Hfk.
  destruct record as [values1 values2 id n]. cbn [firstValues secondValues] in Hv1, Hv2.
  unfold typedRelated, answersRelated, relatedCalls, relatedAsked, firstCall, secondCall.
  cbn [firstValues secondValues insertedId affectedRows].
  set (foreignKey := foreignKeyColumn table1 table2) in *.
  set (columns1 := tl (Columns table1)) in *.
  set (columns2 := tl (Columns table2)) in *.
  unfold relatedRecord. rewrite !bind_say_prepend.
  rewrite (bind_run _ _ _ _ _ _ (sliceFrom1_ok table1 _ Ht1)).
  fold columns1. rewrite <- app_assoc.
  rewrite (bind_run _ _ _ _ _ _ (readValues_ok _ _ _ Hv1 [] _ _)).
  cbn [List.app].
  rewrite (bind_run (dbQueryRow _ _) _ _ (Some id)
             (mkEnv (values2 ++ rest) (DBAffected n :: dbs))
             [QueryRow (insertQuery (Name table1) columns1 ++ " RETURNING id")
                (map AStr values1)]) by reflexivity.
  rewrite !bind_say_prepend. cbv zeta. rewrite ?bind_say_prepend.
  rewrite (bind_run _ _ _ _ _ _ (sliceFrom1_ok table2 _ Ht2)).
  fold table1 table2 foreignKey columns2.
  rewrite (bind_run _ _ _ _ _ _ (readValuesSecond_ok _ _ _ _ Hv2 [] _ _)).
  cbn [List.app].
  rewrite (bind_run (dbExec _ _) _ _ (Some n) (mkEnv rest dbs)
             [Exec (insertQuery (Name table2) columns2)
                (secondArgs foreignKey id columns2 values2)]) by reflexivity.
  rewrite !prepend_prepend.
  eexists. split; [reflexivity|]. split; [|split].
  - rewrite !dbCalls_app, dbCalls_ask, dbCalls_second. reflexivity.
  - rewrite !askedColumns_app, askedColumns_ask, askedColumns_second. simpl.
    now rewrite !app_nil_r.
  - rewrite !in_app_iff. left. left. right. now apply In_second_event.
Qed.

(** The records [done], all of them accepted by the database. *)
Lemma relatedLoop_ok relation name1 name2 recordCount done :
  In relation relatedTables ->
  GoStr.Split relation relationSep = [name1; name2] ->
  let table1 := findTable name1 in
  let table2 := findTable name2 in
  Forall (validRelated table1 table2) done ->
  forall m i rest dbs,
  exists t,
    relatedLoop table1 table2 recordCount (List.length done + m) i
      (mkEnv (flat_map typedRelated done ++ rest) (flat_map answersRelated done ++ dbs))
    = prepend t (relatedLoop table1 table2 recordCount m (i + List.length done)
                   (mkEnv rest dbs))
    /\ dbCalls t = flat_map (relatedCalls table1 table2) done
    /\ askedColumns t = flat_map (fun _ => relatedAsked table1 table2) done
    /\ Forall (fun record =>
                 In (Say (MsgAutoSet (foreignKeyColumn table1 table2)
                            (insertedId record))) t) done.
Proof.
  intros Hrel Hsplit table1 table2.
  induction 1 as [|record done Hv _ IH]; intros m i rest dbs.
  - exists []. simpl. rewrite Nat.add_0_r, prepend_nil. auto.
  - destruct (relatedRecord_ok relation name1 name2 record recordCount i
                (flat_map typedRelated done ++ rest)
                (flat_map answersRelated done ++ dbs) Hrel Hsplit Hv)
      as (t1 & Hr & Hdb1 & Hask1 & Hauto1).
    fold table1 table2 in Hr, Hdb1, Hask1, Hauto1.
    destruct (IH m (S i) rest dbs) as (t2 & Hloop & Hdb2 & Hask2 & Hauto2).
    exists (t1 ++ t2)%list. split; [|split; [|split]].
    + change (List.length (record :: done) + m) with (S (List.length done + m)).
      simpl relatedLoop. cbn [flat_map]. rewrite <- !app_assoc.
      rewrite (bind_run _ _ _ _ _ _ Hr), Hloop, prepend_prepend.
      replace (i + S (List.length done)) with (S i + List.length done) by lia.
      reflexivity.
    + rewrite dbCalls_app, Hdb1, Hdb2. reflexivity.
    + rewrite askedColumns_app, Hask1, Hask2. reflexivity.
    + constructor.
      * apply in_or_app. now left.
      * eapply Forall_impl; [|exact Hauto2]. intros r Hr0. apply in_or_app. now right.
Qed.

(** insertRelatedData after the records [done]. *)
Lemma insertRelatedData_after_done countInput choiceInput relation name1 name2 count
      done input dbs m :
  GoStr.Atoi countInput = Some count ->
  Z.to_nat count = List.length done + m -> (1 <= count)%Z ->
  chosen relatedTables choiceInput = Some relation ->
  GoStr.Split relation relationSep = [name1; name2] ->
  let table1 := findTable name1 in
  let table2 := findTable name2 in
  Forall (validRelated table1 table2) done ->
  exists t,
    insertRelatedData
      (mkEnv (countInput :: choiceInput :: flat_map typedRelated done ++ input)
         (flat_map answersRelated done ++ dbs))
    = prepend t
        ((relatedLoop table1 table2 count m (List.length done) ;;;
          say (MsgTotalRelated count)) (mkEnv input dbs))
    /\ dbCalls t = flat_map (relatedCalls table1 table2) done
    /\ askedColumns t = flat_map (fun _ => relatedAsked table1 table2) done
    /\ Forall (fun record =>
                 In (Say (MsgAutoSet (foreignKeyColumn table1 table2)
                            (insertedId record))) t) done.
Proof.
  intros Hcount Hn Hk Hrel Hsplit table1 table2 Hdone.
  pose proof (chosen_In _ _ _ Hrel) as Hin.
  destruct (relatedLoop_ok relation name1 name2 count done Hin Hsplit Hdone m 0
              input dbs) as (t & Hloop & Hdb & Hask & Hauto).
  fold table1 table2 in Hloop, Hdb, Hask, Hauto.
  exists ([Say (MsgAskCount OpInsertRelated); Say MsgRelationMenu] ++ t)%list.
  split; [|split; [|split]].
  - rewrite (insertRelatedData_to_loop _ _ _ _ _ _ _ _ Hcount Hk Hrel Hsplit).
    fold table1 table2. rewrite Hn.
    rewrite (bind_prepend _ _ _ _ _ _ Hloop), prepend_prepend. reflexivity.
  - rewrite dbCalls_app, Hdb. reflexivity.
  - rewrite askedColumns_app, Hask. reflexivity.
  - eapply Forall_impl; [|exact Hauto]. intros r Hr0. apply in_or_app. now right.
Qed.

(** The first insert of a record, whatever the database answers. *)
Lemma relatedRecord_first_sends table1 table2 recordCount i values1 rest dbs :
  In table1 tables ->
  Forall2 (validValue numericColumnFirst) (tl (Columns table1)) values1 ->
  exists later,
    dbCalls (trace (relatedRecord table1 table2 recordCount i
                      (mkEnv (values1 ++ rest) dbs)))
    = firstCall table1 values1 :: later.
Proof.
  intros Ht1 Hv1. unfold relatedRecord. rewrite !bind_say_prepend.
  rewrite (bind_run _ _ _ _ _ _ (sliceFrom1_ok table1 _ Ht1)).
  rewrite (bind_run _ _ _ _ _ _ (readValues_ok _ _ _ Hv1 [] _ _)).
  cbn [List.app].
  match goal with
  | |- context [bind (dbQueryRow ?sql ?args) ?k ?e] =>
      destruct (bind_dbQueryRow sql args k e) as (res & e1 & ->)
  end.
  rewrite !trace_prepend, !dbCalls_app, dbCalls_ask. simpl. eexists. reflexivity.
Qed.

Lemma relatedRecord_first_refuses table1 table2 recordCount i before column following
      valuesBefore value rest dbs :
  In table1 tables ->
  tl (Columns table1) = (before ++ column :: following)%list ->
  Forall2 (validValue numericColumnFirst) before valuesBefore ->
  GoStr.whiteListRegex_MatchString value = true ->
  numericColumnFirst column = true -> GoStr.Atoi value = None ->
  exists t,
    relatedRecord table1 table2 recordCount i
      (mkEnv (valuesBefore ++ value :: rest) dbs)
    = (Return, mkEnv rest dbs, (t ++ [Say (MsgNotANumber column)])%list)
    /\ dbCalls t = [].
Proof.
  intros Ht1 Hc Hb Hw Hn Ha. unfold relatedRecord. rewrite !bind_say_prepend.
  rewrite (bind_run _ _ _ _ _ _ (sliceFrom1_ok table1 _ Ht1)), Hc.
  rewrite (bind_stop _ _ _ _ _
             (readValues_refuses _ _ _ _ _ following [] rest dbs Hb Hw Hn Ha)).
  exists ([Say (MsgRecordHeader (i + 1) recordCount); Say (MsgTableHeader (Name table1))]
          ++ map askValue before ++ [askValue column])%list.
  split.
  - unfold prepend, outcome, after, trace. simpl. now rewrite <- !app_assoc.
  - rewrite !dbCalls_app, dbCalls_ask. reflexivity.
Qed.

(** The second insert of a record, whatever the database answers. *)
Lemma relatedRecord_second_sends table1 table2 recordCount i values1 values2 id
      rest dbs :
  In table1 tables -> In table2 tables ->
  Forall2 (validValue numericColumnFirst) (tl (Columns table1)) values1 ->
  Forall2 (validValue numericColumnSecond)
    (typedColumns (foreignKeyColumn table1 table2) (tl (Columns table2))) values2 ->
  dbCalls (trace (relatedRecord table1 table2 recordCount i
                    (mkEnv (values1 ++ values2 ++ rest) (DBId id :: dbs))))
  = [firstCall table1 values1; secondCall table1 table2 id values2].
Proof.
  intros Ht1 Ht2 Hv1 Hv2. unfold relatedRecord, firstCall, secondCall.
  rewrite !bind_say_prepend.
  rewrite (bind_run _ _ _ _ _ _ (sliceFrom1_ok table1 _ Ht1)).
  rewrite (bind_run _ _ _ _ _ _ (readValues_ok _ _ _ Hv1 [] _ _)).
  cbn [List.app].
  rewrite (bind_run (dbQueryRow _ _) _ _ (Some id) (mkEnv (values2 ++ rest) dbs)
             [QueryRow (insertQuery (Name table1) (tl (Columns table1)) ++ " RETURNING id")
                (map AStr values1)]) by reflexivity.
  rewrite !bind_say_prepend. cbv zeta. rewrite ?bind_say_prepend.
  rewrite (bind_run _ _ _ _ _ _ (sliceFrom1_ok table2 _ Ht2)).
  rewrite (bind_run _ _ _ _ _ _ (readValuesSecond_ok _ _ _ _ Hv2 [] _ _)).
  cbn [List.app].
  match goal with
  | |- context [bind (dbExec ?sql ?args) ?k ?e] =>
      destruct (bind_dbExec sql args k e) as (res & e1 & ->)
  end.
  rewrite !trace_prepend, !dbCalls_app, dbCalls_ask, dbCalls_second.
  destruct res; reflexivity.
Qed.

Lemma relatedRecord_second_refuses table1 table2 recordCount i values1 id
      before column following valuesBefore value rest dbs :
  In table1 tables -> In table2 tables ->
  Forall2 (validValue numericColumnFirst) (tl (Columns table1)) values1 ->
  tl (Columns table2) = (before ++ column :: following)%list ->
  Forall2 (validValue numericColumnSecond)
    (typedColumns (foreignKeyColumn table1 table2) before) valuesBefore ->
  GoStr.whiteListRegex_MatchString value = true ->
  numericColumnSecond column = true ->
  column <> foreignKeyColumn table1 table2 ->
  GoStr.Atoi value = None ->
  exists t,
    relatedRecord table1 table2 recordCount i
      (mkEnv (values1 ++ valuesBefore ++ value :: rest) (DBId id :: dbs))
    = (Return, mkEnv rest dbs, (t ++ [Say (MsgNotANumber column)])%list)
    /\ dbCalls t = [firstCall table1 values1].
Proof.
  intros Ht1 Ht2 Hv1 Hc Hb Hw Hn Hk Ha. unfold relatedRecord, firstCall.
  rewrite !bind_say_prepend.
  rewrite (bind_run _ _ _ _ _ _ (sliceFrom1_ok table1 _ Ht1)).
  rewrite (bind_run _ _ _ _ _ _ (readValues_ok _ _ _ Hv1 [] _ _)).
  cbn [List.app].
  rewrite (bind_run (dbQueryRow _ _) _ _ (Some id)
             (mkEnv (valuesBefore ++ value :: rest) dbs)
             [QueryRow (insertQuery (Name table1) (tl (Columns table1)) ++ " RETURNING id")
                (map AStr values1)]) by reflexivity.
  rewrite !bind_say_prepend. cbv zeta. rewrite ?bind_say_prepend.
  rewrite (bind_run _ _ _ _ _ _ (sliceFrom1_ok table2 _ Ht2)), Hc.
  rewrite (bind_stop _ _ _ _ _
             (readValuesSecond_refuses _ id _ _ _ _ following [] rest dbs
                Hb Hw Hn Hk Ha)).
  rewrite !prepend_prepend.
  exists ([Say (MsgRecordHeader (i + 1) recordCount); Say (MsgTableHeader (Name table1))]
          ++ map askValue (tl (Columns table1))
          ++ [QueryRow (insertQuery (Name table1) (tl (Columns table1)) ++ " RETURNING id")
                (map AStr values1);
              Say (MsgFirstInserted (Name table1) id);
              Say (MsgTableHeader (Name table2));
              Say (MsgForeignKey (Name table2) (foreignKeyColumn table1 table2) id)]
          ++ map (secondEvent (foreignKeyColumn table1 table2) id) before
          ++ [askValue column])%list.
  split.
  - unfold prepend, outcome, after, trace. cbn [fst snd].
    rewrite ?app_nil_r, <- !app_assoc. cbn [List.app]. reflexivity.
  - rewrite !dbCalls_app, dbCalls_ask, dbCalls_second. reflexivity.
Qed.

(** ** The chained identifier, record after record *)

Lemma In_tl {A} (x : A) (l : list A) : In x (tl l) -> In x l.
Proof. destruct l; simpl; auto. Qed.

(** C4.  In insertRelatedData, for each configured relation, whatever
    the number of records announced: for every record typed with valid
    values and accepted by the database, the first insert is sent with
    RETURNING id, the operator is asked for the non-id columns of the
    first table and then for the non-id columns of the second table
    without the foreign-key column, that column is announced as set
    automatically, and the parameter bound at its position in the
    second insert is the identifier the first insert of this record
    returned.  When all the records announced are such, these are all
    the statements sent and all the columns asked. *)
Theorem related_insert_chains_id :
  forall (countInput choiceInput relation name1 name2 : string) (recordCount : Z)
         (records : list Related) (rest : list string) (dbs : list DBResult),
    GoStr.Atoi countInput = Some recordCount ->
    (1 <= recordCount)%Z ->
    (len records <= recordCount)%Z ->
    chosen relatedTables choiceInput = Some relation ->
    GoStr.Split relation relationSep = [name1; name2] ->
    let table1 := findTable name1 in
    let table2 := findTable name2 in
    let foreignKey := foreignKeyColumn table1 table2 in
    let columns2 := tl (Columns table2) in
    Forall (validRelated table1 table2) records ->
    let r := insertRelatedData
               (mkEnv (countInput :: choiceInput :: flat_map typedRelated records ++ rest)
                  (flat_map answersRelated records ++ dbs)) in
    (exists later,
        dbCalls (trace r)
        = (flat_map (relatedCalls table1 table2) records ++ later)%list)
    /\ (exists later,
          askedColumns (trace r)
          = (flat_map (fun _ => relatedAsked table1 table2) records ++ later)%list)
    /\ In foreignKey columns2
    /\ ~ In foreignKey (typedColumns foreignKey columns2)
    /\ Forall (fun record =>
                 In (Say (MsgAutoSet foreignKey (insertedId record))) (trace r)
                 /\ forall j, nth_error columns2 j = Some foreignKey ->
                      nth_error
                        (snd (secondCall table1 table2 (insertedId record)
                                (secondValues record))) j
                      = Some (AInt (insertedId record)))
         records
    /\ (len records = recordCount ->
        outcome r = Ret tt
        /\ after r = mkEnv rest dbs
        /\ dbCalls (trace r) = flat_map (relatedCalls table1 table2) records
        /\ askedColumns (trace r)
           = flat_map (fun _ => relatedAsked table1 table2) records).
Proof.
  intros countInput choiceInput relation name1 name2 recordCount records rest dbs
         Hcount Hk Hlen Hrel Hsplit table1 table2 foreignKey columns2 Hvalid r.
  pose proof (chosen_In _ _ _ Hrel) as Hin.
  destruct (relation_tables relation name1 name2 Hin Hsplit) as (_ & _ & Hfk).
  fold table1 table2 foreignKey columns2 in Hfk.
  set (m := Z.to_nat recordCount - List.length records).
  assert (Hn : Z.to_nat recordCount = List.length records + m)
    by (unfold m, len in *; lia).
  destruct (insertRelatedData_after_done countInput choiceInput relation name1 name2
              recordCount records rest dbs m Hcount Hn Hk Hrel Hsplit Hvalid)
    as (t & Hr & Hdb & Hask & Hauto).
  fold table1 table2 foreignKey in Hr, Hdb, Hask, Hauto. fold r in Hr.
  split; [|split; [|split; [|split; [|split]]]].
  - eexists. rewrite Hr, trace_prepend, dbCalls_app, Hdb. reflexivity.
  - eexists. rewrite Hr, trace_prepend, askedColumns_app, Hask. reflexivity.
  - exact Hfk.
  - apply typedColumns_without_key.
  - rewrite Forall_forall in Hauto, Hvalid. apply Forall_forall. intros record Hrec.
    split.
    + rewrite Hr, trace_prepend. apply in_or_app. left. now apply Hauto.
    + intros j Hj. unfold secondCall. cbn [snd].
      apply secondArgs_at_key; [|exact Hj].
      destruct (Hvalid record Hrec) as [_ Hv2].
      symmetry. eapply Forall2_length; eauto.
  - intros Hall.
    assert (Hm : m = 0) by (unfold m, len in *; lia).
    rewrite Hr, Hm. simpl relatedLoop. rewrite bind_ret.
    unfold prepend, outcome, after, trace, say, emit. cbn [fst snd].
    split; [reflexivity|]. split; [reflexivity|].
    rewrite dbCalls_app, askedColumns_app, Hdb, Hask. simpl.
    now rewrite !app_nil_r.
Qed.

(** Two components and their stock lines: each stock line carries the
    identifier returned for its component, 42 and then 43. *)
Lemma related_insert_chains_id_witness :
  let r := insertRelatedData
             (mkEnv ["2"; "1"; "R10"; "1"; "2"; "0805"; "3"; "40"; "A1";
                     "C5"; "1"; "2"; "0603"; "4"; "15"; "B2"]
                [DBId 42; DBAffected 1; DBId 43; DBAffected 1]) in
  dbCalls (trace r)
  = [ ("INSERT INTO components (name, category_id, manufacturer_id, model, price) VALUES ($1, $2, $3, $4, $5) RETURNING id",
       [AStr "R10"; AStr "1"; AStr "2"; AStr "0805"; AStr "3"]);
      ("INSERT INTO stock (component_id, quantity, warehouse_location) VALUES ($1, $2, $3)",
       [AInt 42; AStr "40"; AStr "A1"]);
      ("INSERT INTO components (name, category_id, manufacturer_id, model, price) VALUES ($1, $2, $3, $4, $5) RETURNING id",
       [AStr "C5"; AStr "1"; AStr "2"; AStr "0603"; AStr "4"]);
      ("INSERT INTO stock (component_id, quantity, warehouse_location) VALUES ($1, $2, $3)",
       [AInt 43; AStr "15"; AStr "B2"]) ]
  /\ askedColumns (trace r)
     = ["name"; "category_id"; "manufacturer_id"; "model"; "price";
        "quantity"; "warehouse_location";
        "name"; "category_id"; "manufacturer_id"; "model"; "price";
        "quantity"; "warehouse_location"]
  /\ In (Say (MsgAutoSet "component_id" 43)) (trace r).
Proof.
  pose proof (related_insert_chains_id "2" "1"
                ("components" ++ relationSep ++ "stock") "components" "stock" 2
                [mkRelated ["R10"; "1"; "2"; "0805"; "3"] ["40"; "A1"] 42 1;
                 mkRelated ["C5"; "1"; "2"; "0603"; "4"] ["15"; "B2"] 43 1]
                [] []
                eq_refl ltac:(lia) ltac:(unfold len; simpl; lia) eq_refl eq_refl) as H.
  cbv zeta in H.
  assert (Hv : Forall (validRelated (findTable "components") (findTable "stock"))
                 [mkRelated ["R10"; "1"; "2"; "0805"; "3"] ["40"; "A1"] 42 1;
                  mkRelated ["C5"; "1"; "2"; "0603"; "4"] ["15"; "B2"] 43 1]).
  { repeat constructor; discriminate. }
  destruct (H Hv) as (_ & _ & _ & _ & Hauto & Hall).
  destruct (Hall eq_refl) as (_ & _ & Hdb & Hask).
  split; [exact Hdb|]. split; [exact Hask|].
  inversion Hauto as [|? ? _ Hrest]. inversion Hrest as [|? ? [H43 _] _].
  exact H43.
Defined.

(* ================================================================= *)
(** ** The numeric rule in the operations *)

Lemma filterData_statement countInput tableInput table pairs cols rest dbs :
  GoStr.Atoi countInput = Some (len pairs) ->
  pairs <> [] ->
  chosen tables tableInput = Some table ->
  Forall2 (validFilter table) pairs cols ->
  dbCalls (trace (filterData
     (mkEnv (countInput :: tableInput :: typedPairs pairs ++ rest) dbs)))
  = [("SELECT * FROM " ++ Name table ++ " WHERE "
        ++ String.concat " AND " (conditionsOf cols 1) ++ " ORDER BY id",
      map (fun p => AStr (snd p)) pairs)].
Proof.
  intros Hcount Hne Htable Hpairs. unfold filterData.
  rewrite (bind_run _ _ _ _ _ _ (readCount_ok OpFilter countInput (len pairs) _ dbs Hcount
             ltac:(unfold len; destruct pairs; [congruence | simpl; lia]))).
  destruct (selectTable_ok OpFilter tableInput table (typedPairs pairs ++ rest) dbs Htable)
    as (ti & Hsel & Hti & Hidx).
  rewrite (bind_run _ _ _ _ _ _ Hsel), Hti, Hidx, bind_ret.
  destruct (filterLoop_ok table (len pairs) pairs cols Hpairs 0 [] [] rest dbs)
    as (t & Hloop & Hdb).
  unfold len at 2. rewrite Nat2Z.id.
  rewrite (bind_run _ _ _ _ _ _ Hloop).
  rewrite !trace_prepend, !dbCalls_app, Hdb. simpl.
  apply dbCalls_query_then.
  intros [[columns rows]|] e1.
  - destruct (scanRows _ _ _ _) as [widths allRows].
    destruct allRows; [reflexivity|].
    rewrite bind_emitAll, trace_prepend, dbCalls_app, dbCalls_printGrid.
    reflexivity.
  - reflexivity.
Qed.

Lemma numericNames_second column :
  column = "quantity" \/ column = "price" -> numericColumnSecond column = true.
Proof. intros [->| ->]; reflexivity. Qed.

Lemma valid_numeric isNumeric column value k :
  GoStr.whiteListRegex_MatchString value = true ->
  GoStr.Atoi value = Some k ->
  validValue isNumeric column value.
Proof. intros Hw Ha. split; [exact Hw|]. intros _. unfold parses. congruence. Qed.

(** C2, amended.  Let [column] be one of the six numeric names and
    [value] a text that passes the white list.  In updateData; in
    insertData, for any record of the batch, the records before having
    been inserted; in the first insert of insertRelatedData, for any
    record and a column of the first table of the relation; and in the
    second insert, for any record, for quantity and price: the
    operation stops on the not-a-number message, with no statement
    sent for the record (for the second insert: none after the first
    insert of the record), exactly when [strconv.Atoi] fails on the
    value; otherwise the value is taken and, the other values of the
    record being valid, bound in the statement of the record.
    filterData has no numeric rule: the value is bound in the SELECT
    whether it is a number or not. *)
Theorem numeric_rule_where_applied :
  forall column value : string,
    In column numericNames ->
    GoStr.whiteListRegex_MatchString value = true ->
    (* updateData *)
    (forall countInput tableInput table ids columnInput rest dbs,
        GoStr.Atoi countInput = Some (len ids) -> ids <> [] ->
        chosen tables tableInput = Some table ->
        Forall parses ids ->
        chosen (updatableColumns table) columnInput = Some column ->
        let r := updateData
                   (mkEnv (countInput :: tableInput :: ids ++ columnInput :: value :: rest)
                      dbs) in
        match GoStr.Atoi value with
        | None => rejectedAsNotANumber r column
        | Some _ =>
            dbCalls (trace r)
            = [(updateText (Name table) column (List.length ids),
                AStr value :: map AStr ids)]
        end)
    (* insertData *)
    /\ (forall countInput tableInput count table done oks before following
               valuesBefore rest dbs,
          GoStr.Atoi countInput = Some count ->
          (len done < count)%Z ->
          chosen tables tableInput = Some table ->
          tl (Columns table) = (before ++ column :: following)%list ->
          Forall (Forall2 (validValue numericColumn) (tl (Columns table))) done ->
          List.length oks = List.length done ->
          Forall2 (validValue numericColumn) before valuesBefore ->
          let run := fun typed =>
            insertData (mkEnv (countInput :: tableInput :: concat done ++ typed)
                          (map DBAffected oks ++ dbs)) in
          match GoStr.Atoi value with
          | None =>
              rejectedAfter (run (valuesBefore ++ value :: rest)%list) column
                (map (insertCall table) done)
          | Some _ =>
              forall valuesAfter,
                Forall2 (validValue numericColumn) following valuesAfter ->
                exists later,
                  dbCalls (trace (run ((valuesBefore ++ value :: valuesAfter)
                                         ++ rest)%list))
                  = (map (insertCall table) done
                     ++ insertCall table (valuesBefore ++ value :: valuesAfter)
                     :: later)%list
          end)
    (* insertRelatedData, first table *)
    /\ (forall countInput choiceInput relation name1 name2 count done before following
               valuesBefore rest dbs,
          GoStr.Atoi countInput = Some count ->
          (len done < count)%Z ->
          chosen relatedTables choiceInput = Some relation ->
          GoStr.Split relation relationSep = [name1; name2] ->
          let table1 := findTable name1 in
          let table2 := findTable name2 in
          tl (Columns table1) = (before ++ column :: following)%list ->
          Forall (validRelated table1 table2) done ->
          Forall2 (validValue numericColumnFirst) before valuesBefore ->
          let run := fun typed =>
            insertRelatedData
              (mkEnv (countInput :: choiceInput :: flat_map typedRelated done ++ typed)
                 (flat_map answersRelated done ++ dbs)) in
          match GoStr.Atoi value with
          | None =>
              rejectedAfter (run (valuesBefore ++ value :: rest)%list) column
                (flat_map (relatedCalls table1 table2) done)
          | Some _ =>
              forall valuesAfter,
                Forall2 (validValue numericColumnFirst) following valuesAfter ->
                exists later,
                  dbCalls (trace (run ((valuesBefore ++ value :: valuesAfter)
                                         ++ rest)%list))
                  = (flat_map (relatedCalls table1 table2) done
                     ++ firstCall table1 (valuesBefore ++ value :: valuesAfter)
                     :: later)%list
          end)
    (* insertRelatedData, second table *)
    /\ (forall countInput choiceInput relation name1 name2 count done values1 id
               before following valuesBefore rest dbs,
          column = "quantity" \/ column = "price" ->
          GoStr.Atoi countInput = Some count ->
          (len done < count)%Z ->
          chosen relatedTables choiceInput = Some relation ->
          GoStr.Split relation relationSep = [name1; name2] ->
          let table1 := findTable name1 in
          let table2 := findTable name2 in
          let foreignKey := foreignKeyColumn table1 table2 in
          tl (Columns table2) = (before ++ column :: following)%list ->
          Forall (validRelated table1 table2) done ->
          Forall2 (validValue numericColumnFirst) (tl (Columns table1)) values1 ->
          Forall2 (validValue numericColumnSecond) (typedColumns foreignKey before)
            valuesBefore ->
          let run := fun typed =>
            insertRelatedData
              (mkEnv (countInput :: choiceInput
                        :: flat_map typedRelated done ++ values1 ++ typed)
                 (flat_map answersRelated done ++ DBId id :: dbs)) in
          match GoStr.Atoi value with
          | None =>
              rejectedAfter (run (valuesBefore ++ value :: rest)%list) column
                (flat_map (relatedCalls table1 table2) done
                 ++ [firstCall table1 values1])
          | Some _ =>
              forall valuesAfter,
                Forall2 (validValue numericColumnSecond)
                  (typedColumns foreignKey following) valuesAfter ->
                exists later,
                  dbCalls (trace (run ((valuesBefore ++ value :: valuesAfter)
                                         ++ rest)%list))
                  = (flat_map (relatedCalls table1 table2) done
                     ++ firstCall table1 values1
                     :: secondCall table1 table2 id
                          (valuesBefore ++ value :: valuesAfter)
                     :: later)%list
          end)
    (* filterData: no numeric rule *)
    /\ (forall countInput tableInput table pairs1 pairs2 cols1 cols2 columnInput
               rest dbs,
          let pairs := (pairs1 ++ (columnInput, value) :: pairs2)%list in
          GoStr.Atoi countInput = Some (len pairs) ->
          chosen tables tableInput = Some table ->
          Forall2 (validFilter table) pairs1 cols1 ->
          chosen (Columns table) columnInput = Some column ->
          Forall2 (validFilter table) pairs2 cols2 ->
          dbCalls (trace (filterData
             (mkEnv (countInput :: tableInput :: typedPairs pairs ++ rest) dbs)))
          = [("SELECT * FROM " ++ Name table ++ " WHERE "
                ++ String.concat " AND " (conditionsOf (cols1 ++ column :: cols2) 1)
                ++ " ORDER BY id",
              map (fun p => AStr (snd p)) pairs)]).
Proof.
  intros column value Hnum Hw.
  pose proof (numericNames_numericColumn column Hnum) as Hn.
  split; [|split; [|split; [|split]]].
  - (* updateData *)
    intros countInput tableInput table ids columnInput rest dbs
           Hcount Hne Htable Hids Hcol r.
    destruct (GoStr.Atoi value) as [k|] eqn:E.
    + apply (updateData_accepted countInput tableInput table ids columnInput column
               value rest dbs); auto.
      now apply valid_numeric with (k := k).
    + apply (updateData_rejected countInput tableInput table ids columnInput column
               value rest dbs); auto.
  - (* insertData *)
    intros countInput tableInput count table done oks before following valuesBefore
           rest dbs Hcount Hlt Htable Hcols Hdone Hl Hb run.
    set (m := Z.to_nat count - List.length done - 1).
    assert (Hm : Z.to_nat count = List.length done + S m)
      by (unfold m, len in *; lia).
    destruct (GoStr.Atoi value) as [k|] eqn:E.
    + intros valuesAfter Ha.
      assert (Hrec : Forall2 (validValue numericColumn) (tl (Columns table))
                       (valuesBefore ++ value :: valuesAfter)).
      { rewrite Hcols. apply Forall2_app; [exact Hb|].
        constructor; [now apply valid_numeric with (k := k) | exact Ha]. }
      destruct (insertData_after_done countInput tableInput count table done oks
                  ((valuesBefore ++ value :: valuesAfter) ++ rest)%list dbs m
                  Hcount Hm Htable Hdone Hl) as (t & Hr & Hdb).
      unfold run. rewrite Hr, trace_prepend, dbCalls_app, Hdb.
      simpl insertLoop.
      match goal with
      | |- context [trace (bind (bind ?a ?b) ?c ?e)] =>
          destruct (trace_bind_prefix (bind a b) c e) as (m1 & ->);
          destruct (trace_bind_prefix a b e) as (m2 & ->)
      end.
      rewrite !dbCalls_app, (insertRecord_sends _ _ _ _ _ _ Hrec).
      eexists. simpl. reflexivity.
    + destruct (insertData_after_done countInput tableInput count table done oks
                  (valuesBefore ++ value :: rest)%list dbs m
                  Hcount Hm Htable Hdone Hl) as (t & Hr & Hdb).
      destruct (insertRecord_refuses table count (List.length done) before column
                  following valuesBefore value rest dbs Hcols Hb Hw Hn E)
        as (t1 & Hrec & Hdb1).
      unfold run. rewrite Hr. simpl insertLoop.
      rewrite (bind_stop _ _ _ _ _ (bind_stop _ _ _ _ _ Hrec)).
      unfold rejectedAfter, prepend, outcome, after, trace. cbn [fst snd].
      split; [reflexivity|]. split.
      * rewrite !dbCalls_app, Hdb, Hdb1. simpl. now rewrite ?app_nil_r.
      * rewrite app_assoc. apply last_last.
  - (* insertRelatedData, first table *)
    intros countInput choiceInput relation name1 name2 count done before following
           valuesBefore rest dbs Hcount Hlt Hrel Hsplit table1 table2 Hcols Hdone Hb run.
    pose proof (chosen_In _ _ _ Hrel) as Hin.
    destruct (relation_tables relation name1 name2 Hin Hsplit) as (Ht1 & Ht2 & _).
    fold table1 table2 in Ht1, Ht2.
    assert (Hn1 : numericColumnFirst column = true).
    { apply (numericNames_first table1); [|apply In_tl; rewrite Hcols|exact Hnum].
      - exists relation, name1, name2. auto.
      - apply in_or_app. right. now left. }
    set (m := Z.to_nat count - List.length done - 1).
    assert (Hm : Z.to_nat count = List.length done + S m)
      by (unfold m, len in *; lia).
    assert (Hk : (1 <= count)%Z) by (unfold len in *; lia).
    destruct (GoStr.Atoi value) as [k|] eqn:E.
    + intros valuesAfter Ha.
      assert (Hrec : Forall2 (validValue numericColumnFirst) (tl (Columns table1))
                       (valuesBefore ++ value :: valuesAfter)).
      { rewrite Hcols. apply Forall2_app; [exact Hb|].
        constructor; [now apply valid_numeric with (k := k) | exact Ha]. }
      destruct (insertRelatedData_after_done countInput choiceInput relation name1 name2
                  count done ((valuesBefore ++ value :: valuesAfter) ++ rest)%list dbs
                  (S m) Hcount Hm Hk Hrel Hsplit Hdone) as (t & Hr & Hdb & _).
      fold table1 table2 in Hr, Hdb.
      unfold run. rewrite Hr, trace_prepend, dbCalls_app, Hdb.
      simpl relatedLoop.
      match goal with
      | |- context [trace (bind (bind ?a ?b) ?c ?e)] =>
          destruct (trace_bind_prefix (bind a b) c e) as (m1 & ->);
          destruct (trace_bind_prefix a b e) as (m2 & ->)
      end.
      destruct (relatedRecord_first_sends table1 table2 count (List.length done)
                  (valuesBefore ++ value :: valuesAfter) rest dbs Ht1 Hrec)
        as (later & Hsent).
      rewrite !dbCalls_app, Hsent. eexists. simpl. reflexivity.
    + destruct (insertRelatedData_after_done countInput choiceInput relation name1 name2
                  count done (valuesBefore ++ value :: rest)%list dbs
                  (S m) Hcount Hm Hk Hrel Hsplit Hdone) as (t & Hr & Hdb & _).
      fold table1 table2 in Hr, Hdb.
      destruct (relatedRecord_first_refuses table1 table2 count (List.length done)
                  before column following valuesBefore value rest dbs
                  Ht1 Hcols Hb Hw Hn1 E) as (t1 & Hrec & Hdb1).
      unfold run. rewrite Hr. simpl relatedLoop.
      rewrite (bind_stop _ _ _ _ _ (bind_stop _ _ _ _ _ Hrec)).
      unfold rejectedAfter, prepend, outcome, after, trace. cbn [fst snd].
      split; [reflexivity|]. split.
      * rewrite !dbCalls_app, Hdb, Hdb1. simpl. now rewrite ?app_nil_r.
      * rewrite app_assoc. apply last_last.
  - (* insertRelatedData, second table *)
    intros countInput choiceInput relation name1 name2 count done values1 id
           before following valuesBefore rest dbs Hqp Hcount Hlt Hrel Hsplit
           table1 table2 foreignKey Hcols Hdone Hv1 Hb run.
    pose proof (chosen_In _ _ _ Hrel) as Hin.
    destruct (relation_tables relation name1 name2 Hin Hsplit) as (Ht1 & Ht2 & _).
    fold table1 table2 in Ht1, Ht2.
    pose proof (numericNames_second column Hqp) as Hn2.
    assert (Hkey : column <> foreignKey).
    { destruct (relation_key_not_typed relation name1 name2 Hin Hsplit) as [Hq Hp].
      fold table1 table2 foreignKey in Hq, Hp.
      destruct Hqp as [->| ->]; congruence. }
    set (m := Z.to_nat count - List.length done - 1).
    assert (Hm : Z.to_nat count = List.length done + S m)
      by (unfold m, len in *; lia).
    assert (Hk : (1 <= count)%Z) by (unfold len in *; lia).
    destruct (GoStr.Atoi value) as [k|] eqn:E.
    + intros valuesAfter Ha.
      assert (Hrec : Forall2 (validValue numericColumnSecond)
                       (typedColumns foreignKey (tl (Columns table2)))
                       (valuesBefore ++ value :: valuesAfter)).
      { rewrite Hcols, typedColumns_app, typedColumns_cons by exact Hkey.
        apply Forall2_app; [exact Hb|].
        constructor; [now apply valid_numeric with (k := k) | exact Ha]. }
      destruct (insertRelatedData_after_done countInput choiceInput relation name1 name2
                  count done
                  (values1 ++ (valuesBefore ++ value :: valuesAfter) ++ rest)%list
                  (DBId id :: dbs)
                  (S m) Hcount Hm Hk Hrel Hsplit Hdone) as (t & Hr & Hdb & _).
      fold table1 table2 in Hr, Hdb.
      unfold run. rewrite Hr, trace_prepend, dbCalls_app, Hdb.
      simpl relatedLoop.
      match goal with
      | |- context [trace (bind (bind ?a ?b) ?c ?e)] =>
          destruct (trace_bind_prefix (bind a b) c e) as (m1 & ->);
          destruct (trace_bind_prefix a b e) as (m2 & ->)
      end.
      rewrite !dbCalls_app.
      rewrite (relatedRecord_second_sends table1 table2 count (List.length done)
                 values1 (valuesBefore ++ value :: valuesAfter) id rest dbs
                 Ht1 Ht2 Hv1 Hrec).
      eexists. simpl. reflexivity.
    + destruct (insertRelatedData_after_done countInput choiceInput relation name1 name2
                  count done (values1 ++ valuesBefore ++ value :: rest)%list
                  (DBId id :: dbs)
                  (S m) Hcount Hm Hk Hrel Hsplit Hdone) as (t & Hr & Hdb & _).
      fold table1 table2 in Hr, Hdb.
      destruct (relatedRecord_second_refuses table1 table2 count (List.length done)
                  values1 id before column following valuesBefore value rest dbs
                  Ht1 Ht2 Hv1 Hcols Hb Hw Hn2 Hkey E) as (t1 & Hrec & Hdb1).
      unfold run. rewrite Hr. simpl relatedLoop.
      rewrite (bind_stop _ _ _ _ _ (bind_stop _ _ _ _ _ Hrec)).
      unfold rejectedAfter, prepend, outcome, after, trace. cbn [fst snd].
      split; [reflexivity|]. split.
      * rewrite !dbCalls_app, Hdb, Hdb1. simpl. now rewrite ?app_nil_r.
      * rewrite app_assoc. apply last_last.
  - (* filterData *)
    intros countInput tableInput table pairs1 pairs2 cols1 cols2 columnInput rest dbs
           pairs Hcount Htable H1 Hcol H2.
    apply filterData_statement; auto.
    + unfold pairs. now destruct pairs1.
    + unfold pairs. apply Forall2_app; [exact H1|].
      constructor; [|exact H2]. split; [exact Hcol | exact Hw].
Qed.

(** The price of the second component of a batch written 12a: the
    batch stops there, the first component stays inserted.  The
    quantity of the second stock line written 4x: the related insert
    stops after the insert of the second component. *)
Lemma numeric_rule_where_applied_witness :
  rejectedAfter
    (insertData
       (mkEnv ["2"; "3"; "R10"; "1"; "2"; "0805"; "3";
               "C5"; "1"; "2"; "0603"; "12a"; "next"]
          [DBAffected 1; DBAffected 1]))
    "price"
    [("INSERT INTO components (name, category_id, manufacturer_id, model, price) VALUES ($1, $2, $3, $4, $5)",
      [AStr "R10"; AStr "1"; AStr "2"; AStr "0805"; AStr "3"])]
  /\ rejectedAfter
       (insertRelatedData
          (mkEnv ["2"; "1"; "R10"; "1"; "2"; "0805"; "3"; "40"; "A1";
                  "C5"; "1"; "2"; "0603"; "4"; "4x"; "next"]
             [DBId 42; DBAffected 1; DBId 43; DBAffected 1]))
       "quantity"
       [("INSERT INTO components (name, category_id, manufacturer_id, model, price) VALUES ($1, $2, $3, $4, $5) RETURNING id",
         [AStr "R10"; AStr "1"; AStr "2"; AStr "0805"; AStr "3"]);
        ("INSERT INTO stock (component_id, quantity, warehouse_location) VALUES ($1, $2, $3)",
         [AInt 42; AStr "40"; AStr "A1"]);
        ("INSERT INTO components (name, category_id, manufacturer_id, model, price) VALUES ($1, $2, $3, $4, $5) RETURNING id",
         [AStr "C5"; AStr "1"; AStr "2"; AStr "0603"; AStr "4"])].
Proof.
  split.
  - refine (proj1 (proj2 (numeric_rule_where_applied "price" "12a" _ eq_refl))
              "2" "3" 2%Z
              (mkTable "components"
                 ["id"; "name"; "category_id"; "manufacturer_id"; "model"; "price"])
              [["R10"; "1"; "2"; "0805"; "3"]] [1%Z]
              ["name"; "category_id"; "manufacturer_id"; "model"] []
              ["C5"; "1"; "2"; "0603"] ["next"] [DBAffected 1]
              eq_refl _ eq_refl eq_refl _ eq_refl _).
    + simpl. auto.
    + unfold len. simpl. lia.
    + repeat constructor; discriminate.
    + repeat constructor; discriminate.
  - refine (proj1 (proj2 (proj2 (proj2
              (numeric_rule_where_applied "quantity" "4x" _ eq_refl))))
              "2" "1" ("components" ++ relationSep ++ "stock") "components" "stock" 2%Z
              [mkRelated ["R10"; "1"; "2"; "0805"; "3"] ["40"; "A1"] 42 1]
              ["C5"; "1"; "2"; "0603"; "4"] 43%Z
              ["component_id"] ["warehouse_location"] [] ["next"] [DBAffected 1]
              _ eq_refl _ eq_refl eq_refl eq_refl _ _ _).
    + simpl. auto.
    + now left.
    + unfold len. simpl. lia.
    + repeat constructor; discriminate.
    + repeat constructor; discriminate.
    + constructor.
Defined.
